(** * c2pa-c: the C++ wrapper around the C2PA foreign library

    A shallow embedding of the stream callbacks (c2pa_internal.hpp,
    c2pa_streams.cpp), of the signer trampoline (c2pa_signer.cpp) and of the
    handle-owning wrapper classes (c2pa_settings.cpp, c2pa_context.cpp,
    c2pa_builder.cpp, c2pa_reader.cpp, c2pa.hpp), with the properties of the
    specification stated over them.

    Conventions.  The target is LP64: [intptr_t], [int64_t] and
    [std::streamsize] are the same 64-bit signed type, so the casts between
    them are identities and their values are written in [Z]; the one
    unsigned-to-signed conversion of the code ([signer_passthrough]) is
    written out.  A pointer argument of a callback is represented by the
    memory it designates: [None] is [nullptr]. *)

From Stdlib Require Import ZArith Lia Bool List.
From stdpp Require Import base option list strings gmap.

Local Open Scope Z_scope.

(** ** A state monad for the callbacks *)

Definition St (S A : Type) : Type := S -> A * S.

Definition st_ret {S A} (a : A) : St S A := fun s => (a, s).

Definition st_bind {S A B} (c : St S A) (k : A -> St S B) : St S B :=
  fun s => let (a, s') := c s in k a s'.

Definition st_get {S} : St S S := fun s => (s, s).

Definition st_modify {S} (f : S -> S) : St S unit := fun s => (tt, f s).

Declare Scope st_scope.
Delimit Scope st_scope with st.
Notation "x <- c1 ;; c2" := (st_bind c1 (fun x => c2))
  (at level 100, c1 at next level, right associativity) : st_scope.
Notation "c1 ;;; c2" := (st_bind c1 (fun _ => c2))
  (at level 100, right associativity) : st_scope.

(** ** Result codes (c2pa.hpp) *)

Inductive OperationResult := Success | Error.

Definition OperationResult_int (r : OperationResult) : Z :=
  match r with Success => 0 | Error => -1 end.

Inductive StreamError := InvalidArgument | IoError | NoBufferSpace.

(** The enumerators are the platform's errno macros; the Linux values. *)
Definition EINVAL : Z := 22.
Definition EIO : Z := 5.
Definition ENOBUFS : Z := 105.

Definition StreamError_int (e : StreamError) : Z :=
  match e with
  | InvalidArgument => EINVAL
  | IoError => EIO
  | NoBufferSpace => ENOBUFS
  end.

(** Memories that hold the thread's [errno]. *)
Class HasErrno (S : Type) := {
  get_errno : S -> Z;
  set_errno : Z -> S -> S;
  get_set_errno : forall e s, get_errno (set_errno e s) = e
}.

(** [stream_error_return]: store the code in errno, return the sentinel. *)
Definition stream_error_return {S} `{HasErrno S} (e : StreamError) : St S Z :=
  fun s => (OperationResult_int Error, set_errno (StreamError_int e) s).

(** ** The standard stream objects the callbacks drive

    [std::istream], [std::ostream] and [std::iostream] over a character
    sequence, with the state bits of [std::ios_base], the count of the last
    unformatted read and a switch that makes the stream buffer report a
    device error on its next operation.  The stream buffer is of one of two
    kinds.  A [std::stringbuf] keeps a get position and a put position, and
    a position is reachable when it lies within the sequence.  A
    [std::filebuf] keeps one position for both (held in [gpos]), and any
    position that is not negative is reachable.  Where the standard leaves
    a choice the model follows libstdc++. *)

Inductive streambuf := stringbuf | filebuf.

Record ios := Ios {
  badbit : bool;
  failbit : bool;
  eofbit : bool;
  gcount : Z;
  rdbuf : streambuf;
  chars : list Byte.byte;
  gpos : Z;
  ppos : Z;
  fault : bool
}.

Inductive seekdir := beg | cur | end_.

Definition ios_good (s : ios) : bool :=
  negb (badbit s) && negb (failbit s) && negb (eofbit s).
Definition ios_bad (s : ios) : bool := badbit s.
Definition ios_fail (s : ios) : bool := failbit s || badbit s.
Definition ios_eof (s : ios) : bool := eofbit s.

Definition set_state (b f e : bool) (s : ios) : ios :=
  Ios b f e (gcount s) (rdbuf s) (chars s) (gpos s) (ppos s) (fault s).
Definition ios_clear (s : ios) : ios := set_state false false false s.
Definition setstate_failbit (s : ios) : ios :=
  set_state (badbit s) true (eofbit s) s.
Definition setstate_badbit (s : ios) : ios :=
  set_state true (failbit s) (eofbit s) s.
Definition setstate_eof_fail (s : ios) : ios :=
  set_state (badbit s) true true s.
Definition clear_eofbit (s : ios) : ios :=
  set_state (badbit s) (failbit s) false s.

Definition set_gcount (n : Z) (s : ios) : ios :=
  Ios (badbit s) (failbit s) (eofbit s) n (rdbuf s) (chars s) (gpos s) (ppos s)
    (fault s).
Definition set_gpos (p : Z) (s : ios) : ios :=
  Ios (badbit s) (failbit s) (eofbit s) (gcount s) (rdbuf s) (chars s) p (ppos s)
    (fault s).
Definition set_ppos (p : Z) (s : ios) : ios :=
  Ios (badbit s) (failbit s) (eofbit s) (gcount s) (rdbuf s) (chars s) (gpos s) p
    (fault s).
Definition set_chars (l : list Byte.byte) (s : ios) : ios :=
  Ios (badbit s) (failbit s) (eofbit s) (gcount s) (rdbuf s) l (gpos s) (ppos s)
    (fault s).

(** The put position: of its own in a string buffer, the one position of a
    file buffer. *)
Definition pput (s : ios) : Z :=
  match rdbuf s with
  | stringbuf => ppos s
  | filebuf => gpos s
  end.
Definition set_pput (p : Z) (s : ios) : ios :=
  match rdbuf s with
  | stringbuf => set_ppos p s
  | filebuf => set_gpos p s
  end.

Definition size_of (s : ios) : Z := Z.of_nat (length (chars s)).

(** [pubseekoff]: the new position, or [None] for [pos_type(-1)]. *)
Definition pubseekoff (s : ios) (here off : Z) (dir : seekdir) : option Z :=
  let base := match dir with beg => 0 | cur => here | end_ => size_of s end in
  let target := base + off in
  if fault s then None
  else if (0 <=? target)
          && match rdbuf s with
             | stringbuf => target <=? size_of s
             | filebuf => true
             end
       then Some target
  else None.

(** [istream::seekg(off, dir)]: clears eofbit, builds the sentry (which sets
    failbit on a stream that is not good), and repositions unless [fail()]. *)
Definition seekg (off : Z) (dir : seekdir) (s : ios) : ios :=
  let s1 := clear_eofbit s in
  if ios_good s1 then
    match pubseekoff s1 (gpos s1) off dir with
    | Some p => set_gpos p s1
    | None => setstate_failbit s1
    end
  else setstate_failbit s1.

(** [ostream::seekp(off, dir)]: repositions unless [fail()]. *)
Definition seekp (off : Z) (dir : seekdir) (s : ios) : ios :=
  if ios_fail s then s
  else match pubseekoff s (pput s) off dir with
       | Some p => set_pput p s
       | None => setstate_failbit s
       end.

(** [istream::tellg()]: sentry, then -1 when [fail()]. *)
Definition tellg (s : ios) : Z * ios :=
  let s1 := if ios_good s then s else setstate_failbit s in
  if ios_fail s1 then (-1, s1)
  else match pubseekoff s1 (gpos s1) 0 cur with
       | Some p => (p, s1)
       | None => (-1, s1)
       end.

(** [ostream::tellp()]: -1 when [fail()]. *)
Definition tellp (s : ios) : Z * ios :=
  if ios_fail s then (-1, s)
  else match pubseekoff s (pput s) 0 cur with
       | Some p => (p, s)
       | None => (-1, s)
       end.

(** [istream::read(buf, n)]: the stream afterwards and the characters
    stored.  A sentry that fails sets failbit and extracts nothing; a device
    error sets badbit; reaching the end first sets eofbit and failbit. *)
Definition istream_read (n : Z) (s : ios) : ios * list Byte.byte :=
  let s0 := set_gcount 0 s in
  if ios_good s0 then
    if fault s0 then (setstate_badbit s0, [])
    else
      let got := take (Z.to_nat n) (drop (Z.to_nat (gpos s0)) (chars s0)) in
      let k := Z.of_nat (length got) in
      let s1 := set_gcount k (set_gpos (gpos s0 + k) s0) in
      (if k <? n then setstate_eof_fail s1 else s1, got)
  else (setstate_failbit s0, []).

(** Storing [data] at the put position, overwriting and extending (with
    zeros up to a position beyond the end). *)
Definition put_chars (data : list Byte.byte) (s : ios) : ios :=
  let p := Z.to_nat (pput s) in
  let old := chars s in
  set_pput (pput s + Z.of_nat (length data))
    (set_chars (take p old ++ replicate (p - length old) Byte.x00
                ++ data ++ drop (p + length data) old) s).

(** The sentry of an output function on a stream that is not good: no
    output; failbit is set when badbit is. *)
Definition output_refused (s : ios) : ios :=
  if badbit s then setstate_failbit s else s.

(** [ostream::write(buf, n)].  [None] is undefined behaviour: [n] characters
    are read through [buf], which is null or designates fewer.  With
    [n <= 0] nothing is read ([sputn] returns 0, and badbit is set when that
    differs from [n]). *)
Definition ostream_write (buf : option (list Byte.byte)) (n : Z) (s : ios)
  : option ios :=
  if ios_good s then
    if n =? 0 then Some s
    else if n <? 0 then Some (setstate_badbit s)
    else match buf with
         | None => None
         | Some data =>
             if Z.of_nat (length data) <? n then None
             else if fault s then Some (setstate_badbit s)
             else Some (put_chars (take (Z.to_nat n) data) s)
         end
  else Some (output_refused s).

(** [ostream::flush()]: [pubsync] under a sentry; badbit on failure. *)
Definition ostream_flush (s : ios) : ios :=
  if ios_good s then (if fault s then setstate_badbit s else s)
  else output_refused s.

(** ** Stream callbacks (c2pa_internal.hpp, namespace detail) *)

(** [C2paSeekMode] of c2pa.h; [whence_to_seekdir] maps any other value of
    the C enumeration to [beg], as it does [Start]. *)
Inductive C2paSeekMode := Start | Current | End_.

(** What a stream callback can reach: errno, the stream object its
    [context] designates and the caller's [buffer] (which holds at least
    [size] bytes when it is not null). *)
Record StreamMem := StreamMemory {
  sm_errno : Z;
  sm_context : option ios;
  sm_buffer : option (list Byte.byte)
}.

Definition sm_set_errno (e : Z) (m : StreamMem) : StreamMem :=
  StreamMemory e (sm_context m) (sm_buffer m).
Definition sm_set_context (s : ios) (m : StreamMem) : StreamMem :=
  StreamMemory (sm_errno m) (Some s) (sm_buffer m).
Definition sm_set_buffer (b : list Byte.byte) (m : StreamMem) : StreamMem :=
  StreamMemory (sm_errno m) (sm_context m) (Some b).

#[export] Instance StreamMem_errno : HasErrno StreamMem :=
  {| get_errno := sm_errno; set_errno := sm_set_errno;
     get_set_errno := fun _ _ => eq_refl |}.

Definition whence_to_seekdir (whence : C2paSeekMode) : seekdir :=
  match whence with
  | Start => beg
  | Current => cur
  | End_ => end_
  end.

Definition is_stream_usable (s : option ios) : bool :=
  match s with
  | Some s => negb (ios_bad s)
  | None => false
  end.

(** The stream types the templates are instantiated at. *)
Inductive Stream := std_istream | std_ostream | std_iostream.

(** [StreamSeekTraits<Stream>]: how to seek and to tell, per stream type. *)
Class StreamSeekTraits (T : Stream) := {
  seek : Z -> seekdir -> ios -> ios;
  tell : ios -> Z * ios
}.

#[export] Instance StreamSeekTraits_istream : StreamSeekTraits std_istream :=
  {| seek := seekg; tell := tellg |}.

#[export] Instance StreamSeekTraits_ostream : StreamSeekTraits std_ostream :=
  {| seek := seekp; tell := tellp |}.

#[export] Instance StreamSeekTraits_iostream : StreamSeekTraits std_iostream :=
  {| seek := fun off dir s => seekp off dir (seekg off dir s); tell := tellp |}.

Section Callbacks.
Local Open Scope st_scope.

(** [stream_seeker<Stream>(context, offset, whence)] *)
Definition stream_seeker (T : Stream) `{StreamSeekTraits T}
    (offset : Z) (whence : C2paSeekMode) : St StreamMem Z :=
  m <- st_get ;;
  match sm_context m with
  | None => stream_error_return IoError
  | Some stream =>
      if negb (is_stream_usable (Some stream)) then
        stream_error_return IoError
      else
        let dir := whence_to_seekdir whence in
        let stream := ios_clear stream in
        let stream := seek offset dir stream in
        st_modify (sm_set_context stream) ;;;
        if ios_fail stream then stream_error_return InvalidArgument
        else if ios_bad stream then stream_error_return IoError
        else
          let (pos, stream) := tell stream in
          st_modify (sm_set_context stream) ;;;
          if pos <? 0 then stream_error_return IoError
          else st_ret pos
  end.

(** [stream_reader<Stream>(context, buffer, size)] *)
Definition stream_reader (size : Z) : St StreamMem Z :=
  m <- st_get ;;
  match sm_context m, sm_buffer m with
  | None, _ | _, None => stream_error_return InvalidArgument
  | Some stream, Some buffer =>
      if size <? 0 then stream_error_return InvalidArgument
      else if size =? 0 then st_ret 0
      else if negb (is_stream_usable (Some stream)) then
        stream_error_return IoError
      else
        let (stream, got) := istream_read size stream in
        st_modify (sm_set_context stream) ;;;
        st_modify (sm_set_buffer (got ++ drop (length got) buffer)) ;;;
        if ios_fail stream && negb (ios_eof stream) then
          stream_error_return InvalidArgument
        else if ios_bad stream then stream_error_return IoError
        else st_ret (gcount stream)
  end.

(** [stream_op<Stream, Op>(context, op)].  The operation may be undefined
    ([None]); the callback is then undefined too. *)
Definition stream_op (op : ios -> option (Z * ios))
  : StreamMem -> option (Z * StreamMem) :=
  fun m =>
    match sm_context m with
    | None => Some (stream_error_return IoError m)
    | Some stream =>
        if negb (is_stream_usable (Some stream)) then
          Some (stream_error_return IoError m)
        else
          match op stream with
          | None => None
          | Some (result, stream) =>
              let m := sm_set_context stream m in
              if ios_fail stream then
                Some (stream_error_return InvalidArgument m)
              else if ios_bad stream then
                Some (stream_error_return IoError m)
              else Some (result, m)
          end
    end.

(** [stream_writer<Stream>(context, buffer, size)] *)
Definition stream_writer (size : Z) : StreamMem -> option (Z * StreamMem) :=
  fun m =>
    stream_op (fun s =>
                 s' ← ostream_write (sm_buffer m) size s;
                 Some (size, s')) m.

(** [stream_flusher<Stream>(context)] *)
Definition stream_flusher : StreamMem -> option (Z * StreamMem) :=
  stream_op (fun s => Some (0, ostream_flush s)).
End Callbacks.

(** ** The three adapters (c2pa_streams.cpp) *)

Module CppIStream.
Definition reader (size : Z) : St StreamMem Z := stream_reader size.
Definition seeker (offset : Z) (whence : C2paSeekMode) : St StreamMem Z :=
  stream_seeker std_istream offset whence.
Definition writer (size : Z) : St StreamMem Z :=
  stream_error_return InvalidArgument.
Definition flusher : St StreamMem Z :=
  stream_error_return InvalidArgument.
End CppIStream.

Module CppOStream.
Definition reader (size : Z) : St StreamMem Z :=
  stream_error_return InvalidArgument.
Definition seeker (offset : Z) (whence : C2paSeekMode) : St StreamMem Z :=
  stream_seeker std_ostream offset whence.
Definition writer (size : Z) : StreamMem -> option (Z * StreamMem) :=
  stream_writer size.
Definition flusher : StreamMem -> option (Z * StreamMem) := stream_flusher.
End CppOStream.

Module CppIOStream.
Definition reader (size : Z) : St StreamMem Z := stream_reader size.
Definition seeker (offset : Z) (whence : C2paSeekMode) : St StreamMem Z :=
  stream_seeker std_iostream offset whence.
Definition writer (size : Z) : StreamMem -> option (Z * StreamMem) :=
  stream_writer size.
Definition flusher : StreamMem -> option (Z * StreamMem) := stream_flusher.
End CppIOStream.

(** ** Exceptions and the monad of the wrapper code *)

(** The exceptions by class.  A standard exception carries the text its
    constructor is given; [what()] of a [std::system_error] or
    [std::ios_base::failure] follows that text with the message of the
    error code, which is not kept here.  The [std::filesystem_error] the
    library raises carries the path it is about. *)
Inductive exception :=
  | C2paException (message : string)
  | std_system_error (what_arg : string)
  | std_runtime_error (what_arg : string)
  | std_filesystem_error (path1 : string)
  | std_ios_failure (what_arg : string)
  | other_std_exception (what_arg : string)
  | non_std_exception.

(** What [catch (std::exception const &)] catches. *)
Definition is_std_exception (e : exception) : bool :=
  match e with
  | non_std_exception => false
  | _ => true
  end.

Definition is_C2paException (e : exception) : bool :=
  match e with
  | C2paException _ => true
  | _ => false
  end.

(** State passing with exceptions; the state reached when the exception
    was thrown is kept. *)
Definition M (S A : Type) : Type := S -> (exception + A) * S.

Definition ret {S A} (a : A) : M S A := fun s => (inr a, s).

Definition bind {S A B} (c : M S A) (k : A -> M S B) : M S B :=
  fun s =>
    match c s with
    | (inr a, s') => k a s'
    | (inl e, s') => (inl e, s')
    end.

Definition throw {S A} (e : exception) : M S A := fun s => (inl e, s).

Definition try_catch {S A} (c : M S A) (handler : exception -> M S A) : M S A :=
  fun s =>
    match c s with
    | (inr a, s') => (inr a, s')
    | (inl e, s') => handler e s'
    end.

(** Scope exit: [cleanup] (a destructor, which does not throw) runs whether
    or not [c] threw. *)
Definition finally {S A} (c : M S A) (cleanup : M S unit) : M S A :=
  fun s =>
    let (r, s1) := c s in
    let (_, s2) := cleanup s1 in
    (r, s2).

Definition get {S} : M S S := fun s => (inr s, s).
Definition modify {S} (f : S -> S) : M S unit := fun s => (inr tt, f s).
Definition lift_st {S A} (c : St S A) : M S A :=
  fun s => let (a, s') := c s in (inr a, s').

Declare Scope m_scope.
Delimit Scope m_scope with m.
Notation "x <- c1 ;; c2" := (bind c1 (fun x => c2))
  (at level 100, c1 at next level, right associativity) : m_scope.
Notation "c1 ;;; c2" := (bind c1 (fun _ => c2))
  (at level 100, right associativity) : m_scope.

(** ** The signer trampoline (c2pa_signer.cpp) *)

(** [SignerFunc]: the user's callback returns a byte vector or throws. *)
Definition SignerFunc : Type := list Byte.byte -> exception + list Byte.byte.

(** What the trampoline can reach: errno, the input bytes at [data] and the
    output buffer at [signature] (of [sig_max_len] bytes). *)
Record SignerMem := SignerMemory {
  sg_errno : Z;
  sg_data : option (list Byte.byte);
  sg_signature : option (list Byte.byte)
}.

Definition sg_set_errno (e : Z) (m : SignerMem) : SignerMem :=
  SignerMemory e (sg_data m) (sg_signature m).
Definition sg_set_signature (b : list Byte.byte) (m : SignerMem) : SignerMem :=
  SignerMemory (sg_errno m) (sg_data m) (Some b).

#[export] Instance SignerMem_errno : HasErrno SignerMem :=
  {| get_errno := sg_errno; set_errno := sg_set_errno;
     get_set_errno := fun _ _ => eq_refl |}.

(** Conversion of a [uintptr_t] value to [intptr_t] (two's complement). *)
Definition to_intptr (z : Z) : Z := (z + 2 ^ 63) mod 2 ^ 64 - 2 ^ 63.

(** The largest [std::vector<uint8_t>] there can be. *)
Definition vector_max_size : Z := 2 ^ 63 - 1.

Section Trampoline.
Local Open Scope m_scope.

(** [signer_passthrough(context, data, len, signature, sig_max_len)];
    [context] is the user's callback. *)
Definition signer_passthrough (context : SignerFunc) (len sig_max_len : Z)
  : M SignerMem Z :=
  m <- get ;;
  match sg_data m, sg_signature m with
  | None, _ | _, None => lift_st (stream_error_return InvalidArgument)
  | Some data, Some signature =>
      try_catch
        (let callback := context in
         let data_vec := take (Z.to_nat len) data in
         signature_vec <- (fun s => (callback data_vec, s)) ;;
         let size := Z.of_nat (length signature_vec) in
         if sig_max_len <? size then
           lift_st (stream_error_return NoBufferSpace)
         else
           modify (sg_set_signature
                     (signature_vec ++ drop (length signature_vec) signature)) ;;;
           ret (to_intptr size))
        (fun e =>
           if is_std_exception e then ret (OperationResult_int Error)
           else ret (OperationResult_int Error))
  end.
End Trampoline.

(** ** The foreign layer *)

(** An opaque foreign pointer; 0 is [nullptr]. *)
Definition nullptr : N := 0%N.

(** The engine's answer to a call that can fail. *)
Inductive outcome := Ok | Fail (message : string).

(** A foreign call as seen from the wrapper: its name and the handles it
    was given. *)
Record call := Call { call_name : string; call_handles : list N }.

(** A path with what [std::filesystem] derives from it. *)
Record path := Path {
  path_string : string;
  parent_path : string;
  extension : string
}.

(** Modelled from the spec: the foreign engine and the environment, which
    the repository reaches through c2pa.h and the standard library only.
    Section 6 and the glossary give the contract: paired create and release
    operations per resource, a last-error accessor, calls that are either
    consuming (the input handle is invalid afterwards whatever the result,
    and a new handle or null comes back) or non-consuming (a status comes
    back).  The engine is a black box: its answers are read from [script]
    and the bytes it produces from [payload]; whether a file opens is read
    from [readable], [writable], [exists_] and [can_create_directories].
    [live] holds the handles issued and not yet given back, [calls] the
    foreign calls made, latest first, and [stale] each handle that was
    given back or consumed when it was not live: a second release. *)
Record World := MkWorld {
  live : gset N;
  next : positive;
  last_error : option string;
  script : list outcome;
  calls : list call;
  stale : list N;
  payload : list Byte.byte;
  readable : string -> bool;
  writable : string -> bool;
  exists_ : string -> bool;
  can_create_directories : string -> bool
}.

Definition set_live (l : gset N) (w : World) : World :=
  MkWorld l (next w) (last_error w) (script w) (calls w) (stale w) (payload w)
    (readable w) (writable w) (exists_ w) (can_create_directories w).
Definition set_next (n : positive) (w : World) : World :=
  MkWorld (live w) n (last_error w) (script w) (calls w) (stale w) (payload w)
    (readable w) (writable w) (exists_ w) (can_create_directories w).
Definition set_last_error (e : option string) (w : World) : World :=
  MkWorld (live w) (next w) e (script w) (calls w) (stale w) (payload w)
    (readable w) (writable w) (exists_ w) (can_create_directories w).
Definition set_script (l : list outcome) (w : World) : World :=
  MkWorld (live w) (next w) (last_error w) l (calls w) (stale w) (payload w)
    (readable w) (writable w) (exists_ w) (can_create_directories w).
Definition set_calls (l : list call) (w : World) : World :=
  MkWorld (live w) (next w) (last_error w) (script w) l (stale w) (payload w)
    (readable w) (writable w) (exists_ w) (can_create_directories w).
Definition set_stale (l : list N) (w : World) : World :=
  MkWorld (live w) (next w) (last_error w) (script w) (calls w) l (payload w)
    (readable w) (writable w) (exists_ w) (can_create_directories w).
Definition add_directory (d : string) (w : World) : World :=
  MkWorld (live w) (next w) (last_error w) (script w) (calls w) (stale w) (payload w)
    (readable w) (writable w)
    (fun p => if String.eqb p d then true else exists_ w p)
    (can_create_directories w).

Section Foreign.
Local Open Scope m_scope.

Definition log_call (name : string) (handles : list N) : M World unit :=
  modify (fun w => set_calls (Call name handles :: calls w) w).

(** The engine's next answer; it succeeds once the script is used up. *)
Definition answer : M World outcome :=
  w <- get ;;
  match script w with
  | [] => ret Ok
  | o :: rest => modify (set_script rest) ;;; ret o
  end.

(** A handle leaves the caller's hands; it is stale when it was not
    live. *)
Definition give_back (h : N) : M World unit :=
  modify (fun w =>
            set_live (live w ∖ {[h]})
              (set_stale (if bool_decide (h ∈ live w) then stale w
                          else h :: stale w) w)).

Definition fresh : M World N :=
  w <- get ;;
  let h := Npos (next w) in
  modify (fun w => set_next (Pos.succ (next w)) (set_live ({[h]} ∪ live w) w)) ;;;
  ret h.

(** Modelled from the spec: a factory call yields a new handle, or null
    with the error recorded. *)
Definition factory (name : string) (handles : list N) : M World N :=
  log_call name handles ;;;
  o <- answer ;;
  match o with
  | Ok => fresh
  | Fail msg => modify (set_last_error (Some msg)) ;;; ret nullptr
  end.

(** Modelled from the spec: a consuming call takes [h] whatever the
    result, and yields a new handle or null. *)
Definition consuming (name : string) (h : N) (others : list N) : M World N :=
  log_call name (h :: others) ;;;
  give_back h ;;;
  o <- answer ;;
  match o with
  | Ok => fresh
  | Fail msg => modify (set_last_error (Some msg)) ;;; ret nullptr
  end.

(** Modelled from the spec: a non-consuming call yields 0, or a negative
    status with the error recorded. *)
Definition status (name : string) (handles : list N) : M World Z :=
  log_call name handles ;;;
  o <- answer ;;
  match o with
  | Ok => ret 0
  | Fail msg => modify (set_last_error (Some msg)) ;;; ret (-1)
  end.

(** Modelled from the spec: [c2pa_free] and [c2pa_release_stream] take the
    handle back; null is accepted ([to_byte_vector] and the destructors
    rely on it). *)
Definition c2pa_free (p : N) : M World unit :=
  log_call "c2pa_free" [p] ;;;
  if (p =? nullptr)%N then ret tt else give_back p.

Definition c2pa_release_stream (p : N) : M World unit :=
  log_call "c2pa_release_stream" [p] ;;;
  if (p =? nullptr)%N then ret tt else give_back p.

(** Modelled from the spec: [c2pa_error] yields the message of the last
    failure (a fresh string, null when there is none). *)
Definition c2pa_error : M World (option string) :=
  log_call "c2pa_error" [] ;;;
  w <- get ;;
  ret (last_error w).

Definition c2pa_settings_new := factory "c2pa_settings_new" [].
Definition c2pa_settings_update_from_string (s : N) (data format : string) :=
  status "c2pa_settings_update_from_string" [s].
Definition c2pa_settings_set_value (s : N) (path value : string) :=
  status "c2pa_settings_set_value" [s].
Definition c2pa_context_new := factory "c2pa_context_new" [].
Definition c2pa_context_builder_new := factory "c2pa_context_builder_new" [].
Definition c2pa_context_builder_set_settings (b s : N) :=
  status "c2pa_context_builder_set_settings" [b; s].
Definition c2pa_context_builder_build (b : N) :=
  consuming "c2pa_context_builder_build" b [].
Definition c2pa_create_stream := factory "c2pa_create_stream" [].
Definition c2pa_builder_from_context (c : N) :=
  factory "c2pa_builder_from_context" [c].
Definition c2pa_builder_with_definition (b : N) (json : string) :=
  consuming "c2pa_builder_with_definition" b [].
Definition c2pa_builder_with_archive (b stream : N) :=
  consuming "c2pa_builder_with_archive" b [stream].
Definition c2pa_builder_set_no_embed (b : N) :=
  log_call "c2pa_builder_set_no_embed" [b].
Definition c2pa_builder_set_remote_url (b : N) (url : string) :=
  status "c2pa_builder_set_remote_url" [b].
Definition c2pa_reader_from_context (c : N) :=
  factory "c2pa_reader_from_context" [c].
Definition c2pa_reader_with_stream (r : N) (format : string) (stream : N) :=
  consuming "c2pa_reader_with_stream" r [stream].
Definition c2pa_signer_create (alg : string) (certs tsa : string) :=
  factory "c2pa_signer_create" [].
Definition c2pa_signer_from_info (alg certs key : string) (tsa : option string) :=
  factory "c2pa_signer_from_info" [].

(** [c2pa_builder_sign]: the length of the manifest and the bytes left at
    [manifest_bytes_ptr], or a negative length and null. *)
Definition c2pa_builder_sign (b : N) (format : string) (source dest signer : N)
  : M World (Z * option (list Byte.byte)) :=
  log_call "c2pa_builder_sign" [b; source; dest; signer] ;;;
  o <- answer ;;
  match o with
  | Ok => w <- get ;; ret (Z.of_nat (length (payload w)), Some (payload w))
  | Fail msg => modify (set_last_error (Some msg)) ;;; ret (-1, None)
  end.

(** ** The exception bridge (c2pa_core.cpp) *)

(** [C2paException::C2paException()]: the message of the last foreign
    error, the retrieved string released. *)
Definition C2paException_last : M World exception :=
  result <- c2pa_error ;;
  let message_ := match result with Some s => s | None => "" end in
  log_call "c2pa_free" [] ;;;
  ret (C2paException message_).

Definition throw_last {A} : M World A :=
  e <- C2paException_last ;; throw e.
End Foreign.

(** ** More of the foreign interface *)

Section ForeignResults.
Local Open Scope m_scope.

(** Modelled from the spec: a call that produces bytes returns their
    number and leaves them at the pointer it was given, or returns a
    negative number and leaves null. *)
Definition produce (name : string) (handles : list N)
  : M World (Z * option (list Byte.byte)) :=
  log_call name handles ;;;
  o <- answer ;;
  match o with
  | Ok => w <- get ;; ret (Z.of_nat (length (payload w)), Some (payload w))
  | Fail msg => modify (set_last_error (Some msg)) ;;; ret (-1, None)
  end.

(** Modelled from the spec: a call that produces text returns a fresh C
    string (represented by the string it holds), or null. *)
Definition c_string (name : string) (handles : list N) : M World (option string) :=
  log_call name handles ;;;
  o <- answer ;;
  match o with
  | Ok => w <- get ;; ret (Some (String.string_of_list_byte (payload w)))
  | Fail msg => modify (set_last_error (Some msg)) ;;; ret None
  end.

(** Modelled from the spec: a call that writes to a stream returns the
    number of bytes written, or a negative number. *)
Definition written (name : string) (handles : list N) : M World Z :=
  log_call name handles ;;;
  o <- answer ;;
  match o with
  | Ok => w <- get ;; ret (Z.of_nat (length (payload w)))
  | Fail msg => modify (set_last_error (Some msg)) ;;; ret (-1)
  end.

Definition c2pa_version := c_string "c2pa_version" [].
Definition c2pa_load_settings (data format : string) :=
  status "c2pa_load_settings" [].
Definition c2pa_read_file (source_path : string) (data_dir : option string) :=
  c_string "c2pa_read_file" [].
Definition c2pa_read_ingredient_file (source_path data_dir : string) :=
  c_string "c2pa_read_ingredient_file" [].
Definition c2pa_sign_file (source_path dest_path manifest : string)
    (signer_info : N) (data_dir : string) :=
  c_string "c2pa_sign_file" [].
Definition c2pa_reader_from_stream (format : string) (stream : N) :=
  factory "c2pa_reader_from_stream" [stream].
Definition c2pa_reader_json (r : N) := c_string "c2pa_reader_json" [r].
Definition c2pa_reader_remote_url (r : N) := c_string "c2pa_reader_remote_url" [r].
Definition c2pa_reader_resource_to_stream (r : N) (uri : string) (stream : N) :=
  written "c2pa_reader_resource_to_stream" [r; stream].
Definition c2pa_builder_from_json (manifest_json : string) :=
  factory "c2pa_builder_from_json" [].
Definition c2pa_builder_from_archive (stream : N) :=
  factory "c2pa_builder_from_archive" [stream].
Definition c2pa_builder_set_base_path (b : N) (base_path : string) :=
  status "c2pa_builder_set_base_path" [b].
Definition c2pa_builder_add_resource (b : N) (uri : string) (stream : N) :=
  status "c2pa_builder_add_resource" [b; stream].
Definition c2pa_builder_add_ingredient_from_stream (b : N)
    (ingredient_json format : string) (stream : N) :=
  status "c2pa_builder_add_ingredient_from_stream" [b; stream].
Definition c2pa_builder_add_action (b : N) (action_json : string) :=
  status "c2pa_builder_add_action" [b].
Definition c2pa_builder_to_archive (b stream : N) :=
  status "c2pa_builder_to_archive" [b; stream].
Definition c2pa_builder_data_hashed_placeholder (b : N) (reserve_size : Z)
    (format : string) :=
  produce "c2pa_builder_data_hashed_placeholder" [b].
Definition c2pa_builder_sign_data_hashed_embeddable (b signer : N)
    (data_hash format : string) (asset : N) :=
  produce "c2pa_builder_sign_data_hashed_embeddable" [b; signer; asset].
Definition c2pa_format_embeddable (format : string) (data : list Byte.byte) :=
  produce "c2pa_format_embeddable" [].
End ForeignResults.

(** ** Objects and their methods *)

(** A method runs on the world and on [*this]. *)
Definition in_world {O A} (c : M World A) : M (World * O) A :=
  fun s =>
    let (r, w') := c (fst s) in (r, (w', snd s)).

Definition this {O} : M (World * O) O := fun s => (inr (snd s), s).

Definition set_this {O} (o : O) : M (World * O) unit :=
  fun s => (inr tt, (fst s, o)).

(** A constructor with a body: it runs on the object under construction;
    when it throws, the members already built are destroyed ([unwind]) and
    the destructor of the class does not run. *)
Definition construct {O} (init : O) (body : M (World * O) unit)
    (unwind : M (World * O) unit) : M World O :=
  fun w =>
    match body (w, init) with
    | (inr _, (w', o)) => (inr o, w')
    | (inl e, s') => (inl e, fst (snd (unwind s')))
    end.

(** A local object: built, used by [body], destroyed at scope exit. *)
Definition scoped {L O A} (ctor : M World L) (dtor : L -> M World unit)
    (body : L -> M (World * O) A) : M (World * O) A :=
  bind (in_world ctor) (fun l => finally (body l) (in_world (dtor l))).

(** [IContextProvider]: the interface Reader and Builder depend on. *)
Class IContextProvider (T : Type) := {
  c_context : T -> N;
  is_valid : T -> bool
}.

(** [detail::open_file_binary<std::ifstream>] and [<std::ofstream>] *)
Definition open_file_binary_ifstream (p : path) : M World unit :=
  bind get (fun w =>
    if readable w (path_string p) then ret tt
    else throw (C2paException ("Failed to open file: " ++ path_string p))).

Definition open_file_binary_ofstream (p : path) : M World unit :=
  bind get (fun w =>
    if writable w (path_string p) then ret tt
    else throw (C2paException ("Failed to open file: " ++ path_string p))).

(** [detail::extract_file_extension] *)
Definition extract_file_extension (p : path) : string :=
  match extension p with
  | EmptyString => ""
  | String _ rest => rest
  end.

(** [detail::path_to_string]: the path as UTF-8 text. *)
Definition path_to_string (source_path : path) : string := path_string source_path.

(** [detail::c_string_to_string]; releasing a string is a [c2pa_free] that
    involves no handle. *)
Definition c_string_to_string (c_result : option string) : M World string :=
  match c_result with
  | None => throw_last
  | Some str => bind (log_call "c2pa_free" []) (fun _ => ret str)
  end.

(** [detail::to_byte_vector] *)
Definition to_byte_vector (data : option (list Byte.byte)) (size : Z)
  : M World (list Byte.byte) :=
  match data with
  | Some bytes =>
      if size <? 0 then bind (log_call "c2pa_free" []) (fun _ => throw_last)
      else bind (log_call "c2pa_free" []) (fun _ => ret (take (Z.to_nat size) bytes))
  | None => bind (log_call "c2pa_free" []) (fun _ => throw_last)
  end.

Module Settings.
Local Open Scope m_scope.

Record t := Make { settings_ptr : N }.

(** [Settings::Settings()] *)
Definition new : M World t :=
  p <- c2pa_settings_new ;;
  if (p =? nullptr)%N then throw (C2paException "Failed to create Settings")
  else ret (Make p).

(** [Settings::Settings(data, format)] *)
Definition from_string (data format : string) : M World t :=
  p <- c2pa_settings_new ;;
  if (p =? nullptr)%N then throw (C2paException "Failed to create Settings")
  else
    r <- c2pa_settings_update_from_string p data format ;;
    if negb (r =? 0) then c2pa_free p ;;; throw_last
    else ret (Make p).

(** [Settings::Settings(Settings&&)]: the new object and what is left of
    [other]. *)
Definition move (other : t) : t * t :=
  (Make (settings_ptr other), Make nullptr).

(** [Settings::operator=(Settings&&)], on distinct objects: [*this] and
    [other] are the state. *)
Definition move_assign : M (World * (t * t)) unit :=
  objects <- this ;;
  let self := fst objects in
  let other := snd objects in
  in_world (c2pa_free (settings_ptr self)) ;;;
  set_this (Make (settings_ptr other), Make nullptr).

(** [Settings::~Settings()] *)
Definition destroy : M (World * t) unit :=
  self <- this ;; in_world (c2pa_free (settings_ptr self)).

Definition is_valid (self : t) : bool := negb (settings_ptr self =? nullptr)%N.

(** [Settings::set(path, json_value)] *)
Definition set (path json_value : string) : M (World * t) unit :=
  self <- this ;;
  if (settings_ptr self =? nullptr)%N then
    throw (C2paException "Settings object is invalid")
  else
    r <- in_world (c2pa_settings_set_value (settings_ptr self) path json_value) ;;
    if negb (r =? 0) then in_world throw_last else ret tt.

(** [Settings::update(data, format)] *)
Definition update (data format : string) : M (World * t) unit :=
  self <- this ;;
  if (settings_ptr self =? nullptr)%N then
    throw (C2paException "Settings object is invalid")
  else
    r <- in_world (c2pa_settings_update_from_string (settings_ptr self) data format) ;;
    if negb (r =? 0) then in_world throw_last else ret tt.

Definition c_settings (self : t) : N := settings_ptr self.
End Settings.

Module Context.
Local Open Scope m_scope.

Record t := Make { context : N }.

(** [Context::Context(C2paContext* ctx)] *)
Definition from_ptr (ctx : N) : M World t :=
  if (ctx =? nullptr)%N then throw (C2paException "Invalid context pointer")
  else ret (Make ctx).

(** [Context::Context()] *)
Definition new : M World t :=
  p <- c2pa_context_new ;;
  if (p =? nullptr)%N then throw (C2paException "Failed to create Context")
  else ret (Make p).

(** [Context::Context(const Settings&)] *)
Definition from_settings (settings : Settings.t) : M World t :=
  if negb (Settings.is_valid settings) then
    throw (C2paException "Settings object is invalid")
  else
    builder <- c2pa_context_builder_new ;;
    if (builder =? nullptr)%N then
      throw (C2paException "Failed to create Context builder")
    else
      r <- c2pa_context_builder_set_settings builder (Settings.c_settings settings) ;;
      if negb (r =? 0) then c2pa_free builder ;;; throw_last
      else
        context <- c2pa_context_builder_build builder ;;
        if (context =? nullptr)%N then
          throw (C2paException "Failed to build context")
        else ret (Make context).

(** [Context::Context(const std::string& json)]: delegates to the
    constructor from a temporary [Settings], destroyed afterwards. *)
Definition from_json (json : string) : M World t :=
  settings <- Settings.from_string json "json" ;;
  finally (from_settings settings) (c2pa_free (Settings.settings_ptr settings)).

(** [Context::Context(Context&&)] *)
Definition move (other : t) : t * t := (Make (context other), Make nullptr).

(** [Context::operator=(Context&&)], on distinct objects *)
Definition move_assign : M (World * (t * t)) unit :=
  objects <- this ;;
  let self := fst objects in
  let other := snd objects in
  (if negb (context self =? nullptr)%N then in_world (c2pa_free (context self))
   else ret tt) ;;;
  set_this (Make (context other), Make nullptr).

(** [Context::~Context()] *)
Definition destroy : M (World * t) unit :=
  self <- this ;;
  if negb (context self =? nullptr)%N then in_world (c2pa_free (context self))
  else ret tt.

#[global] Instance provider : IContextProvider t :=
  {| c_context := context;
     is_valid := fun self => negb (context self =? nullptr)%N |}.
End Context.

Module ContextBuilder.
Local Open Scope m_scope.

Record t := Make { context_builder : N }.

(** [ContextBuilder::ContextBuilder()] *)
Definition new : M World t :=
  p <- c2pa_context_builder_new ;;
  if (p =? nullptr)%N then
    throw (C2paException "Failed to create Context builder")
  else ret (Make p).

Definition move (other : t) : t * t :=
  (Make (context_builder other), Make nullptr).

Definition move_assign : M (World * (t * t)) unit :=
  objects <- this ;;
  let self := fst objects in
  let other := snd objects in
  (if negb (context_builder self =? nullptr)%N then
     in_world (c2pa_free (context_builder self))
   else ret tt) ;;;
  set_this (Make (context_builder other), Make nullptr).

Definition destroy : M (World * t) unit :=
  self <- this ;;
  if negb (context_builder self =? nullptr)%N then
    in_world (c2pa_free (context_builder self))
  else ret tt.

Definition is_valid (self : t) : bool :=
  negb (context_builder self =? nullptr)%N.

(** [ContextBuilder::with_settings(settings)] *)
Definition with_settings (settings : Settings.t) : M (World * t) unit :=
  self <- this ;;
  if negb (is_valid self) then
    throw (C2paException "ContextBuilder is invalid (moved from)")
  else if negb (Settings.is_valid settings) then
    throw (C2paException "Settings object is invalid")
  else
    r <- in_world (c2pa_context_builder_set_settings
                     (context_builder self) (Settings.c_settings settings)) ;;
    if negb (r =? 0) then in_world throw_last else ret tt.

(** [ContextBuilder::with_json(json)]: through a temporary [Settings] *)
Definition with_json (json : string) : M (World * t) unit :=
  self <- this ;;
  if negb (is_valid self) then
    throw (C2paException "ContextBuilder is invalid (moved from)")
  else
    settings <- in_world (Settings.from_string json "json") ;;
    finally (with_settings settings)
            (in_world (c2pa_free (Settings.settings_ptr settings))).

(** [ContextBuilder::with_json_settings_file(settings_path)]; [content]
    is what reading the opened file to its end through
    [std::istreambuf_iterator] yields: the text of the file, or [None] when
    the stream buffer cannot read it (the path names a directory, the
    device fails), on which the buffer raises [std::ios_base::failure],
    which nothing here catches. *)
Definition with_json_settings_file (settings_path : path)
    (content : option string) : M (World * t) unit :=
  self <- this ;;
  if negb (is_valid self) then
    throw (C2paException "ContextBuilder is invalid (moved from)")
  else
    in_world (open_file_binary_ifstream settings_path) ;;;
    match content with
    | Some json_content => with_json json_content
    | None =>
        throw (std_ios_failure "basic_filebuf::underflow error reading the file")
    end.

(** [ContextBuilder::create_context()] *)
Definition create_context : M (World * t) Context.t :=
  self <- this ;;
  if negb (is_valid self) then
    throw (C2paException "ContextBuilder is invalid (moved from)")
  else
    ctx <- in_world (c2pa_context_builder_build (context_builder self)) ;;
    if (ctx =? nullptr)%N then
      throw (C2paException "Failed to build context")
    else
      set_this (Make nullptr) ;;;
      in_world (Context.from_ptr ctx).
End ContextBuilder.

(** The adapters as objects: each owns the foreign stream handle
    [c_stream]; the caller's stream is passed by address. *)
Module CppStream.
Local Open Scope m_scope.

Record t := Make { c_stream : N }.

(** [CppIStream::CppIStream(istream)] *)
Definition new_istream (istream : N) : M World t :=
  c <- c2pa_create_stream ;;
  if (c =? nullptr)%N then
    throw (C2paException
             "Failed to create input stream wrapper: is stream open and valid?")
  else ret (Make c).

(** [CppOStream::CppOStream(ostream)] *)
Definition new_ostream (ostream : N) : M World t :=
  c <- c2pa_create_stream ;;
  if (c =? nullptr)%N then
    throw (C2paException
             "Failed to create output stream wrapper: is stream open and valid?")
  else ret (Make c).

(** [CppIOStream::CppIOStream(iostream)] *)
Definition new_iostream (iostream : N) : M World t :=
  c <- c2pa_create_stream ;;
  if (c =? nullptr)%N then
    throw (C2paException
             "Failed to create I/O stream wrapper: is stream open and valid?")
  else ret (Make c).

(** The three destructors *)
Definition destroy (self : t) : M World unit :=
  c2pa_release_stream (c_stream self).
End CppStream.

Module Signer.
Local Open Scope m_scope.

Record t := Make { signer : N }.

(** [Signer::Signer(callback, alg, sign_cert, tsa_uri)] *)
Definition from_callback (callback : SignerFunc) (alg sign_cert tsa_uri : string)
  : M World t :=
  s <- c2pa_signer_create alg sign_cert tsa_uri ;;
  ret (Make s).

(** [Signer::Signer(alg, sign_cert, private_key, tsa_uri)] *)
Definition from_info (alg sign_cert private_key : string)
    (tsa_uri : option string) : M World t :=
  s <- c2pa_signer_from_info alg sign_cert private_key tsa_uri ;;
  ret (Make s).

Definition move (other : t) : t * t := (Make (signer other), Make nullptr).

Definition move_assign : M (World * (t * t)) unit :=
  objects <- this ;;
  let self := fst objects in
  let other := snd objects in
  in_world (c2pa_free (signer self)) ;;;
  set_this (Make (signer other), Make nullptr).

Definition destroy : M (World * t) unit :=
  self <- this ;; in_world (c2pa_free (signer self)).

Definition c2pa_signer (self : t) : N := signer self.
End Signer.

Module Reader.
Local Open Scope m_scope.

(** [owned_stream] holds the path of the file the reader opened. *)
Record t := Make {
  c2pa_reader : N;
  owned_stream : option string;
  cpp_stream : option CppStream.t
}.

Definition init : t := Make nullptr None None.

Definition set_c2pa_reader (r : N) : M (World * t) unit :=
  self <- this ;; set_this (Make r (owned_stream self) (cpp_stream self)).
Definition set_owned_stream (p : string) : M (World * t) unit :=
  self <- this ;; set_this (Make (c2pa_reader self) (Some p) (cpp_stream self)).
Definition set_cpp_stream (c : CppStream.t) : M (World * t) unit :=
  self <- this ;; set_this (Make (c2pa_reader self) (owned_stream self) (Some c)).

(** The members' destructors: [cpp_stream] before [owned_stream]. *)
Definition destroy_members : M (World * t) unit :=
  self <- this ;;
  match cpp_stream self with
  | Some c => in_world (CppStream.destroy c)
  | None => ret tt
  end.

(** [Reader::~Reader()] *)
Definition destroy : M (World * t) unit :=
  self <- this ;;
  in_world (c2pa_free (c2pa_reader self)) ;;;
  destroy_members.

(** The attach step shared by the two constructors with a context. *)
Definition attach (format : string) (c : CppStream.t) : M (World * t) unit :=
  self <- this ;;
  updated <- in_world (c2pa_reader_with_stream (c2pa_reader self) format
                         (CppStream.c_stream c)) ;;
  set_c2pa_reader nullptr ;;;
  if (updated =? nullptr)%N then in_world throw_last
  else set_c2pa_reader updated.

(** [Reader::Reader(context, format, stream)] *)
Definition ctor_stream {C} `{IContextProvider C} (context : C)
    (format : string) (stream : N) : M (World * t) unit :=
  if negb (is_valid context) then
    throw (C2paException "Invalid Context provider IContextProvider")
  else
    r <- in_world (c2pa_reader_from_context (c_context context)) ;;
    set_c2pa_reader r ;;;
    if (r =? nullptr)%N then
      throw (C2paException "Failed to create reader from context")
    else
      c <- in_world (CppStream.new_istream stream) ;;
      set_cpp_stream c ;;;
      attach format c.

Definition from_stream {C} `{IContextProvider C} (context : C)
    (format : string) (stream : N) : M World t :=
  construct init (ctor_stream context format stream) destroy_members.

(** [Reader::Reader(context, source_path)]; the owned file stream is at
    address [stream]. *)
Definition ctor_path {C} `{IContextProvider C} (context : C)
    (source_path : path) (stream : N) : M (World * t) unit :=
  if negb (is_valid context) then
    throw (C2paException "Invalid Context provider IContextProvider")
  else
    r <- in_world (c2pa_reader_from_context (c_context context)) ;;
    set_c2pa_reader r ;;;
    if (r =? nullptr)%N then
      throw (C2paException "Failed to create reader from context")
    else
      w <- in_world get ;;
      set_owned_stream (path_string source_path) ;;;
      if negb (readable w (path_string source_path)) then
        in_world (c2pa_free r) ;;;
        throw (std_system_error
                 ("Failed to open file: " ++ path_string source_path))
      else
        let extension := extract_file_extension source_path in
        c <- in_world (CppStream.new_istream stream) ;;
        set_cpp_stream c ;;;
        attach extension c.

Definition from_path {C} `{IContextProvider C} (context : C)
    (source_path : path) (stream : N) : M World t :=
  construct init (ctor_path context source_path stream) destroy_members.

(** [Reader::Reader(Reader&&)] *)
Definition move (other : t) : t * t :=
  (Make (c2pa_reader other) (owned_stream other) (cpp_stream other),
   Make nullptr None None).

(** [Reader::operator=(Reader&&)], on distinct objects; the stream
    members [*this] held are destroyed as they are replaced. *)
Definition move_assign : M (World * (t * t)) unit :=
  objects <- this ;;
  let self := fst objects in
  let other := snd objects in
  (if negb (c2pa_reader self =? nullptr)%N then
     in_world (c2pa_free (c2pa_reader self))
   else ret tt) ;;;
  match cpp_stream self with
  | Some c => in_world (CppStream.destroy c)
  | None => ret tt
  end ;;;
  set_this (Make (c2pa_reader other) (owned_stream other) (cpp_stream other),
            Make nullptr None None).

(** [Reader::Reader(format, stream)] (deprecated: no context) *)
Definition ctor_stream_global (format : string) (stream : N)
  : M (World * t) unit :=
  c <- in_world (CppStream.new_istream stream) ;;
  set_cpp_stream c ;;;
  r <- in_world (c2pa_reader_from_stream format (CppStream.c_stream c)) ;;
  set_c2pa_reader r ;;;
  if (r =? nullptr)%N then in_world throw_last else ret tt.

Definition from_stream_global (format : string) (stream : N) : M World t :=
  construct init (ctor_stream_global format stream) destroy_members.

(** [Reader::Reader(source_path)] (deprecated: no context); the owned file
    stream is at address [stream]. *)
Definition ctor_path_global (source_path : path) (stream : N)
  : M (World * t) unit :=
  w <- in_world get ;;
  set_owned_stream (path_string source_path) ;;;
  if negb (readable w (path_string source_path)) then
    throw (std_system_error
             ("Failed to open file: " ++ path_string source_path))
  else
    let extension := extract_file_extension source_path in
    c <- in_world (CppStream.new_istream stream) ;;
    set_cpp_stream c ;;;
    r <- in_world (c2pa_reader_from_stream extension (CppStream.c_stream c)) ;;
    set_c2pa_reader r ;;;
    if (r =? nullptr)%N then in_world throw_last else ret tt.

Definition from_path_global (source_path : path) (stream : N) : M World t :=
  construct init (ctor_path_global source_path stream) destroy_members.

(** [Reader::json()] *)
Definition json : M (World * t) string :=
  self <- this ;;
  c_result <- in_world (c2pa_reader_json (c2pa_reader self)) ;;
  in_world (c_string_to_string c_result).

(** [Reader::remote_url()] *)
Definition remote_url : M (World * t) (option string) :=
  self <- this ;;
  url <- in_world (c2pa_reader_remote_url (c2pa_reader self)) ;;
  match url with
  | None => ret None
  | Some url_str => in_world (log_call "c2pa_free" []) ;;; ret (Some url_str)
  end.

(** [Reader::get_resource(uri, stream)] *)
Definition get_resource_stream (uri : string) (stream : N) : M (World * t) Z :=
  scoped (CppStream.new_ostream stream) CppStream.destroy
    (fun output_stream =>
       self <- this ;;
       result <- in_world (c2pa_reader_resource_to_stream (c2pa_reader self) uri
                             (CppStream.c_stream output_stream)) ;;
       if result <? 0 then in_world throw_last else ret result).

(** [Reader::get_resource(uri, path)]; the file stream is at address
    [stream]. *)
Definition get_resource_path (uri : string) (p : path) (stream : N)
  : M (World * t) Z :=
  in_world (open_file_binary_ofstream p) ;;;
  get_resource_stream uri stream.
End Reader.

Module Builder.
Local Open Scope m_scope.

Record t := Make { builder : N }.

Definition init : t := Make nullptr.

(** [Builder::Builder(context)] *)
Definition ctor_context {C} `{IContextProvider C} (context : C)
  : M (World * t) unit :=
  if negb (is_valid context) then
    throw (C2paException "Invalid Context provider IContextProvider")
  else
    b <- in_world (c2pa_builder_from_context (c_context context)) ;;
    set_this (Make b) ;;;
    if (b =? nullptr)%N then
      throw (C2paException "Failed to create builder from context")
    else ret tt.

Definition from_context {C} `{IContextProvider C} (context : C) : M World t :=
  construct init (ctor_context context) (ret tt).

(** [Builder::Builder(context, manifest_json)] *)
Definition ctor_definition {C} `{IContextProvider C} (context : C)
    (manifest_json : string) : M (World * t) unit :=
  if negb (is_valid context) then
    throw (C2paException "Invalid Context provider IContextProvider")
  else
    b <- in_world (c2pa_builder_from_context (c_context context)) ;;
    set_this (Make b) ;;;
    if (b =? nullptr)%N then
      throw (C2paException "Failed to create builder from context")
    else
      updated <- in_world (c2pa_builder_with_definition b manifest_json) ;;
      set_this (Make nullptr) ;;;
      if (updated =? nullptr)%N then in_world throw_last
      else set_this (Make updated).

Definition from_definition {C} `{IContextProvider C} (context : C)
    (manifest_json : string) : M World t :=
  construct init (ctor_definition context manifest_json) (ret tt).

(** [Builder::Builder(Builder&&)] *)
Definition move (other : t) : t * t := (Make (builder other), Make nullptr).

(** [Builder::operator=(Builder&&)], on distinct objects *)
Definition move_assign : M (World * (t * t)) unit :=
  objects <- this ;;
  let self := fst objects in
  let other := snd objects in
  (if negb (builder self =? nullptr)%N then in_world (c2pa_free (builder self))
   else ret tt) ;;;
  set_this (Make (builder other), Make nullptr).

(** [Builder::~Builder()] *)
Definition destroy : M (World * t) unit :=
  self <- this ;; in_world (c2pa_free (builder self)).

(** [Builder::set_no_embed()] *)
Definition set_no_embed : M (World * t) unit :=
  self <- this ;; in_world (c2pa_builder_set_no_embed (builder self)).

(** [Builder::set_remote_url(remote_url)] *)
Definition set_remote_url (remote_url : string) : M (World * t) unit :=
  self <- this ;;
  result <- in_world (c2pa_builder_set_remote_url (builder self) remote_url) ;;
  if result <? 0 then in_world throw_last else ret tt.

(** [Builder::with_definition(manifest_json)] *)
Definition with_definition (manifest_json : string) : M (World * t) unit :=
  self <- this ;;
  updated <- in_world (c2pa_builder_with_definition (builder self) manifest_json) ;;
  set_this (Make nullptr) ;;;
  if (updated =? nullptr)%N then
    throw (C2paException "Failed to set builder definition")
  else set_this (Make updated).

(** [Builder::with_archive(archive)] *)
Definition with_archive (archive : N) : M (World * t) unit :=
  scoped (CppStream.new_istream archive) CppStream.destroy
    (fun c_archive =>
       self <- this ;;
       updated <- in_world (c2pa_builder_with_archive (builder self)
                              (CppStream.c_stream c_archive)) ;;
       set_this (Make nullptr) ;;;
       if (updated =? nullptr)%N then in_world throw_last
       else set_this (Make updated)).

(** [Builder::sign(format, source, dest, signer)], [dest] an
    [std::iostream] *)
Definition sign_iostream (format : string) (source dest : N) (signer : Signer.t)
  : M (World * t) (list Byte.byte) :=
  scoped (CppStream.new_istream source) CppStream.destroy
    (fun c_source =>
       scoped (CppStream.new_iostream dest) CppStream.destroy
         (fun c_dest =>
            self <- this ;;
            r <- in_world (c2pa_builder_sign (builder self) format
                             (CppStream.c_stream c_source)
                             (CppStream.c_stream c_dest)
                             (Signer.c2pa_signer signer)) ;;
            in_world (to_byte_vector (snd r) (fst r)))).

(** [Builder::sign(source_path, dest_path, signer)]; the two file
    streams are at addresses [source] and [dest]. *)
Definition sign_path (source_path dest_path : path) (source dest : N)
    (signer : Signer.t) : M (World * t) (list Byte.byte) :=
  in_world (open_file_binary_ifstream source_path) ;;;
  let dest_dir := parent_path dest_path in
  w <- in_world get ;;
  (if negb (exists_ w dest_dir) then
     if can_create_directories w dest_dir then
       in_world (modify (add_directory dest_dir))
     else throw (std_filesystem_error dest_dir)
   else ret tt) ;;;
  w <- in_world get ;;
  if negb (writable w (path_string dest_path)) then
    throw (std_runtime_error
             ("Failed to open destination file: " ++ path_string dest_path))
  else
    let format := extract_file_extension dest_path in
    sign_iostream format source dest signer.

(** [Builder::Builder(manifest_json)] (deprecated: no context) *)
Definition ctor_json (manifest_json : string) : M (World * t) unit :=
  b <- in_world (c2pa_builder_from_json manifest_json) ;;
  set_this (Make b) ;;;
  if (b =? nullptr)%N then in_world throw_last else ret tt.

Definition from_json (manifest_json : string) : M World t :=
  construct init (ctor_json manifest_json) (ret tt).

(** [Builder::Builder(archive)] (private) *)
Definition ctor_archive (archive : N) : M (World * t) unit :=
  scoped (CppStream.new_istream archive) CppStream.destroy
    (fun c_archive =>
       b <- in_world (c2pa_builder_from_archive (CppStream.c_stream c_archive)) ;;
       set_this (Make b) ;;;
       if (b =? nullptr)%N then in_world throw_last else ret tt).

(** [Builder::from_archive(archive)] *)
Definition from_archive_stream (archive : N) : M World t :=
  construct init (ctor_archive archive) (ret tt).

(** [Builder::from_archive(archive_path)]; the file stream is at address
    [stream]. *)
Definition from_archive_path (archive_path : path) (stream : N) : M World t :=
  bind (open_file_binary_ifstream archive_path)
       (fun _ => from_archive_stream stream).

(** [Builder::set_base_path(base_path)] *)
Definition set_base_path (base_path : string) : M (World * t) unit :=
  self <- this ;;
  result <- in_world (c2pa_builder_set_base_path (builder self) base_path) ;;
  if result <? 0 then in_world throw_last else ret tt.

(** [Builder::add_resource(uri, source)], [source] a stream *)
Definition add_resource_stream (uri : string) (source : N) : M (World * t) unit :=
  scoped (CppStream.new_istream source) CppStream.destroy
    (fun c_source =>
       self <- this ;;
       result <- in_world (c2pa_builder_add_resource (builder self) uri
                             (CppStream.c_stream c_source)) ;;
       if result <? 0 then in_world throw_last else ret tt).

(** [Builder::add_resource(uri, source_path)]; the file stream is at
    address [stream]. *)
Definition add_resource_path (uri : string) (source_path : path) (stream : N)
  : M (World * t) unit :=
  in_world (open_file_binary_ifstream source_path) ;;;
  add_resource_stream uri stream.

(** [Builder::add_ingredient(ingredient_json, format, source)] *)
Definition add_ingredient_stream (ingredient_json format : string) (source : N)
  : M (World * t) unit :=
  scoped (CppStream.new_istream source) CppStream.destroy
    (fun c_source =>
       self <- this ;;
       result <- in_world (c2pa_builder_add_ingredient_from_stream (builder self)
                             ingredient_json format
                             (CppStream.c_stream c_source)) ;;
       if result <? 0 then in_world throw_last else ret tt).

(** [Builder::add_ingredient(ingredient_json, source_path)] *)
Definition add_ingredient_path (ingredient_json : string) (source_path : path)
    (stream : N) : M (World * t) unit :=
  in_world (open_file_binary_ifstream source_path) ;;;
  let format := extract_file_extension source_path in
  add_ingredient_stream ingredient_json format stream.

(** [Builder::add_action(action_json)] *)
Definition add_action (action_json : string) : M (World * t) unit :=
  self <- this ;;
  result <- in_world (c2pa_builder_add_action (builder self) action_json) ;;
  if result <? 0 then in_world throw_last else ret tt.

(** [Builder::sign(format, source, dest, signer)], [dest] an
    [std::ostream] *)
Definition sign_ostream (format : string) (source dest : N) (signer : Signer.t)
  : M (World * t) (list Byte.byte) :=
  scoped (CppStream.new_istream source) CppStream.destroy
    (fun c_source =>
       scoped (CppStream.new_ostream dest) CppStream.destroy
         (fun c_dest =>
            self <- this ;;
            r <- in_world (c2pa_builder_sign (builder self) format
                             (CppStream.c_stream c_source)
                             (CppStream.c_stream c_dest)
                             (Signer.c2pa_signer signer)) ;;
            in_world (to_byte_vector (snd r) (fst r)))).

(** [Builder::to_archive(dest)], [dest] a stream *)
Definition to_archive_stream (dest : N) : M (World * t) unit :=
  scoped (CppStream.new_ostream dest) CppStream.destroy
    (fun c_dest =>
       self <- this ;;
       result <- in_world (c2pa_builder_to_archive (builder self)
                             (CppStream.c_stream c_dest)) ;;
       if result <? 0 then in_world throw_last else ret tt).

(** [Builder::to_archive(dest_path)]; the file stream is at address
    [stream]. *)
Definition to_archive_path (dest_path : path) (stream : N) : M (World * t) unit :=
  in_world (open_file_binary_ofstream dest_path) ;;;
  to_archive_stream stream.

(** [Builder::data_hashed_placeholder(reserve_size, format)] *)
Definition data_hashed_placeholder (reserve_size : Z) (format : string)
  : M (World * t) (list Byte.byte) :=
  self <- this ;;
  r <- in_world (c2pa_builder_data_hashed_placeholder (builder self)
                   reserve_size format) ;;
  in_world (to_byte_vector (snd r) (fst r)).

(** [Builder::sign_data_hashed_embeddable(signer, data_hash, format,
    asset)]; the wrapper of the asset lives in the branch that makes the
    foreign call. *)
Definition sign_data_hashed_embeddable (signer : Signer.t)
    (data_hash format : string) (asset : option N)
  : M (World * t) (list Byte.byte) :=
  r <- match asset with
       | Some stream =>
           scoped (CppStream.new_istream stream) CppStream.destroy
             (fun c_asset =>
                self <- this ;;
                in_world (c2pa_builder_sign_data_hashed_embeddable (builder self)
                            (Signer.c2pa_signer signer) data_hash format
                            (CppStream.c_stream c_asset)))
       | None =>
           self <- this ;;
           in_world (c2pa_builder_sign_data_hashed_embeddable (builder self)
                       (Signer.c2pa_signer signer) data_hash format nullptr)
       end ;;
  in_world (to_byte_vector (snd r) (fst r)).

(** [Builder::format_embeddable(format, data)] (static) *)
Definition format_embeddable (format : string) (data : list Byte.byte)
  : M World (list Byte.byte) :=
  r <- c2pa_format_embeddable format data ;;
  to_byte_vector (snd r) (fst r).
End Builder.

(** ** The exception's message and the free functions (c2pa_core.cpp) *)

(** [C2paException::what()], which the code asks of a [C2paException]
    only; of the other exceptions this is what they carry. *)
Definition what (e : exception) : string :=
  match e with
  | C2paException message_ => message_
  | std_system_error s | std_runtime_error s | std_filesystem_error s
  | std_ios_failure s | other_std_exception s => s
  | non_std_exception => ""
  end.

(** [strstr] of the C library: the rest of [haystack] from the first
    occurrence of [needle] on, [None] for a null pointer. *)
Fixpoint strstr (haystack needle : string) : option string :=
  if String.prefix needle haystack then Some haystack
  else match haystack with
       | EmptyString => None
       | String _ rest => strstr rest needle
       end.

Section Core.
Local Open Scope m_scope.

(** [c2pa::version()] *)
Definition version : M World string :=
  c_result <- c2pa_version ;; c_string_to_string c_result.

(** [c2pa::load_settings(data, format)] *)
Definition load_settings (data format : string) : M World unit :=
  result <- c2pa_load_settings data format ;;
  if negb (result =? 0) then throw_last else ret tt.

(** [c2pa::read_file(source_path, data_dir)] *)
Definition read_file (source_path : path) (data_dir : option path)
  : M World (option string) :=
  let dir_ptr := match data_dir with
                 | Some dir => Some (path_to_string dir)
                 | None => None
                 end in
  result <- c2pa_read_file (path_to_string source_path) dir_ptr ;;
  match result with
  | None =>
      e <- C2paException_last ;;
      match strstr (what e) "ManifestNotFound" with
      | Some _ => ret None
      | None => throw_last
      end
  | Some str => log_call "c2pa_free" [] ;;; ret (Some str)
  end.

(** [c2pa::read_ingredient_file(source_path, data_dir)] *)
Definition read_ingredient_file (source_path data_dir : path) : M World string :=
  c_result <- c2pa_read_ingredient_file (path_to_string source_path)
                (path_to_string data_dir) ;;
  c_string_to_string c_result.

(** [c2pa::sign_file(source_path, dest_path, manifest, signer_info,
    data_dir)]; [signer_info] is the address of the caller's structure. *)
Definition sign_file (source_path dest_path : path) (manifest : string)
    (signer_info : N) (data_dir : option path) : M World unit :=
  let dir := match data_dir with
             | Some dir => path_to_string dir
             | None => ""
             end in
  result <- c2pa_sign_file (path_to_string source_path)
              (path_to_string dest_path) manifest signer_info dir ;;
  match result with
  | None => throw_last
  | Some _ => log_call "c2pa_free" []
  end.
End Core.

(** ** Vocabulary of the properties *)

(** The seek callback of each adapter. *)
Definition adapter_seeker (T : Stream) : Z -> C2paSeekMode -> St StreamMem Z :=
  match T with
  | std_istream => CppIStream.seeker
  | std_ostream => CppOStream.seeker
  | std_iostream => CppIOStream.seeker
  end.

(** The position a seek asks for, counted from [here] when relative. *)
Definition seek_target (s : ios) (here offset : Z) (whence : C2paSeekMode) : Z :=
  match whence with
  | Start => 0
  | Current => here
  | End_ => size_of s
  end + offset.

(** A position the stream buffer accepts. *)
Definition reachable (s : ios) (target : Z) : Prop :=
  0 <= target /\ (rdbuf s = stringbuf -> target <= size_of s).

(** The position a stream type reports. *)
Definition reported (T : Stream) (s : ios) : Z :=
  match T with std_istream => gpos s | _ => pput s end.

(** The positions a seek of each stream type asks for. *)
Definition targets_reachable (T : Stream) (offset : Z) (whence : C2paSeekMode)
    (s : ios) : Prop :=
  match T with
  | std_istream => reachable s (seek_target s (gpos s) offset whence)
  | std_ostream => reachable s (seek_target s (pput s) offset whence)
  | std_iostream =>
      reachable s (seek_target s (gpos s) offset whence) /\
      reachable s (seek_target s (pput s) offset whence)
  end.

(** The stream a seek that moves each position once leaves: flags clear,
    positions at their targets. *)
Definition repositioned (T : Stream) (offset : Z) (whence : C2paSeekMode)
    (s : ios) : ios :=
  let c := ios_clear s in
  match T with
  | std_istream => set_gpos (seek_target s (gpos s) offset whence) c
  | std_ostream => set_pput (seek_target s (pput s) offset whence) c
  | std_iostream =>
      set_pput (seek_target s (pput s) offset whence)
        (set_gpos (seek_target s (gpos s) offset whence) c)
  end.

(** The seek moves each position once: not so for a relative seek of an
    [std::iostream] over a file buffer, whose one position [seekg] and
    [seekp] move in turn. *)
Definition moves_once (T : Stream) (whence : C2paSeekMode) (s : ios) : Prop :=
  T = std_iostream -> rdbuf s = filebuf -> whence <> Current.

(** The flags are clear: the state [stream_seeker] seeks from. *)
Definition flags_clear (s : ios) : Prop :=
  badbit s = false /\ failbit s = false /\ eofbit s = false.

(** What [stream_seeker] computes on a usable stream, per stream type:
    [c] is the stream with its flags cleared. *)
Definition seeker_result (T : Stream) (offset : Z) (dir : seekdir)
    (c : ios) (m : StreamMem) : Z * StreamMem :=
  let failed c' :=
    (-1, sm_set_errno EINVAL (sm_set_context (setstate_failbit c') m)) in
  match T with
  | std_istream =>
      match pubseekoff c (gpos c) offset dir with
      | Some t => (t, sm_set_context (set_gpos t c) m)
      | None => failed c
      end
  | std_ostream =>
      match pubseekoff c (pput c) offset dir with
      | Some t => (t, sm_set_context (set_pput t c) m)
      | None => failed c
      end
  | std_iostream =>
      match pubseekoff c (gpos c) offset dir with
      | Some t =>
          match pubseekoff c (pput (set_gpos t c)) offset dir with
          | Some t' => (t', sm_set_context (set_pput t' (set_gpos t c)) m)
          | None => failed (set_gpos t c)
          end
      | None => failed c
      end
  end.


(** The read contract in the words of the specification: -1 exactly on a
    negative size, a null buffer or context, a stream in a bad state, or a
    read failure that is not end-of-stream. *)
Definition read_failure_not_eof (size : Z) (s : ios) : bool :=
  let s' := fst (istream_read size s) in
  ios_fail s' && negb (ios_eof s').

Definition read_error_stated (size : Z) (m : StreamMem) : Prop :=
  size < 0 \/ sm_buffer m = None \/ sm_context m = None \/
  exists s, sm_context m = Some s /\
            (ios_bad s = true \/ read_failure_not_eof size s = true).

Definition read_contract_stated (size : Z) (m : StreamMem) : Prop :=
  fst (stream_reader size m) = -1 <-> read_error_stated size m.

(** A stream [istream::read] cannot read from, for a reason other than
    end-of-stream: badbit is set, failbit is set without eofbit, or the
    stream is good and its device fails. *)
Definition read_refused (s : ios) : bool :=
  badbit s || (failbit s && negb (eofbit s)) || (ios_good s && fault s).

(** The characters a read of [size] obtains from a stream that is not
    refused: none unless the stream is good. *)
Definition obtained (size : Z) (s : ios) : list Byte.byte :=
  if ios_good s then take (Z.to_nat size) (drop (Z.to_nat (gpos s)) (chars s))
  else [].

(** In the words of the specification: the operation raises, and no foreign
    call is made. *)
Definition raises_without_foreign_call {O A} (op : M (World * O) A)
    (w : World) (a : O) : Prop :=
  (exists e, fst (op (w, a)) = inl e) /\
  calls (fst (snd (op (w, a)))) = calls w.

(** The operation refuses: a [C2paException] with [message], and nothing
    else happens, neither in the world nor in the object. *)
Definition refuses {O A} (op : M (World * O) A) (message : string)
    (w : World) (a : O) : Prop :=
  op (w, a) = (inl (C2paException message), (w, a)).



Definition raises_message {O} (ctor : M World O) (w : World) (message : string)
  : Prop :=
  fst (ctor w) = inl (C2paException message).




(** ** Sample inputs *)

Definition sample_data : list Byte.byte := [Byte.x61; Byte.x62; Byte.x63].
Definition sample_buffer : list Byte.byte :=
  [Byte.x00; Byte.x00; Byte.x00; Byte.x00; Byte.x00].

(** A fresh stream over [l], one whose badbit is set, and one that a read
    has driven to its end. *)
Definition stream_over (l : list Byte.byte) : ios :=
  Ios false false false 0 stringbuf l 0 0 false.
Definition bad_stream : ios := Ios true false false 0 stringbuf [] 0 0 false.
Definition stream_at_end : ios :=
  Ios false true true 3 stringbuf sample_data 3 0 false.


(** A file stream over [sample_data] that a read has driven to its end. *)
Definition file_at_end : ios :=
  Ios false true true 3 filebuf sample_data 3 0 false.

(** A world with no live handle whose engine and file system accept
    everything. *)
Definition idle_world : World :=
  MkWorld ∅ 1%positive None [] [] [] []
    (fun _ => true) (fun _ => true) (fun _ => true) (fun _ => true).

(** A world in which the handles of [l] are live and the engine's next
    answers are [sc]. *)
Definition world_with (l : list N) (sc : list outcome) : World :=
  set_script sc (set_next 100%positive (set_live (list_to_set l) idle_world)).

(** A world in which nothing can be opened for writing. *)
Definition read_only_world : World :=
  MkWorld ∅ 1%positive None [] [] [] []
    (fun _ => true) (fun _ => false) (fun _ => true) (fun _ => true).

Definition jpeg (dir name : string) : path :=
  Path (dir ++ "/" ++ name ++ ".jpg") dir ".jpg".

(** ** Vocabulary of the further properties *)

(** The characters from the get position on. *)
Definition remaining (s : ios) : list Byte.byte :=
  drop (Z.to_nat (gpos s)) (chars s).

(** The read callback called once per size, each call with the same
    buffer argument; the values returned, in order. *)
Fixpoint read_each (sizes : list Z) : St StreamMem (list Z) :=
  match sizes with
  | [] => st_ret []
  | size :: rest =>
      st_bind (stream_reader size)
        (fun r => st_bind (read_each rest) (fun rs => st_ret (r :: rs)))
  end.

(** A read has driven the stream to its end: eofbit and failbit are set,
    badbit is not. *)
Definition at_end (s : ios) : Prop :=
  badbit s = false /\ failbit s = true /\ eofbit s = true.

(** The memory a callback is entered with: errno, the stream and the buffer
    argument of the call. *)
Definition entered (e : Z) (s : ios) (buffer : list Byte.byte) : StreamMem :=
  StreamMemory e (Some s) (Some buffer).

(** Every live handle was issued before [next]: the next handle the engine
    issues is new. *)
Definition fresh_handles (w : World) : Prop :=
  forall h, h ∈ live w -> (h < N.pos (next w))%N.

Section Effects.
Context {S : Type} (world : S -> World).

(** The computation gives back what it took: the handles that are live
    afterwards are those that were live before, and none was released
    twice. *)
Definition tidy {A} (c : M S A) : Prop :=
  forall s, fresh_handles (world s) ->
    live (world (snd (c s))) = live (world s) /\
    stale (world (snd (c s))) = stale (world s) /\
    (next (world s) <= next (world (snd (c s))))%positive.

(** The computation does not touch the handles at all. *)
Definition handles_untouched {A} (c : M S A) : Prop :=
  forall s,
    live (world (snd (c s))) = live (world s) /\
    stale (world (snd (c s))) = stale (world s) /\
    next (world (snd (c s))) = next (world s).
End Effects.

(** The method leaves the object as it found it. *)
Definition keeps_this {O A} (c : M (World * O) A) : Prop :=
  forall s, snd (snd (c s)) = snd s.

(** Whatever the computation raises is a [C2paException]. *)
Definition raises_C2paException_only {S A} (c : M S A) : Prop :=
  forall s e, fst (c s) = inl e -> is_C2paException e = true.

(** A constructor of a stream adapter: the object holds the handle the
    engine issued, or the constructor raised and no handle was issued. *)
Definition issues_stream (ctor : M World CppStream.t) : Prop :=
  forall w,
    match ctor w with
    | (inr c, w1) =>
        CppStream.c_stream c = N.pos (next w) /\
        live w1 = {[N.pos (next w)]} ∪ live w /\
        stale w1 = stale w /\ next w1 = Pos.succ (next w)
    | (inl e, w1) =>
        live w1 = live w /\ stale w1 = stale w /\ next w1 = next w
    end.

(** The handles after the method are the handles before it. *)
Definition handles_as_before {O A} (op : M (World * O) A) (w : World) (o : O)
  : Prop :=
  live (fst (snd (op (w, o)))) = live w /\
  stale (fst (snd (op (w, o)))) = stale w.

(** The handles an object holds. *)
Definition held (h : N) : gset N := {[h]}.

Definition Reader_held (r : Reader.t) : gset N :=
  {[Reader.c2pa_reader r]}
  ∪ match Reader.cpp_stream r with
    | Some c => {[CppStream.c_stream c]}
    | None => ∅
    end.

(** The constructor acquires what the object holds and nothing else: when
    it returns, the handles of the object have joined the live ones; when
    it raises, the live handles are those there were; and no handle has
    been released twice. *)
Definition acquires {O} (owned : O -> gset N) (ctor : M World O) (w : World)
  : Prop :=
  match ctor w with
  | (inr o, w') => live w' = owned o ∪ live w /\ stale w' = stale w
  | (inl e, w') => live w' = live w /\ stale w' = stale w
  end.

(** Between [w] and [w'] the handle [h] was released, once, and nothing
    else happened to the handles. *)
Definition released (h : N) (w w' : World) : Prop :=
  live w' = live w ∖ {[h]} /\ stale w' = stale w.

(** Nothing happened to the handles between [w] and [w']. *)
Definition same_handles (w w' : World) : Prop :=
  live w' = live w /\ stale w' = stale w.

(** The engine issues a stream: what the calls that follow see. *)
Definition stream_issued (w w1 : World) (rest : list outcome) : Prop :=
  calls w1 = Call "c2pa_create_stream" [] :: calls w /\
  script w1 = rest /\ next w1 = Pos.succ (next w) /\ payload w1 = payload w.

(** The computation leaves a part of the state as it was. *)
Definition unchanged {S A X} (part : S -> X) (c : M S A) : Prop :=
  forall s, part (snd (c s)) = part s.

(** The object owns its handle: it holds null or a handle that is live. *)
Definition owns (h : N) (w : World) : Prop := h = nullptr \/ h ∈ live w.

(** After the operation the builder still owns its handle, no handle has
    been released twice, and the destructor can run without releasing one
    twice. *)
Definition keeps_ownership {A} (op : M (World * Builder.t) A) (w : World)
    (b : Builder.t) : Prop :=
  let after := snd (op (w, b)) in
  owns (Builder.builder (snd after)) (fst after) /\
  stale (fst after) = stale w /\
  stale (fst (snd (Builder.destroy after))) = stale w.

(** * Properties of the stream callbacks *)

(** ** Positioning *)

Lemma pubseekoff_reachable s here off whence :
  fault s = false ->
  reachable s (seek_target s here off whence) ->
  pubseekoff s here off (whence_to_seekdir whence)
  = Some (seek_target s here off whence).
Proof.
  intros Hf [H0 H1]. unfold pubseekoff. rewrite Hf.
  assert (E : (match whence_to_seekdir whence with
               | beg => 0 | cur => here | end_ => size_of s end) + off
              = seek_target s here off whence) by (destruct whence; reflexivity).
  cbv zeta. rewrite E.
  destruct (0 <=? _) eqn:E0; [|apply Z.leb_gt in E0; lia].
  destruct (rdbuf s); [|reflexivity].
  destruct (_ <=? size_of s) eqn:E1; [reflexivity|].
  apply Z.leb_gt in E1. specialize (H1 eq_refl). lia.
Qed.


Lemma pubseekoff_Some s here off dir p :
  pubseekoff s here off dir = Some p ->
  fault s = false /\ reachable s p /\
  p = match dir with beg => 0 | cur => here | end_ => size_of s end + off.
Proof.
  unfold pubseekoff, reachable. destruct (fault s); [discriminate|]. cbv zeta.
  destruct (0 <=? _) eqn:E0; simpl; [|discriminate].
  apply Z.leb_le in E0.
  destruct (rdbuf s).
  - destruct (_ <=? size_of s) eqn:E1; [|discriminate].
    intros [= <-]. apply Z.leb_le in E1. auto.
  - intros [= <-]. repeat split; [exact E0 | discriminate].
Qed.

Lemma pubseekoff_unreachable s here off whence :
  ~ reachable s (seek_target s here off whence) ->
  pubseekoff s here off (whence_to_seekdir whence) = None.
Proof.
  intros H.
  destruct (pubseekoff s here off (whence_to_seekdir whence)) as [p|] eqn:E;
    [|reflexivity].
  apply pubseekoff_Some in E as (_ & Hr & Hp). exfalso. apply H.
  replace (seek_target s here off whence) with p; [exact Hr|].
  rewrite Hp. destruct whence; reflexivity.
Qed.

Lemma pubseekoff_here s here off dir p :
  pubseekoff s here off dir = Some p -> pubseekoff s p 0 cur = Some p.
Proof.
  intros H. apply pubseekoff_Some in H as (Hf & Hr & _).
  pose proof (pubseekoff_reachable s p 0 Current Hf) as E.
  unfold seek_target in E. rewrite Z.add_0_r in E. exact (E Hr).
Qed.

Lemma pubseekoff_absolute s here here' off dir :
  dir <> cur -> pubseekoff s here off dir = pubseekoff s here' off dir.
Proof. intros H. destruct dir; [reflexivity | congruence | reflexivity]. Qed.

Lemma ios_clear_flags s : flags_clear (ios_clear s).
Proof. repeat split. Qed.

(** Moving a position changes neither the flags nor what the buffer
    accepts. *)
Lemma set_pput_fail t c : ios_fail (set_pput t c) = ios_fail c.
Proof. unfold set_pput. destruct (rdbuf c); reflexivity. Qed.

Lemma set_pput_bad t c : ios_bad (set_pput t c) = ios_bad c.
Proof. unfold set_pput. destruct (rdbuf c); reflexivity. Qed.

Lemma pput_set_pput t c : pput (set_pput t c) = t.
Proof. unfold pput, set_pput. destruct (rdbuf c) eqn:E; simpl; rewrite E; reflexivity. Qed.

Lemma pubseekoff_set_pput t c here off dir :
  pubseekoff (set_pput t c) here off dir = pubseekoff c here off dir.
Proof. unfold set_pput. destruct (rdbuf c); reflexivity. Qed.

Lemma seekg_result c off dir :
  flags_clear c ->
  seekg off dir c = match pubseekoff c (gpos c) off dir with
                    | Some t => set_gpos t c
                    | None => setstate_failbit c
                    end.
Proof.
  intros (Hb & Hf & He). destruct c as [bb fb eb gc k ch g p fl].
  simpl in *. subst. reflexivity.
Qed.

Lemma seekp_result c off dir :
  ios_fail c = false ->
  seekp off dir c = match pubseekoff c (pput c) off dir with
                    | Some t => set_pput t c
                    | None => setstate_failbit c
                    end.
Proof. intros H. unfold seekp. rewrite H. reflexivity. Qed.

Lemma tellg_result c :
  flags_clear c ->
  tellg c = (match pubseekoff c (gpos c) 0 cur with
             | Some p => p
             | None => -1
             end, c).
Proof.
  intros (Hb & Hf & He). destruct c as [bb fb eb gc k ch g p fl].
  simpl in *. subst. unfold tellg. simpl.
  destruct (pubseekoff _ g 0 cur); reflexivity.
Qed.

Lemma tellp_result c :
  ios_fail c = false ->
  tellp c = (match pubseekoff c (pput c) 0 cur with
             | Some p => p
             | None => -1
             end, c).
Proof.
  intros H. unfold tellp. rewrite H.
  destruct (pubseekoff _ (pput c) 0 cur); reflexivity.
Qed.

(** ** The seek callback *)

Ltac unfold_seeker :=
  unfold adapter_seeker, CppIStream.seeker, CppOStream.seeker,
    CppIOStream.seeker, stream_seeker, st_bind, st_get.

(** After a put position was set on a stream without failure, [tellp]
    reports it and the callback returns it. *)
Lemma tell_after_seekp (c : ios) (t : Z) (here off : Z) (dir : seekdir)
    (m : StreamMem) :
  ios_fail c = false ->
  pubseekoff c here off dir = Some t ->
  (let stream := set_pput t c in
   st_bind (st_modify (sm_set_context stream))
     (fun _ =>
        if ios_fail stream then stream_error_return InvalidArgument
        else if ios_bad stream then stream_error_return IoError
        else
          let (pos, stream) := tellp stream in
          st_bind (st_modify (sm_set_context stream))
            (fun _ => if pos <? 0 then stream_error_return IoError
                      else st_ret pos))) m
  = (t, sm_set_context (set_pput t c) m).
Proof.
  intros Hfail E. cbv zeta. unfold st_bind at 1. unfold st_modify at 1.
  assert (Hbad : ios_bad c = false).
  { unfold ios_fail in Hfail. apply orb_false_iff in Hfail as [_ H]. exact H. }
  rewrite set_pput_fail, Hfail, set_pput_bad, Hbad.
  rewrite tellp_result by (rewrite set_pput_fail; exact Hfail).
  rewrite pput_set_pput, pubseekoff_set_pput, (pubseekoff_here _ _ _ _ _ E).
  apply pubseekoff_Some in E as (_ & [H0 _] & _).
  unfold st_bind, st_modify, st_ret.
  destruct (t <? 0) eqn:E'; [apply Z.ltb_lt in E'; lia|].
  destruct m; reflexivity.
Qed.

Lemma adapter_seeker_usable T offset whence m s :
  sm_context m = Some s -> badbit s = false ->
  adapter_seeker T offset whence m
  = seeker_result T offset (whence_to_seekdir whence) (ios_clear s) m.
Proof.
  intros Hc Hb. pose proof (ios_clear_flags s) as Hcl.
  set (c := ios_clear s) in *. set (dir := whence_to_seekdir whence).
  assert (Hfail : ios_fail c = false) by reflexivity.
  destruct T; unfold_seeker; rewrite Hc;
    unfold is_stream_usable, ios_bad; rewrite Hb; cbn [negb]; fold c; fold dir;
    cbn [seek tell StreamSeekTraits_istream StreamSeekTraits_ostream
           StreamSeekTraits_iostream seeker_result].
  - rewrite (seekg_result c offset dir Hcl).
    destruct (pubseekoff c (gpos c) offset dir) as [t|] eqn:E; [|reflexivity].
    change (ios_fail (set_gpos t c)) with false. cbv iota.
    change (ios_bad (set_gpos t c)) with false. cbv iota.
    rewrite tellg_result by (repeat split).
    change (pubseekoff (set_gpos t c) (gpos (set_gpos t c)) 0 cur)
      with (pubseekoff c t 0 cur).
    rewrite (pubseekoff_here _ _ _ _ _ E).
    apply pubseekoff_Some in E as (_ & [H0 _] & _).
    unfold st_modify, st_ret. cbn.
    destruct (t <? 0) eqn:E'; [apply Z.ltb_lt in E'; lia|]. reflexivity.
  - rewrite (seekp_result c offset dir Hfail).
    destruct (pubseekoff c (pput c) offset dir) as [t|] eqn:E; [|reflexivity].
    apply (tell_after_seekp c t _ _ _ m Hfail E).
  - rewrite (seekg_result c offset dir Hcl).
    destruct (pubseekoff c (gpos c) offset dir) as [t|] eqn:E; [|reflexivity].
    rewrite seekp_result by reflexivity.
    change (pubseekoff (set_gpos t c) (pput (set_gpos t c)) offset dir)
      with (pubseekoff c (pput (set_gpos t c)) offset dir).
    destruct (pubseekoff c (pput (set_gpos t c)) offset dir) as [t'|] eqn:E';
      [|reflexivity].
    apply (tell_after_seekp (set_gpos t c) t' _ _ _ m eq_refl E').
Qed.




(** Whatever flags other than badbit the stream carries, the seek callback
    behaves as on the same stream with its flags cleared. *)
Lemma stream_seeker_clears_flags T offset whence m s :
  sm_context m = Some s -> badbit s = false ->
  adapter_seeker T offset whence m
  = adapter_seeker T offset whence (sm_set_context (ios_clear s) m).
Proof.
  intros Hc Hb.
  rewrite (adapter_seeker_usable T offset whence m s Hc Hb).
  rewrite (adapter_seeker_usable T offset whence
             (sm_set_context (ios_clear s) m) (ios_clear s) eq_refl eq_refl).
  change (ios_clear (ios_clear s)) with (ios_clear s).
  destruct T; unfold seeker_result;
    repeat match goal with
      | |- context [match pubseekoff ?c ?h ?o ?d with _ => _ end] =>
          destruct (pubseekoff c h o d)
      end; reflexivity.
Qed.

(** Where the seek moves each position once, a seek after a soft failure
    reaches every reachable target: it returns the target and leaves the
    stream good. *)
Lemma seek_after_soft_failure T offset whence m s :
  sm_context m = Some s -> badbit s = false -> fault s = false ->
  moves_once T whence s ->
  targets_reachable T offset whence s ->
  adapter_seeker T offset whence m
  = (reported T (repositioned T offset whence s),
     sm_set_context (repositioned T offset whence s) m) /\
  ios_good (repositioned T offset whence s) = true.
Proof.
  intros Hc Hb Hf Honce Hr.
  rewrite (adapter_seeker_usable T offset whence m s Hc Hb).
  assert (Hfc : fault (ios_clear s) = false) by exact Hf.
  destruct T; unfold seeker_result, repositioned, reported;
    cbn [targets_reachable] in Hr;
    change (gpos (ios_clear s)) with (gpos s);
    change (pput (ios_clear s)) with (pput s).
  - rewrite (pubseekoff_reachable (ios_clear s) _ _ _ Hfc Hr).
    split; reflexivity.
  - rewrite (pubseekoff_reachable (ios_clear s) _ _ _ Hfc Hr).
    rewrite pput_set_pput. split; [reflexivity|].
    unfold set_pput. destruct (rdbuf (ios_clear s)); reflexivity.
  - destruct Hr as [Hg Hp].
    rewrite (pubseekoff_reachable (ios_clear s) _ _ _ Hfc Hg).
    set (t := seek_target s (gpos s) offset whence) in *.
    assert (E : pubseekoff (ios_clear s) (pput (set_gpos t (ios_clear s))) offset
                  (whence_to_seekdir whence)
                = Some (seek_target s (pput s) offset whence)).
    { destruct (rdbuf s) eqn:Ek.
      - replace (pput (set_gpos t (ios_clear s))) with (pput s)
          by (unfold pput; simpl; rewrite Ek; reflexivity).
        apply (pubseekoff_reachable (ios_clear s)); assumption.
      - assert (Hw : whence <> Current) by (apply Honce; [reflexivity | exact Ek]).
        rewrite (pubseekoff_absolute _ _ (pput s))
          by (destruct whence; simpl; congruence).
        apply (pubseekoff_reachable (ios_clear s)); assumption. }
    change (seek_target (ios_clear s) (gpos s) offset whence) with t.
    rewrite E, pput_set_pput. split; [reflexivity|].
    unfold set_pput. destruct (rdbuf _); reflexivity.
Qed.

Lemma seek_after_soft_failure_example :
  ios_fail stream_at_end = true /\ ios_eof stream_at_end = true /\
  fst (CppIStream.seeker 1 Start (StreamMemory 0 (Some stream_at_end) None)) = 1 /\
  fst (CppIOStream.seeker (-2) End_ (StreamMemory 0 (Some file_at_end) None)) = 1.
Proof. repeat split. Qed.







(** C10: the code at a relative seek of an [std::iostream] over a file
    buffer.  [seekg] and then [seekp] move the one position of the file by
    [offset] each: when the requested target is reachable but the position
    twice [offset] away is negative, the callback returns -1 with errno
    EINVAL, and otherwise it returns that other position, where the claim
    has every seek to a valid target succeed. *)
Theorem iostream_relative_seek_moves_twice (offset : Z) (m : StreamMem) (s : ios) :
  sm_context m = Some s -> badbit s = false -> fault s = false ->
  rdbuf s = filebuf ->
  reachable s (seek_target s (gpos s) offset Current) ->
  (gpos s + 2 * offset < 0 ->
   fst (CppIOStream.seeker offset Current m) = -1 /\
   sm_errno (snd (CppIOStream.seeker offset Current m)) = EINVAL) /\
  (0 <= gpos s + 2 * offset ->
   fst (CppIOStream.seeker offset Current m) = gpos s + 2 * offset).
Proof.
  intros Hc Hb Hf Hk Hr.
  change (CppIOStream.seeker offset Current m)
    with (adapter_seeker std_iostream offset Current m).
  rewrite (adapter_seeker_usable std_iostream offset Current m s Hc Hb).
  assert (Hfc : fault (ios_clear s) = false) by exact Hf.
  unfold seeker_result. change (gpos (ios_clear s)) with (gpos s).
  change (whence_to_seekdir Current) with cur.
  pose proof (pubseekoff_reachable (ios_clear s) (gpos s) offset Current Hfc Hr)
    as E1.
  change (whence_to_seekdir Current) with cur in E1.
  change (seek_target (ios_clear s) (gpos s) offset Current)
    with (seek_target s (gpos s) offset Current) in E1.
  rewrite E1.
  set (t := seek_target s (gpos s) offset Current).
  assert (Et : pput (set_gpos t (ios_clear s)) = t).
  { unfold pput. simpl. rewrite Hk. reflexivity. }
  rewrite Et. unfold t, seek_target.
  split; intros H.
  - assert (E : pubseekoff (ios_clear s) (gpos s + offset) offset cur = None).
    { unfold pubseekoff. rewrite Hfc. cbv zeta.
      destruct (0 <=? gpos s + offset + offset) eqn:E0;
        [apply Z.leb_le in E0; lia | reflexivity]. }
    rewrite E. split; reflexivity.
  - pose proof (pubseekoff_reachable (ios_clear s) (gpos s + offset) offset
                  Current Hfc) as E.
    change (whence_to_seekdir Current) with cur in E.
    rewrite E.
    + unfold seek_target. simpl. lia.
    + unfold reachable, seek_target. split; [lia|].
      simpl. rewrite Hk. discriminate.
Qed.

Lemma iostream_relative_seek_moves_twice_witness :
  reachable file_at_end (seek_target file_at_end (gpos file_at_end) (-2) Current) /\
  fst (CppIOStream.seeker (-2) Current (StreamMemory 0 (Some file_at_end) None))
  = -1 /\
  sm_errno (snd (CppIOStream.seeker (-2) Current
                   (StreamMemory 0 (Some file_at_end) None))) = EINVAL.
Proof.
  assert (Hr : reachable file_at_end
                 (seek_target file_at_end (gpos file_at_end) (-2) Current)).
  { split; [vm_compute; discriminate | discriminate]. }
  split; [exact Hr|].
  destruct (iostream_relative_seek_moves_twice (-2)
              (StreamMemory 0 (Some file_at_end) None) file_at_end
              eq_refl eq_refl eq_refl eq_refl Hr) as [H _].
  apply H. vm_compute. reflexivity.
Defined.

(** ** The read callback *)

(** C4, as stated, fails: a zero-size read from a stream whose badbit is set
    returns 0, not -1. *)
Lemma read_contract_stated_fails :
  ~ read_contract_stated 0 (StreamMemory 0 (Some bad_stream) (Some [])).
Proof.
  unfold read_contract_stated. intros [_ H].
  assert (E : fst (stream_reader 0 (StreamMemory 0 (Some bad_stream) (Some []))) = -1).
  { apply H. right. right. right. exists bad_stream. split; [reflexivity|].
    left. reflexivity. }
  vm_compute in E. discriminate.
Qed.

Lemma obtained_length size s :
  0 < size -> 0 <= Z.of_nat (length (obtained size s)) <= size.
Proof.
  intros H. unfold obtained. destruct (ios_good s); simpl; [|lia].
  rewrite length_take. lia.
Qed.

Lemma stream_reader_reads size m s buffer :
  sm_context m = Some s -> sm_buffer m = Some buffer ->
  0 < size -> read_refused s = false ->
  fst (stream_reader size m) = Z.of_nat (length (obtained size s)) /\
  sm_buffer (snd (stream_reader size m))
  = Some (obtained size s ++ drop (length (obtained size s)) buffer).
Proof.
  intros Hc Hb Hs Hr. destruct m as [e c b]. simpl in Hc, Hb. subst c b.
  unfold stream_reader, st_bind, st_get. cbn [sm_context sm_buffer].
  destruct (size <? 0) eqn:E1; [apply Z.ltb_lt in E1; lia|].
  destruct (size =? 0) eqn:E2; [apply Z.eqb_eq in E2; lia|].
  destruct s as [bb fb eb gc k ch g p fl]. unfold read_refused in Hr. simpl in Hr.
  destruct bb; [discriminate|]. simpl in Hr.
  unfold is_stream_usable, ios_bad. cbn [badbit negb].
  unfold obtained, istream_read, ios_good. cbn [badbit failbit eofbit set_gcount negb andb].
  destruct fb, eb; simpl in Hr; try discriminate; cbn.
  - split; reflexivity.
  - split; reflexivity.
  - destruct fl; [discriminate|]. cbn.
    set (got := take (Z.to_nat size) (drop (Z.to_nat g) ch)).
    destruct (Z.of_nat (length got) <? size); cbn; split; reflexivity.
Qed.

Lemma stream_reader_refused size m s buffer :
  sm_context m = Some s -> sm_buffer m = Some buffer ->
  0 < size -> read_refused s = true ->
  fst (stream_reader size m) = -1 /\
  (sm_errno (snd (stream_reader size m)) = EINVAL \/
   sm_errno (snd (stream_reader size m)) = EIO).
Proof.
  intros Hc Hb Hs Hr. destruct m as [e c b]. simpl in Hc, Hb. subst c b.
  unfold stream_reader, st_bind, st_get. cbn [sm_context sm_buffer].
  destruct (size <? 0) eqn:E1; [apply Z.ltb_lt in E1; lia|].
  destruct (size =? 0) eqn:E2; [apply Z.eqb_eq in E2; lia|].
  destruct s as [bb fb eb gc k ch g p fl]. unfold read_refused in Hr. simpl in Hr.
  destruct bb; [split; [reflexivity | right; reflexivity]|].
  destruct fb, eb, fl; simpl in Hr; try discriminate; cbn;
    (split; [reflexivity | left; reflexivity]).
Qed.

(** C4, amended: the read callback returns -1 exactly when the context or
    the buffer is null, the size is negative, or the size is positive and
    the stream cannot be read for a reason other than end-of-stream (badbit,
    failbit without eofbit, or a device error); errno is then EINVAL or
    EIO.  A request of size zero returns 0 and touches nothing.  Otherwise
    the callback returns the number of characters obtained, stored at the
    front of the buffer: at most [size], fewer or none at end-of-stream. *)
Theorem stream_reader_contract (size : Z) (m : StreamMem) :
  (fst (stream_reader size m) = -1 <->
     sm_context m = None \/ sm_buffer m = None \/ size < 0 \/
     (0 < size /\ exists s, sm_context m = Some s /\ read_refused s = true)) /\
  (fst (stream_reader size m) = -1 ->
     sm_errno (snd (stream_reader size m)) = EINVAL \/
     sm_errno (snd (stream_reader size m)) = EIO) /\
  (size = 0 -> sm_context m <> None -> sm_buffer m <> None ->
     stream_reader size m = (0, m)) /\
  (forall s buffer,
     sm_context m = Some s -> sm_buffer m = Some buffer ->
     0 < size -> read_refused s = false ->
     fst (stream_reader size m) = Z.of_nat (length (obtained size s)) /\
     sm_buffer (snd (stream_reader size m))
     = Some (obtained size s ++ drop (length (obtained size s)) buffer) /\
     0 <= fst (stream_reader size m) <= size).
Proof.
  assert (Hnull : sm_context m = None \/ sm_buffer m = None ->
                  stream_reader size m = (-1, sm_set_errno EINVAL m)).
  { destruct m as [e [s|] [b|]]; intros [H|H]; try discriminate; reflexivity. }
  assert (Hneg : size < 0 -> forall s b, sm_context m = Some s ->
                 sm_buffer m = Some b ->
                 stream_reader size m = (-1, sm_set_errno EINVAL m)).
  { intros H s b Hc Hb. destruct m as [e c' b']. simpl in Hc, Hb. subst.
    unfold stream_reader, st_bind, st_get. cbn [sm_context sm_buffer].
    destruct (size <? 0) eqn:E; [reflexivity|apply Z.ltb_ge in E; lia]. }
  assert (Hzero : size = 0 -> sm_context m <> None -> sm_buffer m <> None ->
                  stream_reader size m = (0, m)).
  { intros -> Hc Hb. destruct m as [e [s|] [b|]]; simpl in Hc, Hb;
      try congruence; reflexivity. }
  split; [|split; [|split]].
  - split.
    + intros H.
      destruct (sm_context m) as [s|] eqn:Hc; [|left; reflexivity].
      destruct (sm_buffer m) as [b|] eqn:Hb; [|right; left; reflexivity].
      destruct (Z.lt_trichotomy size 0) as [Hs|[Hs|Hs]].
      * right; right; left. exact Hs.
      * rewrite Hzero in H by (congruence). discriminate.
      * right; right; right. split; [exact Hs|]. exists s. split; [reflexivity|].
        destruct (read_refused s) eqn:Hr; [reflexivity|].
        destruct (stream_reader_reads size m s b Hc Hb Hs Hr) as [E _].
        pose proof (obtained_length size s Hs). lia.
    + intros [H|[H|[H|(Hs & s & Hc & Hr)]]].
      * rewrite Hnull by (left; exact H). reflexivity.
      * rewrite Hnull by (right; exact H). reflexivity.
      * destruct (sm_context m) as [s|] eqn:Hc;
          [|rewrite Hnull by (left; reflexivity); reflexivity].
        destruct (sm_buffer m) as [b|] eqn:Hb;
          [|rewrite Hnull by (right; reflexivity); reflexivity].
        rewrite (Hneg H s b) by reflexivity. reflexivity.
      * destruct (sm_buffer m) as [b|] eqn:Hb;
          [|rewrite Hnull by (right; reflexivity); reflexivity].
        apply (stream_reader_refused size m s b Hc Hb Hs Hr).
  - intros H.
    destruct (sm_context m) as [s|] eqn:Hc;
      [|rewrite Hnull by (left; reflexivity); left; reflexivity].
    destruct (sm_buffer m) as [b|] eqn:Hb;
      [|rewrite Hnull by (right; reflexivity); left; reflexivity].
    destruct (Z.lt_trichotomy size 0) as [Hs|[Hs|Hs]].
    + rewrite (Hneg Hs s b) by reflexivity. left; reflexivity.
    + rewrite Hzero in H by congruence. discriminate.
    + destruct (read_refused s) eqn:Hr.
      * apply (stream_reader_refused size m s b Hc Hb Hs Hr).
      * destruct (stream_reader_reads size m s b Hc Hb Hs Hr) as [E _].
        pose proof (obtained_length size s Hs). lia.
  - exact Hzero.
  - intros s b Hc Hb Hs Hr.
    destruct (stream_reader_reads size m s b Hc Hb Hs Hr) as [E1 E2].
    repeat split; try assumption; rewrite E1;
      pose proof (obtained_length size s Hs); lia.
Qed.

Lemma stream_reader_contract_witness :
  fst (stream_reader 5 (StreamMemory 0 (Some (stream_over sample_data))
                          (Some sample_buffer))) = 3 /\
  sm_buffer (snd (stream_reader 5 (StreamMemory 0 (Some (stream_over sample_data))
                                     (Some sample_buffer))))
  = Some [Byte.x61; Byte.x62; Byte.x63; Byte.x00; Byte.x00] /\
  fst (stream_reader 5 (StreamMemory 0 (Some stream_at_end)
                          (Some sample_buffer))) = 0.
Proof.
  destruct (stream_reader_contract 5
              (StreamMemory 0 (Some (stream_over sample_data)) (Some sample_buffer)))
    as (_ & _ & _ & H).
  destruct (H (stream_over sample_data) sample_buffer eq_refl eq_refl
              ltac:(lia) eq_refl) as (H1 & H2 & _).
  destruct (stream_reader_contract 5
              (StreamMemory 0 (Some stream_at_end) (Some sample_buffer)))
    as (_ & _ & _ & H').
  destruct (H' stream_at_end sample_buffer eq_refl eq_refl
              ltac:(lia) eq_refl) as (H3 & _).
  split; [exact H1 | split; [exact H2 | exact H3]].
Defined.

(** ** The read-only adapter *)

(** C3: the write and flush callbacks of CppIStream return -1 and set
    errno to EINVAL whatever the context, the buffer and the size are, and
    leave the stream and the buffer as they were. *)
Theorem CppIStream_write_flush_rejected (size : Z) (m : StreamMem) :
  (fst (CppIStream.writer size m) = -1 /\
   sm_errno (snd (CppIStream.writer size m)) = EINVAL /\
   sm_context (snd (CppIStream.writer size m)) = sm_context m /\
   sm_buffer (snd (CppIStream.writer size m)) = sm_buffer m) /\
  (fst (CppIStream.flusher m) = -1 /\
   sm_errno (snd (CppIStream.flusher m)) = EINVAL /\
   sm_context (snd (CppIStream.flusher m)) = sm_context m /\
   sm_buffer (snd (CppIStream.flusher m)) = sm_buffer m).
Proof. repeat split. Qed.

(** ** The write callback *)

Lemma ostream_write_null_zero s : ios_good s = true -> ostream_write None 0 s = Some s.
Proof. intros H. unfold ostream_write. rewrite H. reflexivity. Qed.

Lemma ostream_write_null_positive s size :
  ios_good s = true -> 0 < size -> ostream_write None size s = None.
Proof.
  intros H Hs. unfold ostream_write. rewrite H.
  destruct (size =? 0) eqn:E0; [apply Z.eqb_eq in E0; lia|].
  destruct (size <? 0) eqn:E1; [apply Z.ltb_lt in E1; lia|].
  reflexivity.
Qed.

Lemma good_flags s :
  ios_good s = true -> badbit s = false /\ failbit s = false /\ eofbit s = false.
Proof.
  unfold ios_good. destruct (badbit s), (failbit s), (eofbit s);
    simpl; intros; try discriminate; auto.
Qed.

(** C5: the code at a null buffer.  On a good stream the write callback of
    CppOStream and of CppIOStream returns 0 for size 0, with errno and the
    stream untouched, where the claim has -1 and an error code; for a
    positive size it performs the write through the null pointer, which is
    undefined. *)
Theorem stream_writer_null_buffer (e : Z) (s : ios) :
  ios_good s = true ->
  CppOStream.writer 0 (StreamMemory e (Some s) None)
  = Some (0, StreamMemory e (Some s) None) /\
  CppIOStream.writer 0 (StreamMemory e (Some s) None)
  = Some (0, StreamMemory e (Some s) None) /\
  (forall size, 0 < size ->
     CppOStream.writer size (StreamMemory e (Some s) None) = None /\
     CppIOStream.writer size (StreamMemory e (Some s) None) = None).
Proof.
  intros Hg. destruct (good_flags s Hg) as (Hb & Hf & _).
  unfold CppOStream.writer, CppIOStream.writer, stream_writer, stream_op.
  cbn [sm_context sm_buffer is_stream_usable]. unfold ios_bad. rewrite Hb.
  cbn [negb]. rewrite (ostream_write_null_zero s Hg). cbn [mbind option_bind].
  unfold ios_fail, ios_bad. rewrite Hb, Hf. cbn [orb].
  repeat split; try reflexivity;
    rewrite (ostream_write_null_positive s size Hg H); reflexivity.
Qed.

Lemma stream_writer_null_buffer_witness :
  CppOStream.writer 0 (StreamMemory 0 (Some (stream_over sample_data)) None)
  = Some (0, StreamMemory 0 (Some (stream_over sample_data)) None).
Proof.
  apply (stream_writer_null_buffer 0 (stream_over sample_data)).
  reflexivity.
Defined.

(** * Properties of the signer trampoline *)

Lemma to_intptr_small z : 0 <= z <= vector_max_size -> to_intptr z = z.
Proof.
  unfold to_intptr, vector_max_size. intros H.
  rewrite Z.mod_small by lia. lia.
Qed.

(** C7: the trampoline returns -1 with errno EINVAL when the input or the
    output pointer is null; otherwise it calls the user's callback on the
    first [len] input bytes; when the vector that comes back is longer than
    [sig_max_len] it returns -1 with errno ENOBUFS and stores nothing;
    otherwise it stores the vector at the front of the output buffer and
    returns its length; when the callback throws, whatever it throws, it
    returns -1 and changes nothing.  In no case does an exception leave
    the trampoline. *)
Theorem signer_passthrough_contract (callback : SignerFunc)
    (len sig_max_len : Z) (m : SignerMem) :
  (sg_data m = None \/ sg_signature m = None ->
     signer_passthrough callback len sig_max_len m
     = (inr (-1), sg_set_errno EINVAL m)) /\
  (forall data signature,
     sg_data m = Some data -> sg_signature m = Some signature ->
     match callback (take (Z.to_nat len) data) with
     | inr v =>
         if sig_max_len <? Z.of_nat (length v) then
           signer_passthrough callback len sig_max_len m
           = (inr (-1), sg_set_errno ENOBUFS m)
         else
           Z.of_nat (length v) <= vector_max_size ->
           signer_passthrough callback len sig_max_len m
           = (inr (Z.of_nat (length v)),
              sg_set_signature (v ++ drop (length v) signature) m)
     | inl _ =>
         signer_passthrough callback len sig_max_len m = (inr (-1), m)
     end) /\
  (exists z, fst (signer_passthrough callback len sig_max_len m) = inr z).
Proof.
  destruct m as [e d sg].
  assert (Hnull : d = None \/ sg = None ->
                  signer_passthrough callback len sig_max_len (SignerMemory e d sg)
                  = (inr (-1), sg_set_errno EINVAL (SignerMemory e d sg))).
  { destruct d, sg; intros [H|H]; try discriminate; reflexivity. }
  assert (Hrun : forall data signature, d = Some data -> sg = Some signature ->
     match callback (take (Z.to_nat len) data) with
     | inr v =>
         if sig_max_len <? Z.of_nat (length v) then
           signer_passthrough callback len sig_max_len (SignerMemory e d sg)
           = (inr (-1), sg_set_errno ENOBUFS (SignerMemory e d sg))
         else
           signer_passthrough callback len sig_max_len (SignerMemory e d sg)
           = (inr (to_intptr (Z.of_nat (length v))),
              sg_set_signature (v ++ drop (length v) signature)
                (SignerMemory e d sg))
     | inl _ =>
         signer_passthrough callback len sig_max_len (SignerMemory e d sg)
         = (inr (-1), SignerMemory e d sg)
     end).
  { intros data signature -> ->.
    unfold signer_passthrough, bind, get, try_catch, lift_st, modify, ret.
    cbn [sg_data sg_signature].
    destruct (callback (take (Z.to_nat len) data)) as [ex|v]; simpl.
    - destruct (is_std_exception ex); reflexivity.
    - destruct (sig_max_len <? Z.of_nat (length v)); reflexivity. }
  split; [|split].
  - exact Hnull.
  - intros data signature Hd Hs. simpl in Hd, Hs.
    specialize (Hrun data signature Hd Hs).
    destruct (callback (take (Z.to_nat len) data)) as [ex|v]; [exact Hrun|].
    destruct (sig_max_len <? Z.of_nat (length v)); [exact Hrun|].
    intros Hmax. rewrite Hrun, to_intptr_small by lia. reflexivity.
  - destruct d as [data|]; [|rewrite Hnull by (left; reflexivity); eauto].
    destruct sg as [signature|]; [|rewrite Hnull by (right; reflexivity); eauto].
    specialize (Hrun data signature eq_refl eq_refl).
    destruct (callback (take (Z.to_nat len) data)) as [ex|v];
      [rewrite Hrun; eauto|].
    destruct (sig_max_len <? Z.of_nat (length v)); rewrite Hrun; eauto.
Qed.

Lemma signer_passthrough_contract_witness :
  signer_passthrough (fun d => inr (d ++ d)) 2 10
    (SignerMemory 0 (Some sample_data) (Some sample_buffer))
  = (inr 4, SignerMemory 0 (Some sample_data)
              (Some [Byte.x61; Byte.x62; Byte.x61; Byte.x62; Byte.x00])).
Proof.
  pose proof (signer_passthrough_contract (fun d => inr (d ++ d)) 2 10
                (SignerMemory 0 (Some sample_data) (Some sample_buffer)))
    as (_ & H & _).
  specialize (H sample_data sample_buffer eq_refl eq_refl).
  cbv beta iota in H. apply H. vm_compute. discriminate.
Defined.

(** * Properties of the handle-owning wrappers *)

(** Unfolding the monads and the foreign calls. *)
Ltac unfold_m :=
  unfold scoped, construct, finally, try_catch, in_world, this, set_this,
    throw_last, C2paException_last, c2pa_error, c2pa_free, c2pa_release_stream,
    c2pa_settings_new, c2pa_settings_update_from_string, c2pa_settings_set_value,
    c2pa_context_new, c2pa_context_builder_new, c2pa_context_builder_set_settings,
    c2pa_context_builder_build, c2pa_create_stream, c2pa_builder_from_context,
    c2pa_builder_with_definition, c2pa_builder_with_archive,
    c2pa_builder_set_no_embed, c2pa_builder_set_remote_url,
    c2pa_reader_from_context, c2pa_reader_with_stream, c2pa_signer_create,
    c2pa_signer_from_info, c2pa_builder_sign,
    factory, consuming, status, fresh, answer, give_back, log_call,
    bind, ret, throw, get, modify.

Ltac open_world w :=
  let lv := fresh "lv" in let sc := fresh "sc" in
  destruct w as [lv ? ? sc ? ? ? ? ? ? ?]; cbn in *; subst.

(** ** Consuming calls *)

(** C1: the code at a failing [c2pa_context_builder_build].  The exception
    leaves [create_context] with the consumed handle still in the object,
    where the claim has a null pointer: the destructor that runs next
    releases the handle a second time. *)
Theorem create_context_failure_keeps_handle (w : World) (h : N) (msg : string)
    (rest : list outcome) :
  h <> nullptr -> h ∈ live w -> script w = Fail msg :: rest ->
  exists w1,
    ContextBuilder.create_context (w, ContextBuilder.Make h)
    = (inl (C2paException "Failed to build context"),
       (w1, ContextBuilder.Make h)) /\
    (h ∉ live w1) /\
    stale w1 = stale w /\
    stale (fst (snd (ContextBuilder.destroy (w1, ContextBuilder.Make h))))
    = h :: stale w.
Proof.
  intros Hh Hl Hs. open_world w.
  destruct h as [|p]; [unfold nullptr in Hh; congruence|].
  unfold ContextBuilder.create_context, ContextBuilder.destroy,
    ContextBuilder.is_valid. unfold_m. cbn.
  rewrite (bool_decide_eq_true_2 _ Hl).
  assert (Hgone : N.pos p ∉ lv ∖ {[N.pos p]}).
  { intros H. apply elem_of_difference in H as [_ H]. apply H.
    apply elem_of_singleton. reflexivity. }
  eexists. split; [reflexivity|]. cbn.
  rewrite (bool_decide_eq_false_2 _ Hgone). repeat split. exact Hgone.
Qed.


Lemma create_context_failure_keeps_handle_witness :
  exists w1,
    ContextBuilder.create_context
      (world_with [7%N] [Fail "build failed"], ContextBuilder.Make 7)
    = (inl (C2paException "Failed to build context"),
       (w1, ContextBuilder.Make 7)) /\
    (7%N ∉ live w1) /\
    stale w1 = [] /\
    stale (fst (snd (ContextBuilder.destroy (w1, ContextBuilder.Make 7))))
    = [7%N].
Proof.
  apply (create_context_failure_keeps_handle
           (world_with [7%N] [Fail "build failed"]) 7 "build failed" []).
  - discriminate.
  - apply (bool_decide_unpack _). vm_compute. exact I.
  - reflexivity.
Defined.

Lemma Builder_destroy_null (w : World) :
  stale (fst (snd (Builder.destroy (w, Builder.Make nullptr)))) = stale w.
Proof. reflexivity. Qed.

(** The sibling consuming sites clear the field before they test the
    result: the exception leaves with a null handle, and the destructor
    releases nothing. *)
Lemma with_definition_failure_nulls (w : World) (h : N) (json msg : string)
    (rest : list outcome) :
  script w = Fail msg :: rest ->
  exists w1,
    Builder.with_definition json (w, Builder.Make h)
    = (inl (C2paException "Failed to set builder definition"),
       (w1, Builder.Make nullptr)).
Proof.
  intros Hs. open_world w.
  unfold Builder.with_definition. unfold_m. cbn.
  eexists; reflexivity.
Qed.

Lemma with_archive_failure_nulls (w : World) (h archive : N) (msg : string)
    (rest : list outcome) :
  script w = Ok :: Fail msg :: rest ->
  exists w1,
    Builder.with_archive archive (w, Builder.Make h)
    = (inl (C2paException msg), (w1, Builder.Make nullptr)).
Proof.
  intros Hs. open_world w.
  unfold Builder.with_archive, CppStream.new_istream, CppStream.destroy.
  unfold_m. cbn. eexists; reflexivity.
Qed.

Lemma Reader_attach_failure_nulls (w : World) (r : Reader.t) (format : string)
    (c : CppStream.t) (msg : string) (rest : list outcome) :
  script w = Fail msg :: rest ->
  exists w1 r1,
    Reader.attach format c (w, r) = (inl (C2paException msg), (w1, r1)) /\
    Reader.c2pa_reader r1 = nullptr.
Proof.
  intros Hs. open_world w. destruct r as [h o cs].
  unfold Reader.attach, Reader.set_c2pa_reader. unfold_m. cbn.
  eexists; eexists; split; reflexivity.
Qed.

(** ** Moved-from objects *)

(** C2, as stated, fails: [set_remote_url] on a moved-from Builder passes
    the null handle to the foreign call. *)
Lemma moved_from_Builder_forwards_null :
  Builder.builder (snd (Builder.move (Builder.Make 7))) = nullptr /\
  ~ raises_without_foreign_call
      (Builder.set_remote_url "https://example.com/manifest.c2pa")
      idle_world (snd (Builder.move (Builder.Make 7))).
Proof.
  split; [reflexivity|]. intros [_ H]. vm_compute in H. discriminate.
Qed.

Lemma moves_leave_null :
  (forall a, Settings.is_valid (snd (Settings.move a)) = false) /\
  (forall a, is_valid (snd (Context.move a)) = false /\
             c_context (snd (Context.move a)) = nullptr) /\
  (forall a, ContextBuilder.is_valid (snd (ContextBuilder.move a)) = false) /\
  (forall a, Reader.c2pa_reader (snd (Reader.move a)) = nullptr) /\
  (forall a, Builder.builder (snd (Builder.move a)) = nullptr) /\
  (forall a, Signer.signer (snd (Signer.move a)) = nullptr).
Proof. repeat split. Qed.

Lemma move_assignments_leave_null (w : World) :
  (forall b a, Settings.is_valid
                 (snd (snd (snd (Settings.move_assign (w, (b, a)))))) = false) /\
  (forall b a, is_valid
                 (snd (snd (snd (Context.move_assign (w, (b, a)))))) = false) /\
  (forall b a, ContextBuilder.is_valid
                 (snd (snd (snd (ContextBuilder.move_assign (w, (b, a)))))) = false) /\
  (forall b a, Reader.c2pa_reader
                 (snd (snd (snd (Reader.move_assign (w, (b, a)))))) = nullptr) /\
  (forall b a, Builder.builder
                 (snd (snd (snd (Builder.move_assign (w, (b, a)))))) = nullptr) /\
  (forall b a, Signer.signer
                 (snd (snd (snd (Signer.move_assign (w, (b, a)))))) = nullptr).
Proof.
  repeat split; intros b a.
  - destruct b as [[|p]]; reflexivity.
  - destruct b as [[|p]]; reflexivity.
  - destruct b as [[|p]]; reflexivity.
  - destruct b as [[|p] o [[[|c]]|]]; reflexivity.
  - destruct b as [[|p]]; reflexivity.
  - destruct b as [[|p]]; reflexivity.
Qed.

Lemma Settings_refuses (w : World) (a : Settings.t) (x y : string) :
  Settings.is_valid a = false ->
  refuses (Settings.set x y) "Settings object is invalid" w a /\
  refuses (Settings.update x y) "Settings object is invalid" w a.
Proof.
  destruct a as [[|p]]; [|discriminate]. intros _.
  destruct w; split; reflexivity.
Qed.

Lemma ContextBuilder_refuses (w : World) (a : ContextBuilder.t)
    (settings : Settings.t) (json : string) (settings_path : path)
    (content : option string) :
  ContextBuilder.is_valid a = false ->
  refuses (ContextBuilder.with_settings settings)
    "ContextBuilder is invalid (moved from)" w a /\
  refuses (ContextBuilder.with_json json)
    "ContextBuilder is invalid (moved from)" w a /\
  refuses (ContextBuilder.with_json_settings_file settings_path content)
    "ContextBuilder is invalid (moved from)" w a /\
  refuses ContextBuilder.create_context
    "ContextBuilder is invalid (moved from)" w a.
Proof.
  destruct a as [[|p]]; [|discriminate]. intros _.
  destruct w; repeat split; reflexivity.
Qed.

Lemma invalid_Context_rejected (w : World) (a : Context.t)
    (json format : string) (source_path : path) (stream : N) :
  is_valid a = false ->
  Builder.from_context a w
  = (inl (C2paException "Invalid Context provider IContextProvider"), w) /\
  Builder.from_definition a json w
  = (inl (C2paException "Invalid Context provider IContextProvider"), w) /\
  Reader.from_stream a format stream w
  = (inl (C2paException "Invalid Context provider IContextProvider"), w) /\
  Reader.from_path a source_path stream w
  = (inl (C2paException "Invalid Context provider IContextProvider"), w).
Proof.
  destruct a as [[|p]]; [|discriminate]. intros _.
  destruct w; repeat split; reflexivity.
Qed.

Lemma Builder_forwards_null (w : World) (url : string) :
  calls (fst (snd (Builder.set_no_embed (w, Builder.Make nullptr))))
  = Call "c2pa_builder_set_no_embed" [nullptr] :: calls w /\
  Call "c2pa_builder_set_remote_url" [nullptr]
  ∈ calls (fst (snd (Builder.set_remote_url url (w, Builder.Make nullptr)))).
Proof.
  split; [reflexivity|].
  destruct w as [lv nx le sc cl st pl rd wr ex cd].
  unfold Builder.set_remote_url. unfold_m. cbn.
  destruct sc as [|[|msg] rest]; cbn; set_solver.
Qed.

(** C2, amended: after a move construction or a move assignment the source
    holds a null handle, for the six classes, and [is_valid] is false where
    the class has it.  On such an object [Settings::set] and [update], and
    the four operations of ContextBuilder, raise [C2paException] and do
    nothing else; a Context in that state is turned down by the
    constructors of Builder and Reader before any foreign call.  The
    operations of Builder have no such test: [set_no_embed] and
    [set_remote_url] pass the null handle on. *)
Theorem moved_from_objects (w : World) :
  ((forall a, Settings.is_valid (snd (Settings.move a)) = false) /\
   (forall a, is_valid (snd (Context.move a)) = false /\
              c_context (snd (Context.move a)) = nullptr) /\
   (forall a, ContextBuilder.is_valid (snd (ContextBuilder.move a)) = false) /\
   (forall a, Reader.c2pa_reader (snd (Reader.move a)) = nullptr) /\
   (forall a, Builder.builder (snd (Builder.move a)) = nullptr) /\
   (forall a, Signer.signer (snd (Signer.move a)) = nullptr)) /\
  ((forall b a, Settings.is_valid
                  (snd (snd (snd (Settings.move_assign (w, (b, a)))))) = false) /\
   (forall b a, is_valid
                  (snd (snd (snd (Context.move_assign (w, (b, a)))))) = false) /\
   (forall b a, ContextBuilder.is_valid
                  (snd (snd (snd (ContextBuilder.move_assign (w, (b, a)))))) = false) /\
   (forall b a, Reader.c2pa_reader
                  (snd (snd (snd (Reader.move_assign (w, (b, a)))))) = nullptr) /\
   (forall b a, Builder.builder
                  (snd (snd (snd (Builder.move_assign (w, (b, a)))))) = nullptr) /\
   (forall b a, Signer.signer
                  (snd (snd (snd (Signer.move_assign (w, (b, a)))))) = nullptr)) /\
  (forall (a : Settings.t) x y,
     Settings.is_valid a = false ->
     refuses (Settings.set x y) "Settings object is invalid" w a /\
     refuses (Settings.update x y) "Settings object is invalid" w a) /\
  (forall (a : ContextBuilder.t) settings json settings_path content,
     ContextBuilder.is_valid a = false ->
     refuses (ContextBuilder.with_settings settings)
       "ContextBuilder is invalid (moved from)" w a /\
     refuses (ContextBuilder.with_json json)
       "ContextBuilder is invalid (moved from)" w a /\
     refuses (ContextBuilder.with_json_settings_file settings_path content)
       "ContextBuilder is invalid (moved from)" w a /\
     refuses ContextBuilder.create_context
       "ContextBuilder is invalid (moved from)" w a) /\
  (forall (a : Context.t) json format source_path stream,
     is_valid a = false ->
     Builder.from_context a w
     = (inl (C2paException "Invalid Context provider IContextProvider"), w) /\
     Builder.from_definition a json w
     = (inl (C2paException "Invalid Context provider IContextProvider"), w) /\
     Reader.from_stream a format stream w
     = (inl (C2paException "Invalid Context provider IContextProvider"), w) /\
     Reader.from_path a source_path stream w
     = (inl (C2paException "Invalid Context provider IContextProvider"), w)) /\
  (forall url,
     calls (fst (snd (Builder.set_no_embed (w, Builder.Make nullptr))))
     = Call "c2pa_builder_set_no_embed" [nullptr] :: calls w /\
     Call "c2pa_builder_set_remote_url" [nullptr]
     ∈ calls (fst (snd (Builder.set_remote_url url (w, Builder.Make nullptr))))).
Proof.
  split; [exact moves_leave_null|].
  split; [exact (move_assignments_leave_null w)|].
  split; [intros; apply Settings_refuses; assumption|].
  split; [intros; apply ContextBuilder_refuses; assumption|].
  split; [intros; apply invalid_Context_rejected; assumption|].
  intros. apply Builder_forwards_null.
Qed.

Lemma moved_from_objects_witness :
  refuses (Settings.set "verify.verify_after_sign" "true")
    "Settings object is invalid" idle_world (snd (Settings.move (Settings.Make 7))) /\
  refuses ContextBuilder.create_context
    "ContextBuilder is invalid (moved from)" idle_world
    (snd (ContextBuilder.move (ContextBuilder.Make 7))) /\
  Builder.from_context (snd (Context.move (Context.Make 7))) idle_world
  = (inl (C2paException "Invalid Context provider IContextProvider"), idle_world).
Proof.
  destruct (moved_from_objects idle_world) as (_ & _ & Hs & Hb & Hc & _).
  split; [|split].
  - apply (Hs (snd (Settings.move (Settings.Make 7)))). reflexivity.
  - apply (Hb (snd (ContextBuilder.move (ContextBuilder.Make 7)))
              (Settings.Make 0) "" (Path "" "" "") None). reflexivity.
  - apply (Hc (snd (Context.move (Context.Make 7))) "" "" (Path "" "" "") 0%N).
    reflexivity.
Defined.

(** ** Constructors *)


(** Following the engine's answers, one case per answer. *)
Ltac step_script :=
  repeat match goal with
    | |- context [match ?sc with [] => _ | _ :: _ => _ end] =>
        is_var sc; destruct sc as [|[|?] ?]; cbn
    end.

Ltac unfold_ctors :=
  unfold Settings.new, Settings.from_string, Context.new, Context.from_settings,
    Context.from_json, Context.from_ptr, ContextBuilder.new,
    Builder.from_context, Builder.ctor_context, Builder.from_definition,
    Builder.ctor_definition, Reader.from_stream, Reader.ctor_stream,
    Reader.from_path, Reader.ctor_path, Reader.attach, Reader.set_c2pa_reader,
    Reader.set_cpp_stream, Reader.set_owned_stream, Reader.destroy_members,
    CppStream.new_istream, CppStream.new_ostream, CppStream.new_iostream,
    CppStream.destroy, Settings.is_valid, Settings.c_settings.






(** The two Signer constructors make no test: when the factory call returns
    null they yield an object that holds the null handle. *)
Lemma Signer_constructed_with_null (w : World) (callback : SignerFunc)
    (alg certs key tsa msg : string) (rest : list outcome) :
  script w = Fail msg :: rest ->
  fst (Signer.from_callback callback alg certs tsa w)
  = inr (Signer.Make nullptr) /\
  fst (Signer.from_info alg certs key (Some tsa) w) = inr (Signer.Make nullptr).
Proof.
  intros Hs. open_world w. split; reflexivity.
Qed.



(** ** Exception types *)

(** C9: the code at a file that does not open.  The path overload of
    [Builder::sign] raises [std::runtime_error] when the destination cannot
    be opened, and the path constructor of Reader raises
    [std::system_error] when the source cannot, where the claim has the one
    exception type [C2paException]. *)
Theorem file_open_failures_are_not_C2paException (w : World) :
  (forall (b : Builder.t) source_path dest_path source dest signer,
     readable w (path_string source_path) = true ->
     exists_ w (parent_path dest_path) = true ->
     writable w (path_string dest_path) = false ->
     Builder.sign_path source_path dest_path source dest signer (w, b)
     = (inl (std_runtime_error
               ("Failed to open destination file: " ++ path_string dest_path)),
        (w, b))) /\
  (forall (c : Context.t) source_path stream,
     is_valid c = true ->
     script w = [] ->
     readable w (path_string source_path) = false ->
     fst (Reader.from_path c source_path stream w)
     = inl (std_system_error
              ("Failed to open file: " ++ path_string source_path))).
Proof.
  split.
  - intros b source_path dest_path source dest signer Hr He Hw.
    unfold Builder.sign_path, open_file_binary_ifstream. unfold_m. cbn.
    rewrite Hr. cbn. rewrite He. cbn. rewrite Hw. cbn. destruct w; reflexivity.
  - intros c source_path stream Hv Hs Hr. open_world w.
    destruct c as [[|p]]; [discriminate|].
    unfold Reader.from_path, Reader.ctor_path, Reader.set_c2pa_reader,
      Reader.set_owned_stream, Reader.destroy_members. unfold_m. cbn.
    rewrite Hr. cbn. reflexivity.
Qed.

Lemma file_open_failures_are_not_C2paException_witness :
  Builder.sign_path (jpeg "in" "C") (jpeg "out" "C_signed") 1 2 (Signer.Make 9)
    (read_only_world, Builder.Make 7)
  = (inl (std_runtime_error "Failed to open destination file: out/C_signed.jpg"),
     (read_only_world, Builder.Make 7)) /\
  is_C2paException
    (std_runtime_error "Failed to open destination file: out/C_signed.jpg")
  = false.
Proof.
  split; [|reflexivity].
  apply (file_open_failures_are_not_C2paException read_only_world); reflexivity.
Defined.

(** * Further properties of the stream callbacks *)

(** ** Reading *)

(** What the read callback does on a good stream: it obtains the first
    [size] of the remaining characters, stores them at the front of the
    buffer, advances the get position by their number, and sets eofbit and
    failbit when they are fewer than [size]. *)
Lemma stream_reader_good (size e : Z) (s : ios) (buffer : list Byte.byte) :
  ios_good s = true -> fault s = false -> 0 < size ->
  let got := take (Z.to_nat size) (remaining s) in
  let k := Z.of_nat (length got) in
  let s1 := set_gcount k (set_gpos (gpos s + k) (set_gcount 0 s)) in
  stream_reader size (entered e s buffer)
  = (k, entered e (if k <? size then setstate_eof_fail s1 else s1)
          (got ++ drop (length got) buffer)).
Proof.
  intros Hg Hf Hs. cbv zeta.
  destruct (good_flags s Hg) as (Hb & Hfl & He).
  destruct s as [bb fb eb gc kind ch g p fl]. simpl in *. subst.
  unfold stream_reader, entered, st_bind, st_get. cbn [sm_context sm_buffer].
  destruct (size <? 0) eqn:E1; [apply Z.ltb_lt in E1; lia|].
  destruct (size =? 0) eqn:E2; [apply Z.eqb_eq in E2; lia|].
  cbn. unfold remaining. cbn.
  destruct (Z.of_nat (length (take (Z.to_nat size) (drop (Z.to_nat g) ch))) <? size);
    reflexivity.
Qed.

(** At the end of the stream the read callback returns 0 and changes
    neither errno nor the buffer; the stream stays at its end. *)
Lemma stream_reader_at_end (size e : Z) (s : ios) (buffer : list Byte.byte) :
  at_end s -> 0 <= size ->
  exists s', stream_reader size (entered e s buffer) = (0, entered e s' buffer) /\
             at_end s' /\ chars s' = chars s /\ gpos s' = gpos s.
Proof.
  intros (Hb & Hf & He) Hs.
  destruct s as [bb fb eb gc kind ch g p fl]. simpl in *. subst.
  unfold stream_reader, entered, st_bind, st_get. cbn [sm_context sm_buffer].
  destruct (size <? 0) eqn:E1; [apply Z.ltb_lt in E1; lia|].
  destruct (size =? 0) eqn:E2.
  - eexists. split; [reflexivity|]. repeat split.
  - cbn. eexists. split; [reflexivity|]. repeat split.
Qed.

Lemma read_each_at_end (sizes : list Z) (e : Z) (s : ios)
    (buffer : list Byte.byte) :
  at_end s -> Forall (fun size => 0 <= size) sizes ->
  exists s', read_each sizes (entered e s buffer)
             = (map (fun _ => 0) sizes, entered e s' buffer) /\
             at_end s' /\ chars s' = chars s /\ gpos s' = gpos s.
Proof.
  intros Hend Hall. revert s Hend.
  induction Hall as [|size rest Hsize _ IH]; intros s Hend.
  - exists s. repeat split; apply Hend.
  - destruct (stream_reader_at_end size e s buffer Hend Hsize)
      as (s1 & E1 & Hend1 & Hc1 & Hg1).
    destruct (IH s1 Hend1) as (s2 & E2 & Hend2 & Hc2 & Hg2).
    exists s2. cbn [read_each map]. unfold st_bind at 1. rewrite E1.
    unfold st_bind at 1. rewrite E2. unfold st_ret.
    repeat split; try apply Hend2; congruence.
Qed.

(** X1: a read that asks for more than the stream still holds returns the
    number of characters that were left, stored at the front of the buffer;
    every read after it, of whatever sizes that are not negative, returns 0
    and changes neither the buffer nor errno: the end of the stream is not
    an error and is reported again and again. *)
Theorem reads_at_end_of_stream (size e : Z) (s : ios)
    (buffer : list Byte.byte) (sizes : list Z) :
  ios_good s = true -> fault s = false ->
  Z.of_nat (length (remaining s)) < size ->
  Forall (fun size' => 0 <= size') sizes ->
  let first := stream_reader size (entered e s buffer) in
  fst first = Z.of_nat (length (remaining s)) /\
  sm_buffer (snd first)
  = Some (remaining s ++ drop (length (remaining s)) buffer) /\
  sm_errno (snd first) = e /\
  fst (read_each sizes (snd first)) = map (fun _ => 0) sizes /\
  sm_buffer (snd (read_each sizes (snd first))) = sm_buffer (snd first) /\
  sm_errno (snd (read_each sizes (snd first))) = e.
Proof.
  intros Hg Hf Hshort Hall. cbv zeta.
  assert (Hs : 0 < size) by lia.
  rewrite (stream_reader_good size e s buffer Hg Hf Hs).
  assert (Etake : take (Z.to_nat size) (remaining s) = remaining s).
  { apply take_ge. lia. }
  rewrite Etake.
  destruct (Z.of_nat (length (remaining s)) <? size) eqn:E;
    [|apply Z.ltb_ge in E; lia].
  cbn [fst snd].
  set (s1 := setstate_eof_fail _).
  assert (Hend : at_end s1).
  { destruct (good_flags s Hg) as (Hb & _). repeat split. exact Hb. }
  destruct (read_each_at_end sizes e s1
              (remaining s ++ drop (length (remaining s)) buffer) Hend Hall)
    as (s2 & E2 & _).
  rewrite E2. repeat split.
Qed.

Lemma reads_at_end_of_stream_witness :
  fst (stream_reader 5 (entered 0 (stream_over sample_data) sample_buffer)) = 3 /\
  fst (read_each [5; 1; 0]
         (snd (stream_reader 5 (entered 0 (stream_over sample_data) sample_buffer))))
  = [0; 0; 0].
Proof.
  destruct (reads_at_end_of_stream 5 0 (stream_over sample_data) sample_buffer
              [5; 1; 0] eq_refl eq_refl ltac:(vm_compute; reflexivity)
              ltac:(repeat constructor; lia))
    as (H1 & _ & _ & H2 & _).
  split; [exact H1 | exact H2].
Defined.

(** X2: reads follow one another.  Two reads of [a] and then [b]
    characters from a good stream obtain, between them, what one read of
    [a + b] characters obtains: the next [a + b] characters of the stream,
    or all that is left when that is less.  Each call returns the number of
    characters it stored at the front of its buffer. *)
Theorem consecutive_reads (a b e : Z) (s : ios) (buffer1 buffer2 : list Byte.byte) :
  ios_good s = true -> fault s = false -> 0 <= gpos s -> 0 < a -> 0 < b ->
  let first := stream_reader a (entered e s buffer1) in
  let second := stream_reader b (sm_set_buffer buffer2 (snd first)) in
  exists got1 got2,
    fst first = Z.of_nat (length got1) /\
    sm_buffer (snd first) = Some (got1 ++ drop (length got1) buffer1) /\
    fst second = Z.of_nat (length got2) /\
    sm_buffer (snd second) = Some (got2 ++ drop (length got2) buffer2) /\
    got1 ++ got2 = take (Z.to_nat (a + b)) (remaining s).
Proof.
  intros Hg Hf Hpos Ha Hb. cbv zeta.
  destruct (good_flags s Hg) as (Hbad & Hfail & Heof).
  rewrite (stream_reader_good a e s buffer1 Hg Hf Ha). cbn [fst snd].
  set (got1 := take (Z.to_nat a) (remaining s)).
  set (s1 := set_gcount _ _).
  destruct (Z.of_nat (length got1) <? a) eqn:E.
  - apply Z.ltb_lt in E.
    assert (Hshort : (length (remaining s) < Z.to_nat a)%nat).
    { subst got1. rewrite length_take in E. lia. }
    assert (E1 : got1 = remaining s) by (apply take_ge; lia).
    assert (Hend : at_end (setstate_eof_fail s1)) by (repeat split; exact Hbad).
    destruct (stream_reader_at_end b e (setstate_eof_fail s1) buffer2 Hend
                ltac:(lia)) as (s2 & E2 & _).
    exists got1, []. unfold sm_set_buffer, entered in *.
    cbn [sm_errno sm_context sm_buffer]. rewrite E2. cbn [fst snd sm_buffer].
    repeat split. rewrite app_nil_r, E1. symmetry. apply take_ge. lia.
  - apply Z.ltb_ge in E.
    assert (Hlen : length got1 = Z.to_nat a).
    { subst got1. rewrite length_take in *. lia. }
    assert (Hg1 : ios_good s1 = true).
    { destruct s as [bb fb eb gc kind ch g p fl]. simpl in *. subst. reflexivity. }
    assert (Hf1 : fault s1 = false) by exact Hf.
    assert (Hrem : remaining s1 = drop (Z.to_nat a) (remaining s)).
    { unfold remaining. change (chars s1) with (chars s).
      change (gpos s1) with (gpos s + Z.of_nat (length got1)).
      rewrite drop_drop. f_equal. lia. }
    exists got1, (take (Z.to_nat b) (remaining s1)).
    unfold sm_set_buffer, entered. cbn [sm_errno sm_context sm_buffer].
    pose proof (stream_reader_good b e s1 buffer2 Hg1 Hf1 Hb) as E2.
    cbv zeta in E2. unfold entered in E2. rewrite E2. cbn [fst snd sm_buffer].
    repeat split.
    rewrite Hrem. subst got1.
    replace (Z.to_nat (a + b)) with (Z.to_nat a + Z.to_nat b)%nat by lia.
    apply take_take_drop.
Qed.

Lemma consecutive_reads_witness :
  exists got1 got2,
    fst (stream_reader 2 (entered 0 (stream_over sample_data) sample_buffer))
    = Z.of_nat (length got1) /\
    got1 ++ got2 = sample_data.
Proof.
  destruct (consecutive_reads 2 4 0 (stream_over sample_data) sample_buffer
              sample_buffer eq_refl eq_refl ltac:(simpl; lia) ltac:(lia)
              ltac:(lia)) as (got1 & got2 & H1 & _ & _ & _ & H2).
  exists got1, got2. split; [exact H1 | exact H2].
Defined.

(** ** Writing *)

(** Output changes neither the flags, nor the kind of buffer, nor the
    device. *)
Lemma put_chars_flags data s :
  badbit (put_chars data s) = badbit s /\
  failbit (put_chars data s) = failbit s /\
  eofbit (put_chars data s) = eofbit s /\
  fault (put_chars data s) = fault s /\
  rdbuf (put_chars data s) = rdbuf s.
Proof.
  destruct s as [bb fb eb gc kind ch g p fl].
  unfold put_chars, set_pput. destruct kind; repeat split.
Qed.

Lemma put_chars_chars data s :
  chars (put_chars data s)
  = take (Z.to_nat (pput s)) (chars s)
    ++ replicate (Z.to_nat (pput s) - length (chars s)) Byte.x00
    ++ data ++ drop (Z.to_nat (pput s) + length data) (chars s).
Proof.
  destruct s as [bb fb eb gc kind ch g p fl].
  unfold put_chars, set_pput. destruct kind; reflexivity.
Qed.

(** The characters stored are found again at the position they were put
    at. *)
Lemma put_chars_found data s :
  0 <= pput s ->
  take (length data) (drop (Z.to_nat (pput s)) (chars (put_chars data s))) = data.
Proof.
  intros Hp. rewrite put_chars_chars. rewrite app_assoc.
  rewrite drop_app_length'.
  - apply take_app_length.
  - rewrite length_app, length_take, length_replicate. lia.
Qed.

Lemma put_chars_size data s :
  0 <= pput s -> pput s <= size_of (put_chars data s).
Proof.
  intros Hp. unfold size_of. rewrite put_chars_chars.
  rewrite !length_app, length_take, length_replicate. lia.
Qed.

(** What the write callback does on a good stream whose device works: it
    stores the first [size] bytes of the buffer at the put position and
    returns [size]. *)
Lemma stream_writer_good (size e : Z) (s : ios) (data : list Byte.byte) :
  ios_good s = true -> fault s = false ->
  0 < size -> size <= Z.of_nat (length data) ->
  stream_writer size (entered e s data)
  = Some (size, entered e (put_chars (take (Z.to_nat size) data) s) data).
Proof.
  intros Hg Hf Hs Hlen. destruct (good_flags s Hg) as (Hb & Hfl & He).
  unfold stream_writer, stream_op, entered. cbn [sm_context sm_buffer].
  unfold is_stream_usable, ios_bad. rewrite Hb. cbn [negb].
  unfold ostream_write. rewrite Hg, Hf.
  destruct (size =? 0) eqn:E0; [apply Z.eqb_eq in E0; lia|].
  destruct (size <? 0) eqn:E1; [apply Z.ltb_lt in E1; lia|].
  destruct (Z.of_nat (length data) <? size) eqn:E2; [apply Z.ltb_lt in E2; lia|].
  cbn [mbind option_bind].
  destruct (put_chars_flags (take (Z.to_nat size) data) s) as (Hb' & Hf' & _).
  unfold ios_fail, ios_bad. rewrite Hb', Hf', Hb, Hfl. reflexivity.
Qed.

(** X3: what the write callback of CppIOStream stored is read back.  On a
    good stream, writing [size] bytes returns [size]; seeking from Start to
    the position the write began at returns that position; and reading
    [size] bytes there returns [size] and fills the front of the buffer
    with the bytes that were written.  errno is not touched. *)
Theorem write_seek_read_round_trip (size e : Z) (s : ios)
    (data buffer : list Byte.byte) :
  ios_good s = true -> fault s = false -> 0 <= pput s ->
  0 < size -> size <= Z.of_nat (length data) ->
  exists m1 m2 m3,
    CppIOStream.writer size (entered e s data) = Some (size, m1) /\
    CppIOStream.seeker (pput s) Start m1 = (pput s, m2) /\
    CppIOStream.reader size (sm_set_buffer buffer m2) = (size, m3) /\
    sm_buffer m3
    = Some (take (Z.to_nat size) data ++ drop (Z.to_nat size) buffer) /\
    sm_errno m3 = e.
Proof.
  intros Hg Hf Hp Hs Hlen.
  set (d := take (Z.to_nat size) data).
  assert (Hd : length d = Z.to_nat size) by (subst d; rewrite length_take; lia).
  set (s1 := put_chars d s).
  destruct (put_chars_flags d s) as (Hb1 & _ & _ & Hf1 & Hk1). fold s1 in Hb1, Hf1, Hk1.
  destruct (good_flags s Hg) as (Hb & _).
  assert (Hreach : reachable s1 (pput s)).
  { split; [exact Hp | intros _; apply put_chars_size; exact Hp]. }
  destruct (seek_after_soft_failure std_iostream (pput s) Start
              (entered e s1 data) s1 eq_refl ltac:(congruence) ltac:(congruence)
              ltac:(intros _ _; discriminate)
              ltac:(split; exact Hreach)) as [Eseek Hg2].
  set (s2 := repositioned std_iostream (pput s) Start s1) in *.
  assert (Hpos2 : gpos s2 = pput s /\ chars s2 = chars s1 /\ fault s2 = false).
  { subst s2. unfold repositioned, seek_target, set_pput. cbn.
    destruct (rdbuf s1); cbn; repeat split; congruence. }
  destruct Hpos2 as (Hg2pos & Hc2 & Hf2).
  exists (entered e s1 data), (entered e s2 data). eexists.
  split; [exact (stream_writer_good size e s data Hg Hf Hs Hlen)|].
  split.
  { change (CppIOStream.seeker (pput s) Start (entered e s1 data))
      with (adapter_seeker std_iostream (pput s) Start (entered e s1 data)).
    rewrite Eseek. f_equal. subst s2.
    unfold reported, repositioned. rewrite pput_set_pput. reflexivity. }
  unfold CppIOStream.reader, sm_set_buffer, entered.
  cbn [sm_errno sm_context sm_buffer].
  pose proof (stream_reader_good size e s2 buffer Hg2 Hf2 Hs) as E.
  cbv zeta in E. unfold entered in E. rewrite E. clear E.
  assert (Egot : take (Z.to_nat size) (remaining s2) = d).
  { unfold remaining. rewrite Hg2pos, Hc2, <- Hd. apply put_chars_found. exact Hp. }
  rewrite Egot, Hd. cbn [sm_buffer sm_errno].
  split; [f_equal; lia|]. split; reflexivity.
Qed.

Lemma write_seek_read_round_trip_witness :
  exists m1 m2 m3,
    CppIOStream.writer 2 (entered 0 (stream_over sample_data) [Byte.x78; Byte.x79])
    = Some (2, m1) /\
    CppIOStream.seeker 0 Start m1 = (0, m2) /\
    CppIOStream.reader 2 (sm_set_buffer sample_buffer m2) = (2, m3) /\
    sm_buffer m3
    = Some [Byte.x78; Byte.x79; Byte.x00; Byte.x00; Byte.x00].
Proof.
  destruct (write_seek_read_round_trip 2 0 (stream_over sample_data)
              [Byte.x78; Byte.x79] sample_buffer eq_refl eq_refl
              ltac:(vm_compute; discriminate) ltac:(lia)
              ltac:(vm_compute; discriminate))
    as (m1 & m2 & m3 & H1 & H2 & H3 & H4 & _).
  exists m1, m2, m3. repeat split; assumption.
Defined.

(** X4: the write and flush callbacks do not clear the flags.  On a stream
    whose failbit is set (as a read that hit the end leaves it) they return
    -1 with errno EINVAL, whatever the buffer and the size, and neither
    write nor change the stream; the seek callback is the one that clears
    the flags. *)
Theorem output_refused_after_soft_failure (size e : Z) (s : ios)
    (buffer : option (list Byte.byte)) :
  badbit s = false -> failbit s = true ->
  let m := StreamMemory e (Some s) buffer in
  CppOStream.writer size m = Some (-1, sm_set_errno EINVAL m) /\
  CppIOStream.writer size m = Some (-1, sm_set_errno EINVAL m) /\
  CppOStream.flusher m = Some (-1, sm_set_errno EINVAL m) /\
  CppIOStream.flusher m = Some (-1, sm_set_errno EINVAL m).
Proof.
  intros Hb Hf. cbv zeta.
  assert (Hng : ios_good s = false).
  { unfold ios_good. rewrite Hf, Hb. reflexivity. }
  unfold CppOStream.writer, CppIOStream.writer, CppOStream.flusher,
    CppIOStream.flusher, stream_writer, stream_flusher, stream_op.
  cbn [sm_context sm_buffer]. unfold is_stream_usable, ios_bad. rewrite Hb.
  cbn [negb]. unfold ostream_write, ostream_flush, output_refused.
  rewrite Hng, Hb. cbn [mbind option_bind].
  unfold ios_fail. rewrite Hf. cbn [orb]. repeat split.
Qed.

Lemma output_refused_after_soft_failure_witness :
  CppIOStream.writer 2 (StreamMemory 0 (Some stream_at_end) (Some sample_data))
  = Some (-1, StreamMemory EINVAL (Some stream_at_end) (Some sample_data)).
Proof.
  apply (output_refused_after_soft_failure 2 0 stream_at_end (Some sample_data));
    reflexivity.
Defined.

(** X5: a device failure is reported as EINVAL.  When the device fails
    under a write or a flush of a good stream, badbit is set and the
    callback returns -1 with errno EINVAL: the test of [fail()], which
    badbit makes true, comes before the test of [bad()].  So the write and
    flush callbacks never set errno to EIO on a stream that was usable when
    they were entered: they leave errno alone or return -1 with EINVAL. *)
Theorem device_failure_is_EINVAL (size e : Z) (s : ios) (data : list Byte.byte) :
  ios_good s = true -> fault s = true ->
  0 < size -> size <= Z.of_nat (length data) ->
  stream_writer size (entered e s data)
  = Some (-1, entered EINVAL (setstate_badbit s) data) /\
  stream_flusher (entered e s data)
  = Some (-1, entered EINVAL (setstate_badbit s) data) /\
  (forall op m r m',
     is_stream_usable (sm_context m) = true ->
     stream_op op m = Some (r, m') ->
     sm_errno m' = sm_errno m \/ (r = -1 /\ sm_errno m' = EINVAL)).
Proof.
  intros Hg Hf Hs Hlen. destruct (good_flags s Hg) as (Hb & Hfl & He).
  split; [|split].
  - unfold stream_writer, stream_op, entered. cbn [sm_context sm_buffer].
    unfold is_stream_usable, ios_bad. rewrite Hb. cbn [negb].
    unfold ostream_write. rewrite Hg, Hf.
    destruct (size =? 0) eqn:E0; [apply Z.eqb_eq in E0; lia|].
    destruct (size <? 0) eqn:E1; [apply Z.ltb_lt in E1; lia|].
    destruct (Z.of_nat (length data) <? size) eqn:E2; [apply Z.ltb_lt in E2; lia|].
    cbn [mbind option_bind].
    change (ios_fail (setstate_badbit s)) with (failbit s || true).
    rewrite orb_true_r. reflexivity.
  - unfold stream_flusher, stream_op, entered. cbn [sm_context].
    unfold is_stream_usable, ios_bad. rewrite Hb. cbn [negb].
    unfold ostream_flush. rewrite Hg, Hf.
    change (ios_fail (setstate_badbit s)) with (failbit s || true).
    rewrite orb_true_r. reflexivity.
  - intros op m r m' Hu. unfold stream_op.
    destruct (sm_context m) as [c|]; [|discriminate].
    rewrite Hu. cbn [negb].
    destruct (op c) as [[result c']|]; [|discriminate].
    unfold ios_fail, ios_bad.
    destruct (failbit c'), (badbit c'); cbn; intros [= <- <-];
      try (right; split; reflexivity).
    left. destruct m; reflexivity.
Qed.

Lemma device_failure_is_EINVAL_witness :
  stream_flusher
    (entered 0 (Ios false false false 0 filebuf sample_data 0 0 true) sample_data)
  = Some (-1, entered EINVAL
                (Ios true false false 0 filebuf sample_data 0 0 true) sample_data).
Proof.
  apply (device_failure_is_EINVAL 1 0
           (Ios false false false 0 filebuf sample_data 0 0 true) sample_data);
    [reflexivity | reflexivity | lia | vm_compute; discriminate].
Defined.

(** ** Seeking *)

(** X6: a seek that fails leaves its mark.  When the target of a seek of
    CppIStream is not a position the stream accepts, the callback returns
    -1 with errno EINVAL, the stream stays where it was, and failbit stays
    set: a read that follows returns -1 with errno EINVAL and reads
    nothing, where it would have read from the old position had the seek
    not been made.  A later seek to a position the stream accepts
    succeeds. *)
Theorem failed_seek_blocks_reads (offset size e : Z) (whence : C2paSeekMode)
    (s : ios) (buffer : list Byte.byte) :
  badbit s = false ->
  ~ reachable s (seek_target s (gpos s) offset whence) ->
  0 < size ->
  exists s1 s2,
    CppIStream.seeker offset whence (entered e s buffer)
    = (-1, entered EINVAL s1 buffer) /\
    gpos s1 = gpos s /\ chars s1 = chars s /\
    CppIStream.reader size (entered e s1 buffer)
    = (-1, entered EINVAL s2 buffer) /\
    gpos s2 = gpos s /\ chars s2 = chars s /\
    (forall offset' whence',
       fault s = false ->
       reachable s (seek_target s (gpos s) offset' whence') ->
       fst (CppIStream.seeker offset' whence' (entered EINVAL s2 buffer))
       = seek_target s (gpos s) offset' whence').
Proof.
  intros Hb Hun Hs.
  exists (setstate_failbit (ios_clear s)),
         (setstate_failbit (set_gcount 0 (setstate_failbit (ios_clear s)))).
  split.
  { change (CppIStream.seeker offset whence (entered e s buffer))
      with (adapter_seeker std_istream offset whence (entered e s buffer)).
    rewrite (adapter_seeker_usable std_istream offset whence
               (entered e s buffer) s eq_refl Hb).
    unfold seeker_result. change (gpos (ios_clear s)) with (gpos s).
    rewrite (pubseekoff_unreachable (ios_clear s) (gpos s) offset whence Hun).
    reflexivity. }
  split; [reflexivity|]. split; [reflexivity|].
  split.
  { unfold CppIStream.reader, stream_reader, entered, st_bind, st_get.
    cbn [sm_context sm_buffer].
    destruct (size <? 0) eqn:E1; [apply Z.ltb_lt in E1; lia|].
    destruct (size =? 0) eqn:E2; [apply Z.eqb_eq in E2; lia|].
    reflexivity. }
  split; [reflexivity|]. split; [reflexivity|].
  intros offset' whence' Hf Hr.
  set (s2 := setstate_failbit (set_gcount 0 (setstate_failbit (ios_clear s)))).
  destruct (seek_after_soft_failure std_istream offset' whence'
              (entered EINVAL s2 buffer) s2 eq_refl eq_refl Hf
              ltac:(intros; discriminate) Hr) as [E _].
  change (CppIStream.seeker offset' whence' (entered EINVAL s2 buffer))
    with (adapter_seeker std_istream offset' whence' (entered EINVAL s2 buffer)).
  rewrite E. reflexivity.
Qed.

Lemma failed_seek_blocks_reads_witness :
  exists s1 s2,
    CppIStream.seeker 4 Start (entered 0 (stream_over sample_data) sample_buffer)
    = (-1, entered EINVAL s1 sample_buffer) /\
    CppIStream.reader 1 (entered 0 s1 sample_buffer)
    = (-1, entered EINVAL s2 sample_buffer).
Proof.
  destruct (failed_seek_blocks_reads 4 1 0 Start (stream_over sample_data)
              sample_buffer eq_refl
              ltac:(intros [_ H]; specialize (H eq_refl); vm_compute in H;
                    apply H; reflexivity)
              ltac:(lia))
    as (s1 & s2 & H1 & _ & _ & H2 & _).
  exists s1, s2. split; [exact H1 | exact H2].
Defined.

(** * Further properties of the handle-owning wrappers *)

(** ** Handles taken and given back *)

Lemma fresh_handle_new w : fresh_handles w -> N.pos (next w) ∉ live w.
Proof. intros H Hin. apply H in Hin. lia. Qed.

Lemma fresh_handles_later w w' :
  fresh_handles w -> live w' = live w -> (next w <= next w')%positive ->
  fresh_handles w'.
Proof. intros H El Hn h Hin. rewrite El in Hin. apply H in Hin. lia. Qed.

Lemma fresh_handles_issued w w' :
  fresh_handles w -> live w' = {[N.pos (next w)]} ∪ live w ->
  next w' = Pos.succ (next w) -> fresh_handles w'.
Proof.
  intros H El En h Hin. rewrite El in Hin. rewrite En.
  apply elem_of_union in Hin as [Hin|Hin].
  - apply elem_of_singleton in Hin. subst. lia.
  - apply H in Hin. lia.
Qed.

Lemma issued_then_released (h : N) (l : gset N) : h ∉ l -> ({[h]} ∪ l) ∖ {[h]} = l.
Proof.
  intros H. apply set_eq. intros x.
  rewrite elem_of_difference, elem_of_union, elem_of_singleton.
  split; [intros [[->|Hx] Hn]; [congruence | exact Hx]|].
  intros Hx. split; [right; exact Hx | intros ->; exact (H Hx)].
Qed.

Section EffectLemmas.
Context {S : Type} (world : S -> World).

Lemma untouched_tidy {A} (c : M S A) : handles_untouched world c -> tidy world c.
Proof.
  intros H s _. destruct (H s) as (Hl & Hs & Hn).
  repeat split; [exact Hl | exact Hs | rewrite Hn; lia].
Qed.

Lemma untouched_ret {A} (a : A) : handles_untouched world (ret a).
Proof. intros s. repeat split. Qed.

Lemma untouched_throw {A} (e : exception) : handles_untouched world (@throw S A e).
Proof. intros s. repeat split. Qed.

Lemma untouched_get : handles_untouched world get.
Proof. intros s. repeat split. Qed.

Lemma untouched_bind {A B} (c : M S A) (k : A -> M S B) :
  handles_untouched world c -> (forall a, handles_untouched world (k a)) ->
  handles_untouched world (bind c k).
Proof.
  intros Hc Hk s. unfold bind. specialize (Hc s).
  destruct (c s) as [[e|a] s1]; [exact Hc|].
  specialize (Hk a s1). cbn [snd] in Hc.
  destruct Hc as (Hl & Hs & Hn). destruct Hk as (Hl' & Hs' & Hn').
  repeat split; congruence.
Qed.

Lemma tidy_ret {A} (a : A) : tidy world (ret a).
Proof. apply untouched_tidy, untouched_ret. Qed.

Lemma tidy_throw {A} (e : exception) : tidy world (@throw S A e).
Proof. apply untouched_tidy, untouched_throw. Qed.

Lemma tidy_bind {A B} (c : M S A) (k : A -> M S B) :
  tidy world c -> (forall a, tidy world (k a)) -> tidy world (bind c k).
Proof.
  intros Hc Hk s Hf. unfold bind. specialize (Hc s Hf).
  destruct (c s) as [[e|a] s1]; [exact Hc|]. cbn [snd] in Hc.
  destruct Hc as (Hl & Hs & Hn).
  destruct (Hk a s1 (fresh_handles_later _ _ Hf Hl Hn)) as (Hl' & Hs' & Hn').
  repeat split; [congruence | congruence | lia].
Qed.

End EffectLemmas.

(** The foreign calls that issue and take no handle. *)
Lemma untouched_log_call name handles :
  handles_untouched (fun w => w) (log_call name handles).
Proof. intros w. repeat split. Qed.

Ltac untouched_call :=
  intros w; unfold status, produce, written, c_string, bind, log_call, modify,
    answer, get, ret; cbn; destruct (script w) as [|[|?] ?]; repeat split.

Lemma untouched_status name handles : handles_untouched (fun w => w) (status name handles).
Proof. untouched_call. Qed.

Lemma untouched_produce name handles : handles_untouched (fun w => w) (produce name handles).
Proof. untouched_call. Qed.

Lemma untouched_written name handles : handles_untouched (fun w => w) (written name handles).
Proof. untouched_call. Qed.

Lemma untouched_c_string name handles : handles_untouched (fun w => w) (c_string name handles).
Proof. untouched_call. Qed.

Lemma untouched_c2pa_builder_sign b format source dest signer :
  handles_untouched (fun w => w) (c2pa_builder_sign b format source dest signer).
Proof.
  intros w. unfold c2pa_builder_sign, bind, log_call, modify, answer, get, ret.
  cbn. destruct (script w) as [|[|?] ?]; repeat split.
Qed.

Lemma untouched_throw_last {A} : handles_untouched (fun w => w) (@throw_last A).
Proof. intros w. repeat split. Qed.

Lemma untouched_to_byte_vector data size :
  handles_untouched (fun w => w) (to_byte_vector data size).
Proof.
  intros w. unfold to_byte_vector. destruct data as [bytes|]; [|repeat split].
  destruct (size <? 0); repeat split.
Qed.

Lemma untouched_c_string_to_string c_result :
  handles_untouched (fun w => w) (c_string_to_string c_result).
Proof. intros w. destruct c_result; repeat split. Qed.

Lemma untouched_open_ifstream p :
  handles_untouched (fun w => w) (open_file_binary_ifstream p).
Proof.
  intros w. unfold open_file_binary_ifstream, bind, get.
  destruct (readable w (path_string p)); repeat split.
Qed.

Lemma untouched_open_ofstream p :
  handles_untouched (fun w => w) (open_file_binary_ofstream p).
Proof.
  intros w. unfold open_file_binary_ofstream, bind, get.
  destruct (writable w (path_string p)); repeat split.
Qed.

(** Methods: the world is the first component of the state. *)
Lemma tidy_in_world {O A} (c : M World A) :
  tidy (fun w => w) c -> tidy (@fst World O) (in_world c).
Proof.
  intros H [w o] Hf. unfold in_world. cbn [fst snd] in *.
  specialize (H w Hf). destruct (c w) as [r w']. exact H.
Qed.

Lemma tidy_in_world_untouched {O A} (c : M World A) :
  handles_untouched (fun w => w) c -> tidy (@fst World O) (in_world c).
Proof. intros H. apply tidy_in_world, untouched_tidy, H. Qed.

Lemma tidy_this {O} : tidy (@fst World O) this.
Proof. intros s _. repeat split. cbn. lia. Qed.

Lemma tidy_set_this {O} (o : O) : tidy (@fst World O) (set_this o).
Proof. intros s _. repeat split. cbn. lia. Qed.

Lemma tidy_if {S A} (world : S -> World) (b : bool) (c1 c2 : M S A) :
  tidy world c1 -> tidy world c2 -> tidy world (if b then c1 else c2).
Proof. destruct b; auto. Qed.

(** The three adapters are built alike. *)
Ltac issue_stream :=
  intros w;
  unfold CppStream.new_istream, CppStream.new_ostream, CppStream.new_iostream,
    c2pa_create_stream, factory, fresh, bind, log_call, modify, answer, get,
    ret, throw; cbn;
  destruct (script w) as [|[|?] ?]; cbn; repeat split.

Lemma issues_istream stream : issues_stream (CppStream.new_istream stream).
Proof. issue_stream. Qed.

Lemma issues_ostream stream : issues_stream (CppStream.new_ostream stream).
Proof. issue_stream. Qed.

Lemma issues_iostream stream : issues_stream (CppStream.new_iostream stream).
Proof. issue_stream. Qed.

(** A local adapter: whatever the body does with the handles, as long as
    it gives back what it took, the adapter's handle is released once at
    scope exit, also when the body raises. *)
Lemma tidy_scoped {O A} (ctor : M World CppStream.t)
    (body : CppStream.t -> M (World * O) A) :
  issues_stream ctor ->
  (forall c, tidy fst (body c)) ->
  tidy fst (scoped ctor CppStream.destroy body).
Proof.
  intros Hctor Hbody [w o] Hf. cbn [fst] in Hf.
  unfold scoped, bind.
  assert (Ein : in_world ctor (w, o) = (fst (ctor w), (snd (ctor w), o))).
  { unfold in_world. cbn [fst snd]. destruct (ctor w); reflexivity. }
  rewrite Ein. clear Ein.
  specialize (Hctor w). destruct (ctor w) as [[e|c] w1]; cbn [fst snd].
  - cbn [fst snd]. destruct Hctor as (Hl & Hs & Hn).
    repeat split; [exact Hl | exact Hs | rewrite Hn; lia].
  - destruct Hctor as (Hc & Hl & Hs & Hn).
    assert (Hf1 : fresh_handles w1) by exact (fresh_handles_issued w w1 Hf Hl Hn).
    unfold finally. specialize (Hbody c (w1, o) Hf1).
    destruct (body c (w1, o)) as [r [w2 o2]]. cbn [fst snd] in Hbody.
    destruct Hbody as (Hl2 & Hs2 & Hn2).
    unfold in_world, CppStream.destroy, c2pa_release_stream, bind, log_call,
      modify, give_back, ret. cbn [fst snd]. rewrite Hc.
    change (N.pos (next w) =? nullptr)%N with false. cbn.
    rewrite Hl2, Hl.
    rewrite bool_decide_eq_true_2 by (apply elem_of_union_l, elem_of_singleton; reflexivity).
    rewrite issued_then_released by (apply fresh_handle_new, Hf).
    repeat split; [congruence | lia].
Qed.

Ltac untouched_tac :=
  repeat first
    [ apply untouched_status | apply untouched_produce | apply untouched_written
    | apply untouched_c_string | apply untouched_c2pa_builder_sign
    | apply untouched_throw_last | apply untouched_to_byte_vector
    | apply untouched_c_string_to_string | apply untouched_open_ifstream
    | apply untouched_open_ofstream | apply untouched_log_call
    | apply untouched_ret | apply untouched_throw | apply untouched_get
    | apply untouched_bind; [|intros ?] ].

Ltac tidy_tac :=
  repeat first
    [ match goal with
      | |- tidy _ (scoped _ _ _) =>
          apply tidy_scoped;
          [first [apply issues_istream | apply issues_ostream
                 | apply issues_iostream]
          |intros ?]
      end
    | apply tidy_bind; [|intros ?]
    | apply tidy_if
    | apply tidy_this | apply tidy_set_this | apply tidy_ret | apply tidy_throw
    | apply tidy_in_world_untouched; untouched_tac; fail
    | match goal with
      | |- tidy _ (match ?x with _ => _ end) => destruct x
      end ].

Create HintDb tidy.

Lemma tidy_add_resource_stream uri source :
  tidy fst (Builder.add_resource_stream uri source).
Proof. unfold Builder.add_resource_stream. tidy_tac. Qed.

Lemma tidy_add_ingredient_stream json format source :
  tidy fst (Builder.add_ingredient_stream json format source).
Proof. unfold Builder.add_ingredient_stream. tidy_tac. Qed.

Lemma tidy_to_archive_stream dest : tidy fst (Builder.to_archive_stream dest).
Proof. unfold Builder.to_archive_stream. tidy_tac. Qed.

Lemma tidy_sign_ostream format source dest signer :
  tidy fst (Builder.sign_ostream format source dest signer).
Proof. unfold Builder.sign_ostream. tidy_tac. Qed.

Lemma tidy_sign_iostream format source dest signer :
  tidy fst (Builder.sign_iostream format source dest signer).
Proof. unfold Builder.sign_iostream. tidy_tac. Qed.

Lemma tidy_sign_data_hashed_embeddable signer data_hash format asset :
  tidy fst (Builder.sign_data_hashed_embeddable signer data_hash format asset).
Proof. unfold Builder.sign_data_hashed_embeddable. tidy_tac. Qed.

Lemma tidy_get_resource_stream uri stream :
  tidy fst (Reader.get_resource_stream uri stream).
Proof. unfold Reader.get_resource_stream. tidy_tac. Qed.

#[local] Hint Resolve tidy_add_resource_stream tidy_add_ingredient_stream
  tidy_to_archive_stream tidy_sign_ostream tidy_sign_iostream
  tidy_sign_data_hashed_embeddable tidy_get_resource_stream : tidy.

(** ** Methods that leave the object alone *)

Lemma keeps_in_world {O A} (c : M World A) : keeps_this (@in_world O A c).
Proof. intros [w o]. unfold in_world. cbn. destruct (c w); reflexivity. Qed.

Lemma keeps_get_this {O} : keeps_this (@this O).
Proof. intros s. reflexivity. Qed.

Lemma keeps_ret {O A} (a : A) : keeps_this (@ret (World * O) A a).
Proof. intros s. reflexivity. Qed.

Lemma keeps_throw {O A} (e : exception) : keeps_this (@throw (World * O) A e).
Proof. intros s. reflexivity. Qed.

Lemma keeps_bind {O A B} (c : M (World * O) A) (k : A -> M (World * O) B) :
  keeps_this c -> (forall a, keeps_this (k a)) -> keeps_this (bind c k).
Proof.
  intros Hc Hk s. unfold bind. specialize (Hc s).
  destruct (c s) as [[e|a] s1]; [exact Hc|].
  rewrite (Hk a s1). exact Hc.
Qed.

Lemma keeps_finally {O A} (c : M (World * O) A) (cleanup : M (World * O) unit) :
  keeps_this c -> keeps_this cleanup -> keeps_this (finally c cleanup).
Proof.
  intros Hc Hk s. unfold finally. specialize (Hc s).
  destruct (c s) as [r s1]. specialize (Hk s1).
  destruct (cleanup s1) as [u s2]. cbn [snd] in *. congruence.
Qed.

Lemma keeps_if {O A} (b : bool) (c1 c2 : M (World * O) A) :
  keeps_this c1 -> keeps_this c2 -> keeps_this (if b then c1 else c2).
Proof. destruct b; auto. Qed.

Ltac keeps_tac :=
  unfold scoped;
  repeat first
    [ apply keeps_in_world | apply keeps_get_this | apply keeps_ret
    | apply keeps_throw | apply keeps_if
    | apply keeps_finally
    | apply keeps_bind; [|intros ?]
    | match goal with
      | |- keeps_this (match ?x with _ => _ end) => destruct x
      end ].

(** ** Exceptions raised *)

Lemma only_ret {S A} (a : A) : raises_C2paException_only (@ret S A a).
Proof. intros s e H. discriminate. Qed.

Lemma only_throw {S A} (message : string) :
  raises_C2paException_only (@throw S A (C2paException message)).
Proof. intros s e [= <-]. reflexivity. Qed.

Lemma only_get {S} : raises_C2paException_only (@get S).
Proof. intros s e H. discriminate. Qed.

Lemma only_this {O} : raises_C2paException_only (@this O).
Proof. intros s e H. discriminate. Qed.

Lemma only_set_this {O} (o : O) : raises_C2paException_only (set_this o).
Proof. intros s e H. discriminate. Qed.

Lemma only_bind {S A B} (c : M S A) (k : A -> M S B) :
  raises_C2paException_only c -> (forall a, raises_C2paException_only (k a)) ->
  raises_C2paException_only (bind c k).
Proof.
  intros Hc Hk s e. unfold bind. specialize (Hc s).
  destruct (c s) as [[e'|a] s1]; [intros [= <-]; apply Hc; reflexivity|].
  apply Hk.
Qed.

Lemma only_finally {S A} (c : M S A) (cleanup : M S unit) :
  raises_C2paException_only c -> raises_C2paException_only (finally c cleanup).
Proof.
  intros Hc s e. unfold finally. specialize (Hc s).
  destruct (c s) as [r s1]. destruct (cleanup s1) as [u s2]. exact (Hc e).
Qed.

Lemma only_in_world {O A} (c : M World A) :
  raises_C2paException_only c -> raises_C2paException_only (@in_world O A c).
Proof.
  intros Hc [w o] e. unfold in_world. cbn [fst snd]. specialize (Hc w).
  destruct (c w) as [r w']. exact (Hc e).
Qed.

Lemma only_modify {S} (f : S -> S) : raises_C2paException_only (modify f).
Proof. intros s e H. discriminate. Qed.

Lemma only_construct {O} (init : O) (body unwind : M (World * O) unit) :
  raises_C2paException_only body ->
  raises_C2paException_only (construct init body unwind).
Proof.
  intros Hb w e. unfold construct. specialize (Hb (w, init)).
  destruct (body (w, init)) as [[e'|u] [w' o]]; [|discriminate].
  intros [= <-]. apply Hb. reflexivity.
Qed.

(** The foreign calls return; they do not raise. *)
Ltac returns_call :=
  intros w e;
  unfold factory, consuming, status, produce, written, c_string,
    c2pa_builder_sign, c2pa_free, c2pa_release_stream, c2pa_error, fresh,
    give_back, bind, log_call, modify, answer, get, ret;
  cbn;
  repeat match goal with
    | |- context [match script ?w with _ => _ end] => destruct (script w); cbn
    | |- context [match ?o with Ok => _ | Fail _ => _ end] => destruct o; cbn
    | |- context [if ?b then _ else _] => destruct b; cbn
    end;
  intros H; discriminate H.

Lemma only_log_call name handles : raises_C2paException_only (log_call name handles).
Proof. returns_call. Qed.
Lemma only_factory name handles : raises_C2paException_only (factory name handles).
Proof. returns_call. Qed.
Lemma only_consuming name h others : raises_C2paException_only (consuming name h others).
Proof. returns_call. Qed.
Lemma only_status name handles : raises_C2paException_only (status name handles).
Proof. returns_call. Qed.
Lemma only_produce name handles : raises_C2paException_only (produce name handles).
Proof. returns_call. Qed.
Lemma only_written name handles : raises_C2paException_only (written name handles).
Proof. returns_call. Qed.
Lemma only_c_string name handles : raises_C2paException_only (c_string name handles).
Proof. returns_call. Qed.
Lemma only_c2pa_builder_sign b format source dest signer :
  raises_C2paException_only (c2pa_builder_sign b format source dest signer).
Proof. returns_call. Qed.
Lemma only_c2pa_free p : raises_C2paException_only (c2pa_free p).
Proof. returns_call. Qed.
Lemma only_c2pa_release_stream p : raises_C2paException_only (c2pa_release_stream p).
Proof. returns_call. Qed.

Lemma only_throw_last {A} : raises_C2paException_only (@throw_last A).
Proof. intros w e [= <-]. reflexivity. Qed.

Ltac unfold_calls :=
  unfold c2pa_settings_new, c2pa_settings_update_from_string,
    c2pa_settings_set_value, c2pa_context_new, c2pa_context_builder_new,
    c2pa_context_builder_set_settings, c2pa_context_builder_build,
    c2pa_create_stream, c2pa_builder_from_context,
    c2pa_builder_with_definition, c2pa_builder_with_archive,
    c2pa_builder_set_no_embed, c2pa_builder_set_remote_url,
    c2pa_reader_from_context, c2pa_reader_with_stream, c2pa_signer_create,
    c2pa_signer_from_info, c2pa_version, c2pa_load_settings, c2pa_read_file,
    c2pa_read_ingredient_file, c2pa_sign_file, c2pa_reader_from_stream,
    c2pa_reader_json, c2pa_reader_remote_url, c2pa_reader_resource_to_stream,
    c2pa_builder_from_json, c2pa_builder_from_archive,
    c2pa_builder_set_base_path, c2pa_builder_add_resource,
    c2pa_builder_add_ingredient_from_stream, c2pa_builder_add_action,
    c2pa_builder_to_archive, c2pa_builder_data_hashed_placeholder,
    c2pa_builder_sign_data_hashed_embeddable, c2pa_format_embeddable,
    C2paException_last.

Ltac only_step :=
  lazymatch goal with
  | |- raises_C2paException_only (bind _ _) => apply only_bind; [|intros ?]
  | |- raises_C2paException_only (ret _) => apply only_ret
  | |- raises_C2paException_only (throw _) => apply only_throw
  | |- raises_C2paException_only get => apply only_get
  | |- raises_C2paException_only this => apply only_this
  | |- raises_C2paException_only (set_this _) => apply only_set_this
  | |- raises_C2paException_only (modify _) => apply only_modify
  | |- raises_C2paException_only throw_last => apply only_throw_last
  | |- raises_C2paException_only (log_call _ _) => apply only_log_call
  | |- raises_C2paException_only (factory _ _) => apply only_factory
  | |- raises_C2paException_only (consuming _ _ _) => apply only_consuming
  | |- raises_C2paException_only (status _ _) => apply only_status
  | |- raises_C2paException_only (produce _ _) => apply only_produce
  | |- raises_C2paException_only (written _ _) => apply only_written
  | |- raises_C2paException_only (c_string _ _) => apply only_c_string
  | |- raises_C2paException_only (c2pa_builder_sign _ _ _ _ _) =>
      apply only_c2pa_builder_sign
  | |- raises_C2paException_only (c2pa_free _) => apply only_c2pa_free
  | |- raises_C2paException_only c2pa_error => unfold c2pa_error
  | |- raises_C2paException_only (c2pa_release_stream _) =>
      apply only_c2pa_release_stream
  | |- raises_C2paException_only (in_world _) => apply only_in_world
  | |- raises_C2paException_only (finally _ _) => apply only_finally
  | |- raises_C2paException_only (construct _ _ _) => apply only_construct
  | |- raises_C2paException_only (scoped _ _ _) => unfold scoped
  | |- raises_C2paException_only (match ?x with _ => _ end) => destruct x
  end.

Ltac only_tac := unfold_calls; repeat only_step.

Lemma untouched_add_directory d :
  handles_untouched (fun w => w) (modify (add_directory d)).
Proof. intros w. repeat split. Qed.

Ltac tidy_paths :=
  repeat first
    [ solve [auto with tidy]
    | apply tidy_in_world_untouched;
        first [apply untouched_open_ifstream | apply untouched_open_ofstream
              | apply untouched_get | apply untouched_add_directory]
    | apply tidy_if | apply tidy_throw | apply tidy_ret
    | apply tidy_bind; [|intros ?] ].

Lemma tidy_add_resource_path uri source_path stream :
  tidy fst (Builder.add_resource_path uri source_path stream).
Proof. unfold Builder.add_resource_path. tidy_paths. Qed.

Lemma tidy_add_ingredient_path json source_path stream :
  tidy fst (Builder.add_ingredient_path json source_path stream).
Proof. unfold Builder.add_ingredient_path. tidy_paths. Qed.

Lemma tidy_to_archive_path dest_path stream :
  tidy fst (Builder.to_archive_path dest_path stream).
Proof. unfold Builder.to_archive_path. tidy_paths. Qed.

Lemma tidy_sign_path source_path dest_path source dest signer :
  tidy fst (Builder.sign_path source_path dest_path source dest signer).
Proof. unfold Builder.sign_path. tidy_paths. Qed.

Lemma tidy_get_resource_path uri p stream :
  tidy fst (Reader.get_resource_path uri p stream).
Proof. unfold Reader.get_resource_path. tidy_paths. Qed.

#[local] Hint Resolve tidy_add_resource_path tidy_add_ingredient_path
  tidy_to_archive_path tidy_sign_path tidy_get_resource_path : tidy.

Ltac split_all :=
  repeat match goal with
    | |- _ /\ _ => split
    | |- forall _, _ => intro
    end.

(** X7: the adapter an operation wraps a caller's stream in is released
    before the operation returns, and also when it raises.  After
    [add_resource], [add_ingredient], [to_archive], [sign], and
    [sign_data_hashed_embeddable] of Builder and [get_resource] of Reader,
    on a stream or on a path, the handles that are live are those that
    were live before, and none has been released twice, whatever the
    engine answered. *)
Theorem stream_adapters_are_released (w : World) (b : Builder.t) (r : Reader.t) :
  fresh_handles w ->
  (forall uri source,
     handles_as_before (Builder.add_resource_stream uri source) w b) /\
  (forall uri source_path stream,
     handles_as_before (Builder.add_resource_path uri source_path stream) w b) /\
  (forall json format source,
     handles_as_before (Builder.add_ingredient_stream json format source) w b) /\
  (forall json source_path stream,
     handles_as_before (Builder.add_ingredient_path json source_path stream) w b) /\
  (forall dest, handles_as_before (Builder.to_archive_stream dest) w b) /\
  (forall dest_path stream,
     handles_as_before (Builder.to_archive_path dest_path stream) w b) /\
  (forall format source dest signer,
     handles_as_before (Builder.sign_ostream format source dest signer) w b /\
     handles_as_before (Builder.sign_iostream format source dest signer) w b) /\
  (forall source_path dest_path source dest signer,
     handles_as_before
       (Builder.sign_path source_path dest_path source dest signer) w b) /\
  (forall signer data_hash format asset,
     handles_as_before
       (Builder.sign_data_hashed_embeddable signer data_hash format asset) w b) /\
  (forall uri stream,
     handles_as_before (Reader.get_resource_stream uri stream) w r) /\
  (forall uri p stream,
     handles_as_before (Reader.get_resource_path uri p stream) w r).
Proof.
  intros Hf.
  assert (Hgen : forall O A (op : M (World * O) A) o,
             tidy fst op -> handles_as_before op w o).
  { intros O A op o H. destruct (H (w, o) Hf) as (Hl & Hs & _).
    split; [exact Hl | exact Hs]. }
  split_all; apply Hgen; auto with tidy.
Qed.

Lemma stream_adapters_are_released_witness :
  handles_as_before (Builder.sign_iostream "image/jpeg" 1 2 (Signer.Make 9))
    (world_with [7; 9]%N [Ok; Ok; Fail "signing failed"]) (Builder.Make 7).
Proof.
  assert (Hf : fresh_handles (world_with [7; 9]%N [Ok; Ok; Fail "signing failed"])).
  { intros h Hin. apply elem_of_list_to_set in Hin. cbn.
    repeat (apply elem_of_cons in Hin as [->|Hin]; [lia|]).
    apply elem_of_nil in Hin. contradiction. }
  destruct (stream_adapters_are_released _ (Builder.Make 7) Reader.init Hf)
    as (_ & _ & _ & _ & _ & _ & H & _).
  apply H.
Defined.

(** ** Operations that do not consume *)

(** X8: an operation whose foreign call does not consume leaves the object
    its handle, whether it returns or raises: a Builder on which
    [set_remote_url], [set_base_path], [add_action], [add_resource],
    [add_ingredient], [to_archive], [sign], [data_hashed_placeholder] or
    [sign_data_hashed_embeddable] has failed holds the handle it held and
    can be used again; so for [json], [remote_url] and [get_resource] of
    Reader, for [set] and [update] of Settings, and for [with_settings],
    [with_json] and [with_json_settings_file] of ContextBuilder. *)
Theorem failed_operation_keeps_handle (w : World) :
  (forall (b : Builder.t),
     snd (snd (Builder.set_no_embed (w, b))) = b /\
     (forall url, snd (snd (Builder.set_remote_url url (w, b))) = b) /\
     (forall base_path, snd (snd (Builder.set_base_path base_path (w, b))) = b) /\
     (forall json, snd (snd (Builder.add_action json (w, b))) = b) /\
     (forall uri source,
        snd (snd (Builder.add_resource_stream uri source (w, b))) = b) /\
     (forall uri source_path stream,
        snd (snd (Builder.add_resource_path uri source_path stream (w, b))) = b) /\
     (forall json format source,
        snd (snd (Builder.add_ingredient_stream json format source (w, b))) = b) /\
     (forall json source_path stream,
        snd (snd (Builder.add_ingredient_path json source_path stream (w, b))) = b) /\
     (forall dest, snd (snd (Builder.to_archive_stream dest (w, b))) = b) /\
     (forall dest_path stream,
        snd (snd (Builder.to_archive_path dest_path stream (w, b))) = b) /\
     (forall format source dest signer,
        snd (snd (Builder.sign_ostream format source dest signer (w, b))) = b /\
        snd (snd (Builder.sign_iostream format source dest signer (w, b))) = b) /\
     (forall source_path dest_path source dest signer,
        snd (snd (Builder.sign_path source_path dest_path source dest signer
                    (w, b))) = b) /\
     (forall reserve_size format,
        snd (snd (Builder.data_hashed_placeholder reserve_size format (w, b))) = b) /\
     (forall signer data_hash format asset,
        snd (snd (Builder.sign_data_hashed_embeddable signer data_hash format
                    asset (w, b))) = b)) /\
  (forall (r : Reader.t),
     snd (snd (Reader.json (w, r))) = r /\
     snd (snd (Reader.remote_url (w, r))) = r /\
     (forall uri stream,
        snd (snd (Reader.get_resource_stream uri stream (w, r))) = r) /\
     (forall uri p stream,
        snd (snd (Reader.get_resource_path uri p stream (w, r))) = r)) /\
  (forall (s : Settings.t) x y,
     snd (snd (Settings.set x y (w, s))) = s /\
     snd (snd (Settings.update x y (w, s))) = s) /\
  (forall (cb : ContextBuilder.t),
     (forall settings,
        snd (snd (ContextBuilder.with_settings settings (w, cb))) = cb) /\
     (forall json, snd (snd (ContextBuilder.with_json json (w, cb))) = cb) /\
     (forall settings_path content,
        snd (snd (ContextBuilder.with_json_settings_file settings_path content
                    (w, cb))) = cb)).
Proof.
  assert (Hgen : forall O A (op : M (World * O) A) o,
             keeps_this op -> snd (snd (op (w, o))) = o).
  { intros O A op o H. exact (H (w, o)). }
  split_all; apply Hgen;
    unfold Builder.set_no_embed, Builder.set_remote_url, Builder.set_base_path,
      Builder.add_action, Builder.add_resource_path, Builder.add_resource_stream,
      Builder.add_ingredient_path, Builder.add_ingredient_stream,
      Builder.to_archive_path, Builder.to_archive_stream,
      Builder.sign_path, Builder.sign_ostream, Builder.sign_iostream,
      Builder.data_hashed_placeholder, Builder.sign_data_hashed_embeddable,
      Reader.json, Reader.remote_url, Reader.get_resource_path,
      Reader.get_resource_stream, Settings.set, Settings.update,
      ContextBuilder.with_json_settings_file, ContextBuilder.with_json,
      ContextBuilder.with_settings;
    keeps_tac.
Qed.

(** ** Files that do not open *)

(** X9: the overloads that take a path open the file before anything else.
    When it does not open, [add_resource], [add_ingredient], [to_archive]
    and [from_archive] of Builder, [get_resource] of Reader,
    [with_json_settings_file] of ContextBuilder, and [sign] of Builder at
    its source raise [C2paException] with the message "Failed to open
    file: " followed by the path; no foreign call is made, no directory is
    created, and the object is left as it was. *)
Theorem unopened_file_stops_operation (w : World) (p : path) :
  (readable w (path_string p) = false ->
   (forall b uri stream,
      refuses (Builder.add_resource_path uri p stream)
        ("Failed to open file: " ++ path_string p) w b) /\
   (forall b json stream,
      refuses (Builder.add_ingredient_path json p stream)
        ("Failed to open file: " ++ path_string p) w b) /\
   (forall stream,
      Builder.from_archive_path p stream w
      = (inl (C2paException ("Failed to open file: " ++ path_string p)), w)) /\
   (forall cb content,
      ContextBuilder.is_valid cb = true ->
      refuses (ContextBuilder.with_json_settings_file p content)
        ("Failed to open file: " ++ path_string p) w cb) /\
   (forall b dest_path source dest signer,
      refuses (Builder.sign_path p dest_path source dest signer)
        ("Failed to open file: " ++ path_string p) w b)) /\
  (writable w (path_string p) = false ->
   (forall b stream,
      refuses (Builder.to_archive_path p stream)
        ("Failed to open file: " ++ path_string p) w b) /\
   (forall r uri stream,
      refuses (Reader.get_resource_path uri p stream)
        ("Failed to open file: " ++ path_string p) w r)).
Proof.
  split; intros Hno; split_all; unfold refuses;
    unfold Builder.add_resource_path, Builder.add_ingredient_path,
      Builder.from_archive_path, ContextBuilder.with_json_settings_file,
      Builder.sign_path, Builder.to_archive_path, Reader.get_resource_path,
      open_file_binary_ifstream, open_file_binary_ofstream,
      bind, in_world, this, get, throw; cbn [fst snd];
    rewrite ?Hno; try reflexivity.
  match goal with H : ContextBuilder.is_valid _ = true |- _ => rewrite H end.
  cbn. rewrite Hno. reflexivity.
Qed.

Lemma unopened_file_stops_operation_witness :
  refuses (Reader.get_resource_path "self#jumbf=thumbnail" (jpeg "out" "thumb") 3)
    "Failed to open file: out/thumb.jpg" read_only_world Reader.init.
Proof.
  destruct (unopened_file_stops_operation read_only_world (jpeg "out" "thumb"))
    as [_ H].
  apply (H eq_refl).
Defined.

(** ** The exception type *)

Lemma only_to_byte_vector data size :
  raises_C2paException_only (to_byte_vector data size).
Proof. unfold to_byte_vector. only_tac. Qed.

Lemma only_c_string_to_string c_result :
  raises_C2paException_only (c_string_to_string c_result).
Proof. unfold c_string_to_string. only_tac. Qed.

Lemma only_open_ifstream p : raises_C2paException_only (open_file_binary_ifstream p).
Proof. unfold open_file_binary_ifstream. only_tac. Qed.

Lemma only_open_ofstream p : raises_C2paException_only (open_file_binary_ofstream p).
Proof. unfold open_file_binary_ofstream. only_tac. Qed.

Lemma only_new_stream stream :
  raises_C2paException_only (CppStream.new_istream stream) /\
  raises_C2paException_only (CppStream.new_ostream stream) /\
  raises_C2paException_only (CppStream.new_iostream stream).
Proof.
  unfold CppStream.new_istream, CppStream.new_ostream, CppStream.new_iostream.
  repeat split; only_tac.
Qed.

Ltac only_more :=
  unfold_calls;
  repeat lazymatch goal with
    | |- raises_C2paException_only (to_byte_vector _ _) =>
        apply only_to_byte_vector
    | |- raises_C2paException_only (c_string_to_string _) =>
        apply only_c_string_to_string
    | |- raises_C2paException_only (open_file_binary_ifstream _) =>
        apply only_open_ifstream
    | |- raises_C2paException_only (open_file_binary_ofstream _) =>
        apply only_open_ofstream
    | |- raises_C2paException_only (CppStream.new_istream _) =>
        apply (proj1 (only_new_stream _))
    | |- raises_C2paException_only (CppStream.new_ostream _) =>
        apply (proj1 (proj2 (only_new_stream _)))
    | |- raises_C2paException_only (CppStream.new_iostream _) =>
        apply (proj2 (proj2 (only_new_stream _)))
    | |- _ => only_step
    end.

(** When the settings file opens and cannot be read, what leaves
    [with_json_settings_file] is the stream buffer's
    [std::ios_base::failure]; the builder is as it was and no foreign call
    has been made. *)
Lemma unread_settings_file_raises_ios_failure (w : World)
    (cb : ContextBuilder.t) (settings_path : path) :
  ContextBuilder.is_valid cb = true ->
  readable w (path_string settings_path) = true ->
  exists e,
    ContextBuilder.with_json_settings_file settings_path None (w, cb)
    = (inl e, (w, cb)) /\ is_C2paException e = false.
Proof.
  intros Hv Hr. destruct cb as [[|p]]; [discriminate Hv|].
  eexists. unfold ContextBuilder.with_json_settings_file,
    open_file_binary_ifstream. unfold_m. cbn. rewrite Hr. cbn.
  split; [destruct w; reflexivity | reflexivity].
Qed.

(** X10: whatever the constructors, the operations and the free functions
    of the wrapper raise is a [C2paException], be it for a failure found
    locally or for one the engine reported.  Three places are apart: the
    path overload of [Builder::sign] and the path constructors of Reader,
    which raise standard exceptions when a file does not open, and
    [with_json_settings_file] of ContextBuilder when the file opens and
    cannot be read; once the file has been read, it too raises nothing but
    [C2paException]. *)
Theorem wrapper_raises_C2paException_only :
  (raises_C2paException_only Settings.new /\
   (forall data format, raises_C2paException_only (Settings.from_string data format)) /\
   (forall x y, raises_C2paException_only (Settings.set x y) /\
                raises_C2paException_only (Settings.update x y))) /\
  ((forall ctx, raises_C2paException_only (Context.from_ptr ctx)) /\
   raises_C2paException_only Context.new /\
   (forall settings, raises_C2paException_only (Context.from_settings settings)) /\
   (forall json, raises_C2paException_only (Context.from_json json))) /\
  (raises_C2paException_only ContextBuilder.new /\
   (forall settings, raises_C2paException_only (ContextBuilder.with_settings settings)) /\
   (forall json, raises_C2paException_only (ContextBuilder.with_json json)) /\
   (forall settings_path content,
      raises_C2paException_only
        (ContextBuilder.with_json_settings_file settings_path (Some content))) /\
   raises_C2paException_only ContextBuilder.create_context) /\
  ((forall (c : Context.t) format stream,
      raises_C2paException_only (Reader.from_stream c format stream)) /\
   (forall format stream,
      raises_C2paException_only (Reader.from_stream_global format stream)) /\
   raises_C2paException_only Reader.json /\
   raises_C2paException_only Reader.remote_url /\
   (forall uri stream,
      raises_C2paException_only (Reader.get_resource_stream uri stream)) /\
   (forall uri p stream,
      raises_C2paException_only (Reader.get_resource_path uri p stream))) /\
  ((forall c : Context.t, raises_C2paException_only (Builder.from_context c)) /\
   (forall (c : Context.t) json,
      raises_C2paException_only (Builder.from_definition c json)) /\
   (forall json, raises_C2paException_only (Builder.from_json json)) /\
   (forall archive, raises_C2paException_only (Builder.from_archive_stream archive)) /\
   (forall archive_path stream,
      raises_C2paException_only (Builder.from_archive_path archive_path stream)) /\
   raises_C2paException_only Builder.set_no_embed /\
   (forall url, raises_C2paException_only (Builder.set_remote_url url)) /\
   (forall base_path, raises_C2paException_only (Builder.set_base_path base_path)) /\
   (forall json, raises_C2paException_only (Builder.with_definition json)) /\
   (forall archive, raises_C2paException_only (Builder.with_archive archive)) /\
   (forall uri source,
      raises_C2paException_only (Builder.add_resource_stream uri source)) /\
   (forall uri source_path stream,
      raises_C2paException_only (Builder.add_resource_path uri source_path stream)) /\
   (forall json format source,
      raises_C2paException_only (Builder.add_ingredient_stream json format source)) /\
   (forall json source_path stream,
      raises_C2paException_only
        (Builder.add_ingredient_path json source_path stream)) /\
   (forall json, raises_C2paException_only (Builder.add_action json)) /\
   (forall format source dest signer,
      raises_C2paException_only (Builder.sign_ostream format source dest signer) /\
      raises_C2paException_only (Builder.sign_iostream format source dest signer)) /\
   (forall dest, raises_C2paException_only (Builder.to_archive_stream dest)) /\
   (forall dest_path stream,
      raises_C2paException_only (Builder.to_archive_path dest_path stream)) /\
   (forall reserve_size format,
      raises_C2paException_only
        (Builder.data_hashed_placeholder reserve_size format)) /\
   (forall signer data_hash format asset,
      raises_C2paException_only
        (Builder.sign_data_hashed_embeddable signer data_hash format asset)) /\
   (forall format data,
      raises_C2paException_only (Builder.format_embeddable format data))) /\
  (raises_C2paException_only version /\
   (forall data format, raises_C2paException_only (load_settings data format)) /\
   (forall source_path data_dir,
      raises_C2paException_only (read_file source_path data_dir)) /\
   (forall source_path data_dir,
      raises_C2paException_only (read_ingredient_file source_path data_dir)) /\
   (forall source_path dest_path manifest signer_info data_dir,
      raises_C2paException_only
        (sign_file source_path dest_path manifest signer_info data_dir))).
Proof.
  split_all;
    unfold Settings.new, Settings.from_string, Settings.set, Settings.update,
      Context.from_ptr, Context.new, Context.from_json, Context.from_settings,
      ContextBuilder.new, ContextBuilder.with_json_settings_file,
      ContextBuilder.with_json, ContextBuilder.with_settings,
      ContextBuilder.create_context,
      Reader.from_stream, Reader.ctor_stream, Reader.from_stream_global,
      Reader.ctor_stream_global, Reader.attach, Reader.set_cpp_stream,
      Reader.set_c2pa_reader, Reader.json, Reader.remote_url,
      Reader.get_resource_path, Reader.get_resource_stream,
      Builder.from_context, Builder.ctor_context, Builder.from_definition,
      Builder.ctor_definition, Builder.from_json, Builder.ctor_json,
      Builder.from_archive_path, Builder.from_archive_stream,
      Builder.ctor_archive, Builder.set_no_embed, Builder.set_remote_url,
      Builder.set_base_path, Builder.with_definition, Builder.with_archive,
      Builder.add_resource_path, Builder.add_resource_stream,
      Builder.add_ingredient_path, Builder.add_ingredient_stream,
      Builder.add_action, Builder.sign_ostream, Builder.sign_iostream,
      Builder.to_archive_path, Builder.to_archive_stream,
      Builder.data_hashed_placeholder, Builder.sign_data_hashed_embeddable,
      Builder.format_embeddable, version, load_settings, read_file,
      read_ingredient_file, sign_file, Context.from_ptr, Settings.from_string;
    only_more.
Qed.

(** ** Constructors and the handles they obtain *)

Lemma fresh_handles_beyond w h :
  fresh_handles w -> (N.pos (next w) <= h)%N -> h ∉ live w.
Proof. intros H Hle Hin. apply H in Hin. lia. Qed.

Lemma released_under (h h' : N) (l : gset N) :
  h <> h' -> ({[h']} ∪ l) ∖ {[h]} = {[h']} ∪ l ∖ {[h]}.
Proof.
  intros H. apply set_eq. intros x.
  rewrite elem_of_union, !elem_of_difference, elem_of_union, !elem_of_singleton.
  split.
  - intros [[->|Hx] Hn]; [left; reflexivity | right; split; assumption].
  - intros [->|[Hx Hn]]; [split; [left; reflexivity | congruence]|].
    split; [right; exact Hx | exact Hn].
Qed.

(** A handle issued after [Hf] was established is not among the live
    ones, and one that heads the set is. *)
Ltac notin_tac Hf :=
  lazymatch goal with
  | |- _ ∉ {[_]} ∪ _ =>
      apply not_elem_of_union; split;
      [apply not_elem_of_singleton; lia | notin_tac Hf]
  | |- ?h ∉ _ => exact (fresh_handles_beyond _ h Hf ltac:(cbn; lia))
  end.

Ltac in_tac :=
  lazymatch goal with
  | |- ?h ∈ {[?h]} ∪ _ => apply elem_of_union_l, elem_of_singleton; reflexivity
  | |- _ ∈ {[_]} ∪ _ => apply elem_of_union_r; in_tac
  end.

Ltac norm_handles Hf :=
  repeat first
    [ rewrite issued_then_released by notin_tac Hf
    | rewrite released_under by lia
    | rewrite bool_decide_eq_true_2 by in_tac
    | rewrite bool_decide_eq_false_2 by notin_tac Hf ].

Ltac unfold_more_ctors :=
  unfold Builder.from_json, Builder.ctor_json, Builder.from_archive_stream,
    Builder.ctor_archive, Reader.from_stream_global, Reader.ctor_stream_global,
    Reader.from_path_global, Reader.ctor_path_global,
    c2pa_builder_from_json, c2pa_builder_from_archive, c2pa_reader_from_stream.

Ltac settle_acquires Hf :=
  unfold acquires, held, Reader_held; unfold_more_ctors; do 3 unfold_ctors;
  unfold_m; cbn; step_script; norm_handles Hf;
  split; first [reflexivity | apply (assoc_L (∪))].

(** X11: a constructor acquires what the object holds and nothing else.
    When a constructor of Settings, Context, ContextBuilder or Builder, or
    one of the constructors of Reader without a context, returns, the new
    live handles are the handle of the object (and, for a Reader, that of
    its adapter); when it raises, every handle it had obtained has been
    released or consumed, and the live handles are those there were; no
    handle is released twice.  The temporary Settings of
    [Context(json)] and the context builder of [Context(settings)] are
    gone in either case. *)
Theorem constructors_acquire_what_they_hold (w : World) :
  fresh_handles w ->
  acquires (fun s => held (Settings.settings_ptr s)) Settings.new w /\
  (forall data format,
     acquires (fun s => held (Settings.settings_ptr s))
       (Settings.from_string data format) w) /\
  acquires (fun c => held (Context.context c)) Context.new w /\
  (forall settings,
     acquires (fun c => held (Context.context c))
       (Context.from_settings settings) w) /\
  (forall json,
     acquires (fun c => held (Context.context c)) (Context.from_json json) w) /\
  acquires (fun b => held (ContextBuilder.context_builder b)) ContextBuilder.new w /\
  (forall c : Context.t,
     acquires (fun b => held (Builder.builder b)) (Builder.from_context c) w) /\
  (forall (c : Context.t) json,
     acquires (fun b => held (Builder.builder b)) (Builder.from_definition c json) w) /\
  (forall json,
     acquires (fun b => held (Builder.builder b)) (Builder.from_json json) w) /\
  (forall archive,
     acquires (fun b => held (Builder.builder b))
       (Builder.from_archive_stream archive) w) /\
  (forall format stream,
     acquires Reader_held (Reader.from_stream_global format stream) w) /\
  (forall source_path stream,
     acquires Reader_held (Reader.from_path_global source_path stream) w).
Proof.
  intros Hf. destruct w as [lv nx le sc cl st pl rd wr ex cd].
  split_all.
  - settle_acquires Hf.
  - settle_acquires Hf.
  - settle_acquires Hf.
  - destruct settings as [[|p]]; settle_acquires Hf.
  - settle_acquires Hf.
  - settle_acquires Hf.
  - destruct c as [[|p]]; settle_acquires Hf.
  - destruct c as [[|p]]; settle_acquires Hf.
  - settle_acquires Hf.
  - settle_acquires Hf.
  - settle_acquires Hf.
  - unfold acquires, Reader_held. unfold_more_ctors. do 3 unfold_ctors.
    unfold_m. cbn. destruct (rd (path_string source_path)); cbn;
      [|split; reflexivity].
    step_script; norm_handles Hf;
      split; first [reflexivity | apply (assoc_L (∪))].
Qed.

Lemma world_with_fresh (l : list N) (sc : list outcome) :
  Forall (fun h => (h < 100)%N) l -> fresh_handles (world_with l sc).
Proof.
  intros H h Hin. apply elem_of_list_to_set in Hin.
  rewrite Forall_forall in H. apply H in Hin. cbn. lia.
Qed.

Lemma constructors_acquire_what_they_hold_witness :
  acquires (fun c => held (Context.context c)) (Context.from_json "{}")
    (world_with [] [Ok; Ok; Fail "settings refused"]).
Proof.
  destruct (constructors_acquire_what_they_hold
              (world_with [] [Ok; Ok; Fail "settings refused"])
              (world_with_fresh [] _ ltac:(constructor)))
    as (_ & _ & _ & _ & H & _).
  apply H.
Defined.

(** X12: the constructors of Reader that take a context do not release the
    reader when the adapter cannot be made.  When the engine has issued the
    reader and then fails to issue the stream, [Reader(context, format,
    stream)] and [Reader(context, source_path)] raise [C2paException] with
    the adapter's message, and the reader's handle stays live though no
    object holds it: the destructor of a Reader that was never built does
    not run.  (When it is the file that does not open, the path constructor
    does release the reader.) *)
Theorem Reader_keeps_reader_when_adapter_fails (w : World) (c : Context.t)
    (msg : string) (rest : list outcome) :
  is_valid c = true -> fresh_handles w ->
  script w = Ok :: Fail msg :: rest ->
  (forall format stream,
     raises_message (Reader.from_stream c format stream) w
       "Failed to create input stream wrapper: is stream open and valid?" /\
     live (snd (Reader.from_stream c format stream w))
     = {[N.pos (next w)]} ∪ live w) /\
  (forall source_path stream,
     readable w (path_string source_path) = true ->
     raises_message (Reader.from_path c source_path stream) w
       "Failed to create input stream wrapper: is stream open and valid?" /\
     live (snd (Reader.from_path c source_path stream w))
     = {[N.pos (next w)]} ∪ live w) /\
  (forall source_path stream,
     readable w (path_string source_path) = false ->
     live (snd (Reader.from_path c source_path stream w)) = live w /\
     stale (snd (Reader.from_path c source_path stream w)) = stale w) /\
  N.pos (next w) ∉ live w.
Proof.
  intros Hv Hf Hs. destruct c as [[|p]]; [discriminate|].
  pose proof (fresh_handle_new w Hf) as Hnew.
  destruct w as [lv nx le sc cl st pl rd wr ex cd]. cbn in Hs, Hnew. subst sc.
  split_all; try exact Hnew;
    unfold raises_message; do 3 unfold_ctors; unfold_m; cbn;
    try match goal with
        | H : readable _ _ = _ |- _ => cbn in H; rewrite H; cbn
        end;
    norm_handles Hf; reflexivity.
Qed.

Lemma Reader_keeps_reader_when_adapter_fails_witness :
  raises_message (Reader.from_stream (Context.Make 7) "image/jpeg" 1)
    (world_with [7%N] [Ok; Fail "no stream"])
    "Failed to create input stream wrapper: is stream open and valid?" /\
  live (snd (Reader.from_stream (Context.Make 7) "image/jpeg" 1
               (world_with [7%N] [Ok; Fail "no stream"])))
  = {[100%N]} ∪ live (world_with [7%N] [Ok; Fail "no stream"]).
Proof.
  destruct (Reader_keeps_reader_when_adapter_fails
              (world_with [7%N] [Ok; Fail "no stream"]) (Context.Make 7)
              "no stream" [] eq_refl
              (world_with_fresh [7%N] _ ltac:(repeat constructor))
              eq_refl) as (H & _).
  apply H.
Defined.

(** ** The message of the exception *)






(** ** Moves *)

Ltac settle_move Hl :=
  unfold released, same_handles, Settings.move_assign, Context.move_assign,
    ContextBuilder.move_assign, Builder.move_assign, Signer.move_assign,
    Reader.move_assign, Settings.destroy, Context.destroy,
    ContextBuilder.destroy, Builder.destroy, Signer.destroy, Reader.destroy,
    Reader.destroy_members, CppStream.destroy;
  unfold_m; cbn;
  rewrite ?(bool_decide_eq_true_2 _ Hl);
  try (eexists; split; [reflexivity|]); repeat split.

(** X14: a move assignment releases what the target held, once, and hands
    over what the source held.  For Settings, Context, ContextBuilder,
    Builder and Signer: when the target holds a live handle, that handle is
    released, the target then holds the handle of the source and the
    source holds null; no other handle is touched.  And destroying an
    object that holds null, as a moved-from object does, releases
    nothing. *)
Theorem move_assignment_releases_target (w : World) (a b : N) :
  a <> nullptr -> a ∈ live w ->
  (exists w',
     Settings.move_assign (w, (Settings.Make a, Settings.Make b))
     = (inr tt, (w', (Settings.Make b, Settings.Make nullptr))) /\
     released a w w') /\
  (exists w',
     Context.move_assign (w, (Context.Make a, Context.Make b))
     = (inr tt, (w', (Context.Make b, Context.Make nullptr))) /\
     released a w w') /\
  (exists w',
     ContextBuilder.move_assign
       (w, (ContextBuilder.Make a, ContextBuilder.Make b))
     = (inr tt, (w', (ContextBuilder.Make b, ContextBuilder.Make nullptr))) /\
     released a w w') /\
  (exists w',
     Builder.move_assign (w, (Builder.Make a, Builder.Make b))
     = (inr tt, (w', (Builder.Make b, Builder.Make nullptr))) /\
     released a w w') /\
  (exists w',
     Signer.move_assign (w, (Signer.Make a, Signer.Make b))
     = (inr tt, (w', (Signer.Make b, Signer.Make nullptr))) /\
     released a w w') /\
  same_handles w (fst (snd (Settings.destroy (w, Settings.Make nullptr)))) /\
  same_handles w (fst (snd (Context.destroy (w, Context.Make nullptr)))) /\
  same_handles w
    (fst (snd (ContextBuilder.destroy (w, ContextBuilder.Make nullptr)))) /\
  same_handles w (fst (snd (Builder.destroy (w, Builder.Make nullptr)))) /\
  same_handles w (fst (snd (Signer.destroy (w, Signer.Make nullptr)))) /\
  same_handles w (fst (snd (Reader.destroy (w, Reader.init)))).
Proof.
  intros Ha Hl. destruct a as [|pa]; [unfold nullptr in Ha; congruence|].
  destruct w as [lv nx le sc cl st pl rd wr ex cd]. cbn in Hl.
  split_all; settle_move Hl.
Qed.

Lemma in_world_with (h : N) (l : list N) (sc : list outcome) :
  h ∈ l -> h ∈ live (world_with l sc).
Proof. intros H. apply elem_of_list_to_set. exact H. Qed.

Lemma move_assignment_releases_target_witness :
  exists w',
    Builder.move_assign (world_with [7; 8]%N [], (Builder.Make 7, Builder.Make 8))
    = (inr tt, (w', (Builder.Make 8, Builder.Make nullptr))) /\
    released 7 (world_with [7; 8]%N []) w'.
Proof.
  destruct (move_assignment_releases_target (world_with [7; 8]%N []) 7 8
              ltac:(discriminate)
              (in_world_with 7 [7; 8]%N [] ltac:(constructor)))
    as (_ & _ & _ & H & _).
  exact H.
Defined.

(** ** The consuming builder *)

(** X15: a successful [create_context] uses the builder up.  The Context it
    returns holds the handle the engine issued; the builder's handle is no
    longer live and the builder holds null, so that its destructor makes
    no foreign call, and a second [create_context], like every other
    operation, raises without one. *)
Theorem create_context_consumes_builder (w : World) (h : N) (rest : list outcome) :
  h <> nullptr -> h ∈ live w -> script w = Ok :: rest ->
  exists w1,
    ContextBuilder.create_context (w, ContextBuilder.Make h)
    = (inr (Context.Make (N.pos (next w))), (w1, ContextBuilder.Make nullptr)) /\
    live w1 = {[N.pos (next w)]} ∪ live w ∖ {[h]} /\
    stale w1 = stale w /\
    ContextBuilder.destroy (w1, ContextBuilder.Make nullptr)
    = (inr tt, (w1, ContextBuilder.Make nullptr)) /\
    refuses ContextBuilder.create_context
      "ContextBuilder is invalid (moved from)" w1 (ContextBuilder.Make nullptr) /\
    (forall json,
       refuses (ContextBuilder.with_json json)
         "ContextBuilder is invalid (moved from)" w1 (ContextBuilder.Make nullptr)).
Proof.
  intros Hh Hl Hs. destruct h as [|p]; [unfold nullptr in Hh; congruence|].
  destruct w as [lv nx le sc cl st pl rd wr ex cd]. cbn in Hl, Hs. subst sc.
  unfold ContextBuilder.create_context, ContextBuilder.is_valid,
    Context.from_ptr. unfold_m. cbn.
  rewrite (bool_decide_eq_true_2 _ Hl).
  eexists. split; [reflexivity|]. repeat split.
Qed.

Lemma create_context_consumes_builder_witness :
  exists w1,
    ContextBuilder.create_context (world_with [7%N] [Ok], ContextBuilder.Make 7)
    = (inr (Context.Make 100), (w1, ContextBuilder.Make nullptr)) /\
    live w1 = {[100%N]} ∪ live (world_with [7%N] [Ok]) ∖ {[7%N]}.
Proof.
  destruct (create_context_consumes_builder (world_with [7%N] [Ok]) 7 []
              ltac:(discriminate)
              (in_world_with 7 [7%N] [Ok] ltac:(constructor))
              eq_refl) as (w1 & H1 & H2 & _).
  exists w1. split; [exact H1 | exact H2].
Defined.

(** ** Consuming operations *)

Ltac mem_tac :=
  lazymatch goal with
  | |- _ ∈ _ ∖ _ =>
      apply elem_of_difference; split;
      [mem_tac | apply not_elem_of_singleton; lia]
  | |- ?h ∈ {[?h]} ∪ _ => apply elem_of_union_l, elem_of_singleton; reflexivity
  | |- _ ∈ {[_]} ∪ _ => apply elem_of_union_r; mem_tac
  | |- _ ∈ _ => assumption
  end.

Ltac notmem_tac :=
  lazymatch goal with
  | |- ?h ∉ _ ∖ {[?h]} =>
      intros Hin; apply elem_of_difference in Hin as [_ Hin]; apply Hin;
      apply elem_of_singleton; reflexivity
  end.

Ltac settle_ownership :=
  repeat first
    [ rewrite bool_decide_eq_true_2 by mem_tac
    | rewrite bool_decide_eq_false_2 by notmem_tac ];
  cbn; repeat split;
  first [left; reflexivity | right; mem_tac].

(** X19: the operations of Builder that consume keep the builder the owner
    of what it holds.  After [with_definition] and [with_archive], whatever
    the engine answered, the builder holds null or a live handle (the one
    the engine issued, or the old one when the operation raised before the
    consuming call), no handle has been released twice, and the
    destructor, run next, releases none twice. *)
Theorem consuming_operations_keep_ownership (w : World) (h : N) :
  h <> nullptr -> h ∈ live w -> fresh_handles w ->
  (forall json,
     keeps_ownership (Builder.with_definition json) w (Builder.Make h)) /\
  (forall archive,
     keeps_ownership (Builder.with_archive archive) w (Builder.Make h)).
Proof.
  intros Hh Hl Hf. destruct h as [|p]; [unfold nullptr in Hh; congruence|].
  pose proof (Hf _ Hl) as Hlt.
  destruct w as [lv nx le sc cl st pl rd wr ex cd]. cbn in Hl, Hlt. clear Hf.
  split; intros x; unfold keeps_ownership, owns, Builder.with_definition,
    Builder.with_archive, Builder.destroy, CppStream.new_istream,
    CppStream.destroy; unfold_m; cbn; step_script; settle_ownership.
Qed.

Lemma consuming_operations_keep_ownership_witness :
  keeps_ownership (Builder.with_archive 1)
    (world_with [7%N] [Ok; Fail "not an archive"]) (Builder.Make 7).
Proof.
  destruct (consuming_operations_keep_ownership
              (world_with [7%N] [Ok; Fail "not an archive"]) 7
              ltac:(discriminate)
              (in_world_with 7 [7%N] _ ltac:(constructor))
              (world_with_fresh [7%N] _ ltac:(repeat constructor)))
    as [_ H].
  apply H.
Defined.

(** ** Signing *)

Lemma take_all {A} (l : list A) : take (Z.to_nat (Z.of_nat (length l))) l = l.
Proof. rewrite Nat2Z.id. apply firstn_all. Qed.

(** Running a computation whose parts have been run. *)
Lemma run_bind {S A B} (c : M S A) (k : A -> M S B) (s s1 : S) (a : A) :
  c s = (inr a, s1) -> bind c k s = k a s1.
Proof. intros E. unfold bind. rewrite E. reflexivity. Qed.

Lemma run_in_world {O A} (c : M World A) (w w1 : World) (o : O)
    (r : exception + A) :
  c w = (r, w1) -> in_world c (w, o) = (r, (w1, o)).
Proof. intros E. unfold in_world. cbn [fst snd]. rewrite E. reflexivity. Qed.

Lemma run_scoped {L O A} (ctor : M World L) (dtor : L -> M World unit)
    (body : L -> M (World * O) A) (w w1 w2 w3 : World) (o o2 : O) (l : L)
    (r : exception + A) (u : exception + unit) :
  ctor w = (inr l, w1) -> body l (w1, o) = (r, (w2, o2)) ->
  dtor l w2 = (u, w3) ->
  scoped ctor dtor body (w, o) = (r, (w3, o2)).
Proof.
  intros E1 E2 E3. unfold scoped.
  rewrite (run_bind _ _ _ _ _ (run_in_world ctor w w1 o _ E1)).
  unfold finally. rewrite E2, (run_in_world (dtor l) w2 w3 o2 _ E3). reflexivity.
Qed.

Lemma run_new_stream (stream : N) (w : World) (rest : list outcome) :
  script w = Ok :: rest ->
  exists w1,
    stream_issued w w1 rest /\
    CppStream.new_istream stream w = (inr (CppStream.Make (N.pos (next w))), w1) /\
    CppStream.new_ostream stream w = (inr (CppStream.Make (N.pos (next w))), w1) /\
    CppStream.new_iostream stream w = (inr (CppStream.Make (N.pos (next w))), w1).
Proof.
  intros Hs. destruct w as [lv nx le sc cl st pl rd wr ex cd]. cbn in Hs. subst sc.
  eexists. split; [|repeat split]. repeat split.
Qed.

Lemma run_c2pa_builder_sign (b : N) (format : string) (source dest signer : N)
    (w : World) (rest : list outcome) :
  script w = Ok :: rest ->
  exists w1,
    c2pa_builder_sign b format source dest signer w
    = (inr (Z.of_nat (length (payload w)), Some (payload w)), w1) /\
    calls w1 = Call "c2pa_builder_sign" [b; source; dest; signer] :: calls w.
Proof.
  intros Hs. destruct w as [lv nx le sc cl st pl rd wr ex cd]. cbn in Hs. subst sc.
  eexists. split; reflexivity.
Qed.

Lemma run_to_byte_vector (bytes : list Byte.byte) (w : World) :
  exists w1,
    to_byte_vector (Some bytes) (Z.of_nat (length bytes)) w = (inr bytes, w1) /\
    calls w1 = Call "c2pa_free" [] :: calls w.
Proof.
  unfold to_byte_vector.
  destruct (Z.of_nat (length bytes) <? 0) eqn:E; [apply Z.ltb_lt in E; lia|].
  unfold bind, log_call, modify, ret. rewrite take_all.
  eexists. split; reflexivity.
Qed.

Lemma run_destroy_stream (c : CppStream.t) (w : World) :
  exists w1,
    CppStream.destroy c w = (inr tt, w1) /\
    calls w1 = Call "c2pa_release_stream" [CppStream.c_stream c] :: calls w.
Proof.
  unfold CppStream.destroy, c2pa_release_stream, bind, log_call, modify,
    give_back, ret.
  destruct (CppStream.c_stream c =? nullptr)%N; eexists; split; reflexivity.
Qed.

(** The body of [sign], common to its two stream overloads. *)
Lemma run_sign_body (b : Builder.t) (format : string) (c_source c_dest : CppStream.t)
    (signer : Signer.t) (w : World) (rest : list outcome) :
  script w = Ok :: rest ->
  exists w1,
    bind this
      (fun self =>
         bind (in_world (c2pa_builder_sign (Builder.builder self) format
                           (CppStream.c_stream c_source)
                           (CppStream.c_stream c_dest)
                           (Signer.c2pa_signer signer)))
           (fun r => in_world (to_byte_vector (snd r) (fst r)))) (w, b)
    = (inr (payload w), (w1, b)) /\
    calls w1
    = [Call "c2pa_free" [];
       Call "c2pa_builder_sign"
         [Builder.builder b; CppStream.c_stream c_source;
          CppStream.c_stream c_dest; Signer.c2pa_signer signer]] ++ calls w.
Proof.
  intros Hs.
  destruct (run_c2pa_builder_sign (Builder.builder b) format
              (CppStream.c_stream c_source) (CppStream.c_stream c_dest)
              (Signer.c2pa_signer signer) w rest Hs) as (w1 & E1 & C1).
  destruct (run_to_byte_vector (payload w) w1) as (w2 & E2 & C2).
  exists w2. split; [|rewrite C2, C1; reflexivity].
  rewrite (run_bind this _ (w, b) (w, b) b eq_refl).
  rewrite (run_bind _ _ _ _ _ (run_in_world _ w w1 b _ E1)).
  cbn [fst snd]. apply run_in_world. exact E2.
Qed.

(** X16: what a signing that succeeds does, in order.  [sign] makes the
    adapter of the source, then that of the destination, calls the engine
    with the builder, the two adapters and the signer, releases the buffer
    the engine produced, and releases the destination's adapter and then
    the source's: the adapters outlive the foreign call that uses them.  It
    returns the bytes the engine produced, all of them. *)
Theorem sign_makes_its_calls_in_order (w : World) (b : Builder.t)
    (format : string) (source dest : N) (signer : Signer.t)
    (rest : list outcome) :
  script w = Ok :: Ok :: Ok :: rest ->
  let c_source := N.pos (next w) in
  let c_dest := N.pos (Pos.succ (next w)) in
  let trace :=
    [Call "c2pa_release_stream" [c_source];
     Call "c2pa_release_stream" [c_dest];
     Call "c2pa_free" [];
     Call "c2pa_builder_sign"
       [Builder.builder b; c_source; c_dest; Signer.c2pa_signer signer];
     Call "c2pa_create_stream" [];
     Call "c2pa_create_stream" []] ++ calls w in
  (fst (Builder.sign_iostream format source dest signer (w, b)) = inr (payload w) /\
   calls (fst (snd (Builder.sign_iostream format source dest signer (w, b))))
   = trace) /\
  (fst (Builder.sign_ostream format source dest signer (w, b)) = inr (payload w) /\
   calls (fst (snd (Builder.sign_ostream format source dest signer (w, b))))
   = trace).
Proof.
  intros Hs. cbv zeta.
  destruct (run_new_stream source w _ Hs) as (w1 & (C1 & S1 & N1 & P1) & Ei1 & _).
  destruct (run_new_stream dest w1 _ S1) as (w2 & (C2 & S2 & N2 & P2) & _ & Eo2 & Eio2).
  set (c_source := CppStream.Make (N.pos (next w))) in *.
  set (c_dest := CppStream.Make (N.pos (next w1))) in *.
  destruct (run_sign_body b format c_source c_dest signer w2 rest S2)
    as (w3 & E3 & C3).
  destruct (run_destroy_stream c_dest w3) as (w4 & E4 & C4).
  destruct (run_destroy_stream c_source w4) as (w5 & E5 & C5).
  assert (Etrace : calls w5
          = [Call "c2pa_release_stream" [N.pos (next w)];
             Call "c2pa_release_stream" [N.pos (Pos.succ (next w))];
             Call "c2pa_free" [];
             Call "c2pa_builder_sign"
               [Builder.builder b; N.pos (next w); N.pos (Pos.succ (next w));
                Signer.c2pa_signer signer];
             Call "c2pa_create_stream" [];
             Call "c2pa_create_stream" []] ++ calls w).
  { rewrite C5, C4, C3, C2, C1. subst c_source c_dest. cbn [CppStream.c_stream].
    rewrite N1. reflexivity. }
  assert (Epay : payload w2 = payload w) by congruence.
  split.
  - unfold Builder.sign_iostream.
    rewrite (run_scoped _ _ _ w w1 w4 w5 b b c_source (inr (payload w2)) (inr tt)
               Ei1 (run_scoped _ _ _ w1 w2 w3 w4 b b c_dest _ (inr tt) Eio2 E3 E4)
               E5).
    cbn [fst snd]. split; [rewrite Epay; reflexivity | exact Etrace].
  - unfold Builder.sign_ostream.
    rewrite (run_scoped _ _ _ w w1 w4 w5 b b c_source (inr (payload w2)) (inr tt)
               Ei1 (run_scoped _ _ _ w1 w2 w3 w4 b b c_dest _ (inr tt) Eo2 E3 E4)
               E5).
    cbn [fst snd]. split; [rewrite Epay; reflexivity | exact Etrace].
Qed.

Lemma sign_makes_its_calls_in_order_witness :
  fst (Builder.sign_iostream "image/jpeg" 1 2 (Signer.Make 9)
         (world_with [7; 9]%N [Ok; Ok; Ok], Builder.Make 7))
  = inr [].
Proof.
  destruct (sign_makes_its_calls_in_order (world_with [7; 9]%N [Ok; Ok; Ok])
              (Builder.Make 7) "image/jpeg" 1 2 (Signer.Make 9) [] eq_refl)
    as ((H & _) & _).
  exact H.
Defined.

(** What is on disk is not the engine's business. *)
Lemma unchanged_bind {S A B X} (part : S -> X) (c : M S A) (k : A -> M S B) :
  unchanged part c -> (forall a, unchanged part (k a)) -> unchanged part (bind c k).
Proof.
  intros Hc Hk s. unfold bind. specialize (Hc s).
  destruct (c s) as [[e|a] s1]; [exact Hc|]. rewrite (Hk a s1). exact Hc.
Qed.

Lemma unchanged_finally {S A X} (part : S -> X) (c : M S A) (cleanup : M S unit) :
  unchanged part c -> unchanged part cleanup -> unchanged part (finally c cleanup).
Proof.
  intros Hc Hk s. unfold finally. specialize (Hc s).
  destruct (c s) as [r s1]. specialize (Hk s1).
  destruct (cleanup s1) as [u s2]. cbn [snd] in *. congruence.
Qed.

Lemma unchanged_in_world {O A X} (part : World -> X) (c : M World A) :
  unchanged part c -> unchanged (fun s : World * O => part (fst s)) (in_world c).
Proof.
  intros Hc [w o]. unfold in_world. cbn [fst snd]. specialize (Hc w).
  destruct (c w) as [r w1]. exact Hc.
Qed.

Lemma unchanged_this {O X} (part : World * O -> X) : unchanged part this.
Proof. intros s. reflexivity. Qed.

Ltac files_call :=
  intros w;
  unfold CppStream.new_istream, CppStream.new_ostream, CppStream.new_iostream,
    CppStream.destroy, c2pa_create_stream, c2pa_release_stream,
    c2pa_builder_sign, to_byte_vector, throw_last, C2paException_last,
    c2pa_error, factory, fresh, give_back, bind, log_call, modify, answer,
    get, ret, throw;
  cbn;
  repeat match goal with
    | |- context [match script ?w with _ => _ end] => destruct (script w); cbn
    | |- context [match ?o with Ok => _ | Fail _ => _ end] => destruct o; cbn
    | |- context [match ?d with Some _ => _ | None => _ end] => destruct d; cbn
    | |- context [if ?b then _ else _] => destruct b; cbn
    end;
  reflexivity.

Lemma files_new_stream stream :
  unchanged exists_ (CppStream.new_istream stream) /\
  unchanged exists_ (CppStream.new_ostream stream) /\
  unchanged exists_ (CppStream.new_iostream stream).
Proof. repeat split; files_call. Qed.

Lemma files_destroy_stream c : unchanged exists_ (CppStream.destroy c).
Proof. files_call. Qed.

Lemma files_c2pa_builder_sign b format source dest signer :
  unchanged exists_ (c2pa_builder_sign b format source dest signer).
Proof. files_call. Qed.

Lemma files_to_byte_vector data size : unchanged exists_ (to_byte_vector data size).
Proof. files_call. Qed.

Lemma files_sign_iostream format source dest signer :
  unchanged (fun s : World * Builder.t => exists_ (fst s))
    (Builder.sign_iostream format source dest signer).
Proof.
  unfold Builder.sign_iostream, scoped.
  apply unchanged_bind;
    [apply (unchanged_in_world exists_), (proj1 (files_new_stream _))|intros c1].
  apply unchanged_finally;
    [|apply (unchanged_in_world exists_), files_destroy_stream].
  apply unchanged_bind;
    [apply (unchanged_in_world exists_), (proj2 (proj2 (files_new_stream _)))
    |intros c2].
  apply unchanged_finally;
    [|apply (unchanged_in_world exists_), files_destroy_stream].
  apply unchanged_bind; [apply unchanged_this|intros self].
  apply unchanged_bind;
    [apply (unchanged_in_world exists_), files_c2pa_builder_sign|intros r].
  apply (unchanged_in_world exists_), files_to_byte_vector.
Qed.

(** X17: the path overload of [sign] makes the directory of the
    destination when it is missing, before it opens the destination: the
    directory is there afterwards, also when the destination does not open
    or the engine fails; when the directory cannot be made, the operation
    raises and makes no foreign call. *)
Theorem sign_path_makes_directory (w : World) (b : Builder.t)
    (source_path dest_path : path) (source dest : N) (signer : Signer.t) :
  readable w (path_string source_path) = true ->
  exists_ w (parent_path dest_path) = false ->
  let done := Builder.sign_path source_path dest_path source dest signer (w, b) in
  (can_create_directories w (parent_path dest_path) = true ->
   exists_ (fst (snd done)) (parent_path dest_path) = true) /\
  (can_create_directories w (parent_path dest_path) = false ->
   done = (inl (std_filesystem_error (parent_path dest_path)), (w, b))).
Proof.
  intros Hr He. cbv zeta.
  assert (Eopen : in_world (open_file_binary_ifstream source_path) (w, b)
                  = (inr tt, (w, b))).
  { apply run_in_world. unfold open_file_binary_ifstream, bind, get.
    rewrite Hr. reflexivity. }
  unfold Builder.sign_path.
  rewrite (run_bind _ _ _ _ _ Eopen).
  rewrite (run_bind (in_world get) _ (w, b) (w, b) w
             (run_in_world get w w b _ eq_refl)).
  rewrite He. cbn [negb].
  split; intros Hc; rewrite Hc.
  - set (w1 := add_directory (parent_path dest_path) w).
    assert (Edir : exists_ w1 (parent_path dest_path) = true).
    { subst w1. unfold add_directory. cbn [exists_].
      rewrite String.eqb_refl. reflexivity. }
    rewrite (run_bind _ _ _ _ _
               (run_in_world (modify (add_directory (parent_path dest_path)))
                  w w1 b _ eq_refl)).
    rewrite (run_bind (in_world get) _ (w1, b) (w1, b) w1
               (run_in_world get w1 w1 b _ eq_refl)).
    destruct (negb (writable w1 (path_string dest_path))); [exact Edir|].
    rewrite (files_sign_iostream _ source dest signer (w1, b)). exact Edir.
  - reflexivity.
Qed.

Lemma sign_path_makes_directory_witness :
  exists_ (fst (snd (Builder.sign_path (jpeg "in" "C") (jpeg "out" "C_signed") 1 2
                       (Signer.Make 9)
                       (MkWorld ∅ 1%positive None [] [] [] []
                          (fun _ => true) (fun _ => false) (fun _ => false)
                          (fun _ => true), Builder.Make 7)))) "out"
  = true.
Proof.
  destruct (sign_path_makes_directory
              (MkWorld ∅ 1%positive None [] [] [] []
                 (fun _ => true) (fun _ => false) (fun _ => false)
                 (fun _ => true))
              (Builder.Make 7) (jpeg "in" "C") (jpeg "out" "C_signed") 1 2
              (Signer.Make 9) eq_refl eq_refl) as [H _].
  apply H. reflexivity.
Defined.

(** * Properties of the free functions *)

Lemma prefix_app (needle rest : string) : String.prefix needle (needle ++ rest)%string = true.
Proof.
  induction needle as [|a needle IH]; [destruct rest; reflexivity|].
  change (match Ascii.ascii_dec a a with
          | left _ => String.prefix needle (needle ++ rest)%string
          | right _ => false
          end = true).
  destruct (Ascii.ascii_dec a a); [exact IH | congruence].
Qed.

Lemma prefix_split (needle s : string) :
  String.prefix needle s = true -> exists rest, s = (needle ++ rest)%string.
Proof.
  revert s. induction needle as [|a needle IH]; intros s H.
  - exists s. reflexivity.
  - destruct s as [|b s]; [discriminate|].
    change (match Ascii.ascii_dec a b with
            | left _ => String.prefix needle s
            | right _ => false
            end = true) in H.
    destruct (Ascii.ascii_dec a b) as [->|]; [|discriminate].
    destruct (IH s H) as [rest ->]. exists rest. reflexivity.
Qed.

(** [strstr] finds the needle exactly when it occurs. *)
Lemma strstr_prefix (haystack needle : string) :
  String.prefix needle haystack = true -> strstr haystack needle = Some haystack.
Proof. intros H. destruct haystack; cbn [strstr]; rewrite H; reflexivity. Qed.

Lemma strstr_found (before needle rest : string) :
  strstr (before ++ needle ++ rest)%string needle <> None.
Proof.
  induction before as [|a before IH].
  - change ("" ++ needle ++ rest)%string with (needle ++ rest)%string.
    rewrite (strstr_prefix _ _ (prefix_app needle rest)). discriminate.
  - change (strstr (String a (before ++ needle ++ rest)%string) needle <> None).
    set (h := (before ++ needle ++ rest)%string) in *.
    change (strstr (String a h) needle)
      with (if String.prefix needle (String a h) then Some (String a h)
            else strstr h needle).
    destruct (String.prefix needle (String a h)); [discriminate | exact IH].
Qed.

Lemma strstr_occurs (haystack needle found : string) :
  strstr haystack needle = Some found ->
  exists before rest, haystack = (before ++ needle ++ rest)%string.
Proof.
  induction haystack as [|a haystack IH].
  - change (strstr "" needle)
      with (if String.prefix needle "" then Some ""%string else None).
    destruct (String.prefix needle "") eqn:E; [|intros H; discriminate H].
    intros _. destruct (prefix_split _ _ E) as [rest ->].
    exists "", rest. reflexivity.
  - change (strstr (String a haystack) needle)
      with (if String.prefix needle (String a haystack)
            then Some (String a haystack) else strstr haystack needle).
    destruct (String.prefix needle (String a haystack)) eqn:E.
    + intros _. destruct (prefix_split _ _ E) as [rest ->].
      exists "", rest. reflexivity.
    + intros H. destruct (IH H) as (before & rest & ->).
      exists (String a before), rest. reflexivity.
Qed.

(** X18: [read_file] tells a file without a manifest from a failure.  When
    the engine returns null, [read_file] returns no value if the engine's
    message contains "ManifestNotFound", wherever in the message, and
    raises [C2paException] with that message if it does not; when the
    engine returns text, [read_file] returns it. *)
Theorem read_file_manifest_not_found (w : World) (source_path : path)
    (data_dir : option path) (rest : list outcome) :
  (forall msg,
     script w = Fail msg :: rest ->
     ((exists before after, msg = (before ++ "ManifestNotFound" ++ after)%string) ->
      fst (read_file source_path data_dir w) = inr None) /\
     ((forall before after, msg <> (before ++ "ManifestNotFound" ++ after)%string) ->
      fst (read_file source_path data_dir w) = inl (C2paException msg))) /\
  (script w = Ok :: rest ->
   fst (read_file source_path data_dir w)
   = inr (Some (String.string_of_list_byte (payload w)))).
Proof.
  split.
  - intros msg Hs. open_world w.
    unfold read_file, c2pa_read_file, c_string. unfold_m. cbn.
    split.
    + intros (before & after & ->).
      pose proof (strstr_found before "ManifestNotFound" after) as H.
      destruct (strstr _ _); [reflexivity | congruence].
    + intros Hno.
      destruct (strstr msg "ManifestNotFound") as [found|] eqn:E; [|reflexivity].
      destruct (strstr_occurs _ _ _ E) as (before & after & ->).
      exfalso. exact (Hno before after eq_refl).
  - intros Hs. open_world w. reflexivity.
Qed.

Lemma read_file_manifest_not_found_witness :
  fst (read_file (jpeg "in" "C") None
         (world_with [] [Fail "ManifestNotFound: no JUMBF data found"]))
  = inr None.
Proof.
  destruct (read_file_manifest_not_found
              (world_with [] [Fail "ManifestNotFound: no JUMBF data found"])
              (jpeg "in" "C") None []) as [H _].
  apply (H "ManifestNotFound: no JUMBF data found" eq_refl).
  exists "", ": no JUMBF data found". reflexivity.
Defined.
